(** * CheckersRL: a shallow embedding of [checkers.py]

    The development follows the layout of the source file: constants,
    the [Piece] class, the [Board] class (grid, relocation, removal, winner
    and the recursive move generator) and the [Game] controller.

    Python objects are shared and mutated in place, so pieces live in a
    store ([Heap]) and the grid, the selection and the capture lists hold
    references into it. *)

From stdpp Require Import base gmap list.
From Stdlib Require Import ZArith Lia.

Local Open Scope Z_scope.

(** ** Outcomes of a Python call *)

Inductive Exc := IndexError | AttributeError | ValueError | KeyError.

(** [OutOfFuel] is not a Python outcome: it marks a run of a recursive
    definition whose fuel was too small. *)
Inductive res (A : Type) : Type :=
| Ok (a : A)
| Raise (e : Exc)
| OutOfFuel.
Arguments Ok {A} a.
Arguments Raise {A} e.
Arguments OutOfFuel {A}.

Global Instance res_bind : MBind res := λ A B f m,
  match m with
  | Ok a => f a
  | Raise e => Raise e
  | OutOfFuel => OutOfFuel
  end.

(** ** Constants *)

Definition WIDTH : Z := 800.
Definition HEIGHT : Z := 800.
Definition ROWS : Z := 8.
Definition COLS : Z := 8.
Definition SQUARE_SIZE : Z := WIDTH / COLS.

(** Only [RED] and [WHITE] are ever given to a [Piece]. *)
Inductive Color := RED | WHITE.

Global Instance Color_eq_dec : EqDecision Color.
Proof. solve_decision. Defined.

Definition color_eqb (a b : Color) : bool := bool_decide (a = b).

(** ** Python lists and [range] *)

(** [l[i]]: a negative index counts from the end, anything outside
    [-len, len) raises [IndexError]. *)
Definition norm_index (len : nat) (i : Z) : option nat :=
  if (0 <=? i) && (i <? Z.of_nat len) then Some (Z.to_nat i)
  else if (- Z.of_nat len <=? i) && (i <? 0) then Some (Z.to_nat (Z.of_nat len + i))
  else None.

Definition getitem {A} (l : list A) (i : Z) : res A :=
  match norm_index (length l) i with
  | Some n => match l !! n with Some a => Ok a | None => Raise IndexError end
  | None => Raise IndexError
  end.

Definition setitem {A} (l : list A) (i : Z) (a : A) : res (list A) :=
  match norm_index (length l) i with
  | Some n => Ok (<[n := a]> l)
  | None => Raise IndexError
  end.

Fixpoint range_from (n : nat) (start step : Z) : list Z :=
  match n with
  | O => []
  | S n' => start :: range_from n' (start + step) step
  end.

Definition range_len (start stop step : Z) : nat :=
  if 0 <? step then Z.to_nat ((stop - start + step - 1) / step)
  else Z.to_nat ((start - stop - step - 1) / (- step)).

(** [range(start, stop, step)]; a zero step raises [ValueError]. *)
Definition range (start stop step : Z) : res (list Z) :=
  if step =? 0 then Raise ValueError
  else Ok (range_from (range_len start stop step) start step).

(** ** Objects and the store *)

(** A grid square, and an element of a capture list, is the integer [0] or a
    reference to a [Piece] object. *)
Inductive obj := Zero | Ref (id : nat).

Global Instance obj_eq_dec : EqDecision obj.
Proof. solve_decision. Defined.

(** ** Drawing

    A call on the window is recorded, in the order the calls are made. *)

Abbreviation rgb := (Z * Z * Z)%type.

Definition BLACK : rgb := (0, 0, 0).
Definition BLUE : rgb := (0, 0, 255).
Definition GREY : rgb := (128, 128, 128).

(** The constants [RED] and [WHITE] as the triples they are. *)
Definition rgb_of (c : Color) : rgb :=
  match c with RED => (255, 0, 0) | WHITE => (255, 255, 255) end.

Inductive draw_call :=
| Fill (c : rgb)
| DrawRect (c : rgb) (x y w h : Z)
| DrawCircle (c : rgb) (cx cy radius : Z)
| Blit (x y : Z).

Module Piece.

Definition PADDING : Z := 15.
Definition OUTLINE : Z := 2.

Record t := mk {
  row : Z;
  col : Z;
  color : Color;
  king : bool;
  x : Z;
  y : Z
}.

Definition calc_pos (p : t) : t :=
  {| row := row p; col := col p; color := color p; king := king p;
     x := SQUARE_SIZE * col p + SQUARE_SIZE / 2;
     y := SQUARE_SIZE * row p + SQUARE_SIZE / 2 |}.

Definition __init__ (row col : Z) (color : Color) : t :=
  calc_pos {| row := row; col := col; color := color; king := false; x := 0; y := 0 |}.

Definition make_king (p : t) : t :=
  {| row := row p; col := col p; color := color p; king := true; x := x p; y := y p |}.

Definition move (p : t) (row' col' : Z) : t :=
  calc_pos {| row := row'; col := col'; color := color p; king := king p; x := x p; y := y p |}.

(** [Piece.draw] (lines 65-74).  [crown] is the constant [CROWN]: the width
    and height of the image when it was loaded, [None] when it was not. *)
Definition draw (crown : option (Z * Z)) (p : t) : list draw_call :=
  let radius := SQUARE_SIZE / 2 - PADDING in
  [DrawCircle GREY (x p) (y p) (radius + OUTLINE);
   DrawCircle (rgb_of (color p)) (x p) (y p) radius]
  ++ (if king p then
        match crown with
        | Some (width, height) => [Blit (x p - width / 2) (y p - height / 2)]
        | None => [DrawCircle BLUE (x p) (y p) (radius / 2)]
        end
      else []).

End Piece.

(** The store of [Piece] objects; a reference is the position of the object
    in allocation order. *)
Abbreviation Heap := (list Piece.t).

Definition alloc (h : Heap) (p : Piece.t) : Heap * nat := (h ++ [p], length h).

(** Reading an attribute of an object: the integer [0] has none. *)
Definition deref (h : Heap) (o : obj) : res Piece.t :=
  match o with
  | Zero => Raise AttributeError
  | Ref id => match h !! id with Some p => Ok p | None => Raise AttributeError end
  end.

(** The result of the move generator: a [dict] from [(row, col)] to the list
    of captured pieces. *)
Abbreviation Moves := (gmap (Z * Z) (list obj)).

(** [d.update(other)]: the entries of [other] win. *)
Definition update (d other : Moves) : Moves := other ∪ d.

Definition truthy {A} (l : list A) : bool :=
  match l with [] => false | _ => true end.

(** ** The recursive traversal

    [Board._traverse_left], [Board._traverse_right] and
    [Board.get_valid_moves] read the grid only through the expression
    [self.board[r][c]] and never write it.  They are written here over that
    expression, [lookup], and instantiated with the grid of a board in
    [Module Board].  The recursion is on [fuel]: Python recurses freely, and
    the theorems below show how much fuel is enough. *)

Section Traverse.

(** [lookup r c] is the expression [self.board[r][c]]. *)
Variable lookup : Z → Z → res obj.
Variable h : Heap.

Section Loops.
(** The two recursive calls made inside the loop body. *)
Variables rec_left rec_right :
  Z → Z → Z → Color → Z → list obj → res Moves.
Variables (step : Z) (color : Color) (skipped : list obj).

(** The block run on an empty square (lines 195-210 and 229-244): the
    same text in both helpers up to the name of the column variable. *)
Definition on_empty (r c : Z) (last : list obj) (moves : Moves) : res Moves :=
  if truthy skipped && negb (truthy last) then Ok moves
  else
    let moves :=
      if truthy skipped then <[(r, c) := last ++ skipped]> moves
      else <[(r, c) := last]> moves in
    if truthy last then
      let row := if step =? -1 then Z.max (r - 3) (-1) else Z.min (r + 3) ROWS in
      m1 ← rec_left (r + step) row step color (c - 1) last;
      let moves := update moves m1 in
      m2 ← rec_right (r + step) row step color (c + 1) last;
      Ok (update moves m2)
    else Ok moves.

(** The loop of [_traverse_left] (lines 190-216). *)
Fixpoint left_loop (rs : list Z) (left : Z) (last : list obj) (moves : Moves)
  : res Moves :=
  match rs with
  | [] => Ok moves
  | r :: rs' =>
    if left <? 0 then Ok moves
    else
      current ← lookup r left;
      if bool_decide (current = Zero) then on_empty r left last moves
      else
        p ← deref h current;
        if color_eqb (Piece.color p) color then Ok moves
        else left_loop rs' (left - 1) [current] moves
  end.

(** The loop of [_traverse_right] (lines 224-250). *)
Fixpoint right_loop (rs : list Z) (right : Z) (last : list obj) (moves : Moves)
  : res Moves :=
  match rs with
  | [] => Ok moves
  | r :: rs' =>
    if COLS <=? right then Ok moves
    else
      current ← lookup r right;
      if bool_decide (current = Zero) then on_empty r right last moves
      else
        p ← deref h current;
        if color_eqb (Piece.color p) color then Ok moves
        else right_loop rs' (right + 1) [current] moves
  end.
End Loops.

(** [_traverse_left] and [_traverse_right] (lines 186-252). *)
Fixpoint traverse_left (fuel : nat) (start stop step : Z) (color : Color)
    (left : Z) (skipped : list obj) {struct fuel} : res Moves :=
  match fuel with
  | O => OutOfFuel
  | S fuel' =>
    rs ← range start stop step;
    left_loop (traverse_left fuel') (traverse_right fuel')
              step color skipped rs left [] ∅
  end
with traverse_right (fuel : nat) (start stop step : Z) (color : Color)
    (right : Z) (skipped : list obj) {struct fuel} : res Moves :=
  match fuel with
  | O => OutOfFuel
  | S fuel' =>
    rs ← range start stop step;
    right_loop (traverse_left fuel') (traverse_right fuel')
               step color skipped rs right [] ∅
  end.

(** [get_valid_moves] (lines 169-184). *)
Definition valid_moves_of (fuel : nat) (piece : obj) : res Moves :=
  p ← deref h piece;
  let moves : Moves := ∅ in
  let left := Piece.col p - 1 in
  let right := Piece.col p + 1 in
  let row := Piece.row p in
  moves ←
    (if color_eqb (Piece.color p) RED || Piece.king p then
       m1 ← traverse_left fuel (row - 1) (Z.max (row - 3) (-1)) (-1) (Piece.color p) left [];
       let moves := update moves m1 in
       m2 ← traverse_right fuel (row - 1) (Z.max (row - 3) (-1)) (-1) (Piece.color p) right [];
       Ok (update moves m2)
     else Ok moves);
  if color_eqb (Piece.color p) WHITE || Piece.king p then
    m1 ← traverse_left fuel (row + 1) (Z.min (row + 3) ROWS) 1 (Piece.color p) left [];
    let moves := update moves m1 in
    m2 ← traverse_right fuel (row + 1) (Z.min (row + 3) ROWS) 1 (Piece.color p) right [];
    Ok (update moves m2)
  else Ok moves.

End Traverse.

(** A monadic [for] loop over a list, threading the loop state. *)
Fixpoint for_each {S A} (l : list A) (body : A → S → res S) (s : S) : res S :=
  match l with
  | [] => Ok s
  | a :: l' => s' ← body a s; for_each l' body s'
  end.

(** ** The [Board] class *)

Module Board.

Record t := mk {
  board : list (list obj);
  red_left : Z;
  white_left : Z;
  red_kings : Z;
  white_kings : Z
}.

(** [grid[r][c]] *)
Definition item (grid : list (list obj)) (r c : Z) : res obj :=
  line ← getitem grid r; getitem line c.

(** [grid[r][c] = v] *)
Definition set_item (grid : list (list obj)) (r c : Z) (v : obj)
  : res (list (list obj)) :=
  line ← getitem grid r;
  line' ← setitem line c v;
  setitem grid r line'.

Definition with_board (b : t) (grid : list (list obj)) : t :=
  {| board := grid; red_left := red_left b; white_left := white_left b;
     red_kings := red_kings b; white_kings := white_kings b |}.

(** [Board.move] (lines 109-120): the swap of the two squares, [piece.move],
    then the promotion test. *)
Definition move (h : Heap) (b : t) (piece : obj) (row col : Z) : res (Heap * t) :=
  (* the right-hand side of the swap, then the two targets in order *)
  there ← item (board b) row col;
  p ← deref h piece;
  here ← item (board b) (Piece.row p) (Piece.col p);
  grid ← set_item (board b) (Piece.row p) (Piece.col p) there;
  grid ← set_item grid row col here;
  let b := with_board b grid in
  match piece with
  | Zero => Raise AttributeError
  | Ref id =>
    let p := Piece.move p row col in
    let h := <[id := p]> h in
    if (row =? ROWS - 1) || (row =? 0) then
      if negb (Piece.king p) then
        let h := <[id := Piece.make_king p]> h in
        if color_eqb (Piece.color p) WHITE then
          Ok (h, {| board := board b; red_left := red_left b; white_left := white_left b;
                    red_kings := red_kings b; white_kings := white_kings b + 1 |})
        else
          Ok (h, {| board := board b; red_left := red_left b; white_left := white_left b;
                    red_kings := red_kings b + 1; white_kings := white_kings b |})
      else Ok (h, b)
    else Ok (h, b)
  end.

(** [Board.get_piece] (lines 122-124). *)
Definition get_piece (b : t) (row col : Z) : res obj := item (board b) row col.

(** [grid[row].append(v)] *)
Definition append_to (grid : list (list obj)) (row : Z) (v : obj)
  : res (list (list obj)) :=
  line ← getitem grid row; setitem grid row (line ++ [v]).

(** [Board.create_board] (lines 126-139); every [Piece(...)] allocates. *)
Definition create_board (h : Heap) (grid : list (list obj))
  : res (Heap * list (list obj)) :=
  rows ← range 0 ROWS 1;
  cols ← range 0 COLS 1;
  for_each rows (λ row '(h, grid),
    let grid := grid ++ [[]] in
    for_each cols (λ col '(h, grid),
      if col `mod` 2 =? (row + 1) `mod` 2 then
        if row <? 3 then
          let '(h, id) := alloc h (Piece.__init__ row col WHITE) in
          grid ← append_to grid row (Ref id); Ok (h, grid)
        else if 4 <? row then
          let '(h, id) := alloc h (Piece.__init__ row col RED) in
          grid ← append_to grid row (Ref id); Ok (h, grid)
        else grid ← append_to grid row Zero; Ok (h, grid)
      else grid ← append_to grid row Zero; Ok (h, grid)) (h, grid)) (h, grid).

(** [Board.__init__] (lines 96-100). *)
Definition __init__ (h : Heap) : res (Heap * t) :=
  '(h, grid) ← create_board h [];
  Ok (h, {| board := grid; red_left := 12; white_left := 12;
            red_kings := 0; white_kings := 0 |}).

(** [Board.remove] (lines 150-158): [remove_one] is the body of its loop.
    The square is written before the test [piece != 0] is made. *)
Definition remove_one (h : Heap) (piece : obj) (b : t) : res t :=
  p ← deref h piece;
  grid ← set_item (board b) (Piece.row p) (Piece.col p) Zero;
  let b := with_board b grid in
  if bool_decide (piece ≠ Zero) then
    if color_eqb (Piece.color p) RED then
      Ok {| board := board b; red_left := red_left b - 1; white_left := white_left b;
            red_kings := red_kings b; white_kings := white_kings b |}
    else
      Ok {| board := board b; red_left := red_left b; white_left := white_left b - 1;
            red_kings := red_kings b; white_kings := white_kings b |}
  else Ok b.

Definition remove (h : Heap) (b : t) (pieces : list obj) : res t :=
  for_each pieces (remove_one h) b.

(** [Board.winner] (lines 160-167). *)
Definition winner (b : t) : option Color :=
  if red_left b <=? 0 then Some WHITE
  else if white_left b <=? 0 then Some RED
  else None.

(** The traversal and the generator on the grid of the board (lines
    169-252). *)
Definition _traverse_left (fuel : nat) (h : Heap) (b : t) :=
  traverse_left (item (board b)) h fuel.
Definition _traverse_right (fuel : nat) (h : Heap) (b : t) :=
  traverse_right (item (board b)) h fuel.
Definition get_valid_moves (fuel : nat) (h : Heap) (b : t) (piece : obj) : res Moves :=
  valid_moves_of (item (board b)) h fuel piece.

(** [Board.draw_squares] (lines 102-107). *)
Definition draw_squares : res (list draw_call) :=
  rows ← range 0 ROWS 1;
  for_each rows (λ row calls,
    cols ← range (row `mod` 2) COLS 2;
    for_each cols (λ col calls,
      Ok (calls ++ [DrawRect (rgb_of RED) (row * SQUARE_SIZE) (col * SQUARE_SIZE)
                             SQUARE_SIZE SQUARE_SIZE])) calls) [Fill BLACK].

(** [Board.draw] (lines 141-148). *)
Definition draw (crown : option (Z * Z)) (h : Heap) (b : t) : res (list draw_call) :=
  calls ← draw_squares;
  rows ← range 0 ROWS 1;
  cols ← range 0 COLS 1;
  for_each rows (λ row calls,
    for_each cols (λ col calls,
      piece ← item (board b) row col;
      if bool_decide (piece ≠ Zero) then
        p ← deref h piece; Ok (calls ++ Piece.draw crown p)
      else Ok calls) calls) calls.

End Board.

(** ** The [Game] controller *)

Module Game.

Record t := mk {
  selected : option obj;
  board : Board.t;
  turn : Color;
  valid_moves : Moves
}.

(** [Game._init] (lines 273-278). *)
Definition _init (h : Heap) : res (Heap * t) :=
  '(h, b) ← Board.__init__ h;
  Ok (h, {| selected := None; board := b; turn := RED; valid_moves := ∅ |}).

Definition winner (g : t) : option Color := Board.winner (board g).

(** [Game.reset] (lines 284-286). *)
Definition reset (h : Heap) : res (Heap * t) := _init h.

(** [Game.change_turn] (lines 322-328). *)
Definition change_turn (g : t) : t :=
  {| selected := selected g; board := board g;
     turn := if color_eqb (turn g) RED then WHITE else RED;
     valid_moves := ∅ |}.

(** [Game._move] (lines 304-314). *)
Definition _move (h : Heap) (g : t) (row col : Z) : res (Heap * t * bool) :=
  match selected g, valid_moves g !! (row, col) with
  | Some sel, Some skipped =>
    s ← deref h sel;
    piece_to_move ← Board.get_piece (board g) (Piece.row s) (Piece.col s);
    '(h, b) ← Board.move h (board g) piece_to_move row col;
    b ← (if truthy skipped then Board.remove h b skipped else Ok b);
    let g := {| selected := selected g; board := b; turn := turn g;
                valid_moves := valid_moves g |} in
    Ok (h, change_turn g, true)
  | _, _ => Ok (h, g, false)
  end.

(** The second half of [Game.select] (lines 296-302): the clicked square
    as a selection. *)
Definition select_here (fuel : nat) (h : Heap) (g : t) (row col : Z)
  : res (Heap * t * bool) :=
  piece ← Board.get_piece (board g) row col;
  match piece with
  | Zero => Ok (h, g, false)
  | Ref _ =>
    p ← deref h piece;
    if color_eqb (Piece.color p) (turn g) then
      moves ← Board.get_valid_moves fuel h (board g) piece;
      Ok (h, {| selected := Some piece; board := board g; turn := turn g;
                valid_moves := moves |}, true)
    else Ok (h, g, false)
  end.

(** [Game.select] (lines 288-302); it calls itself once, after a failed
    move, and the value of that call is dropped. *)
Fixpoint select (fuel : nat) (h : Heap) (g : t) (row col : Z)
  : res (Heap * t * bool) :=
  match fuel with
  | O => OutOfFuel
  | S fuel' =>
    '(h, g) ←
      match selected g with
      | Some _ =>
        '(h, g, result) ← _move h g row col;
        if negb result then
          let g := {| selected := None; board := board g; turn := turn g;
                      valid_moves := valid_moves g |} in
          '(h, g, _) ← select fuel' h g row col;
          Ok (h, g)
        else Ok (h, g)
      | None => Ok (h, g)
      end;
    select_here fuel' h g row col
  end.

(** [Game.draw_valid_moves] (lines 316-320); [moves] is the sequence of
    keys that the loop over the [dict] goes through. *)
Definition draw_valid_moves (moves : list (Z * Z)) : list draw_call :=
  flat_map (λ '(row, col),
              [DrawCircle BLUE (col * SQUARE_SIZE + SQUARE_SIZE / 2)
                               (row * SQUARE_SIZE + SQUARE_SIZE / 2) 15]) moves.

End Game.

(** [get_row_col_from_mouse] (lines 340-345). *)
Definition get_row_col_from_mouse (pos : Z * Z) : Z * Z :=
  let '(x, y) := pos in
  let row := y / SQUARE_SIZE in
  let col := x / SQUARE_SIZE in
  (row, col).

(** ** Predicates used in the statements *)

(** A square of the 8x8 board. *)
Definition in_board (r c : Z) : Prop := (0 ≤ r < ROWS) ∧ (0 ≤ c < COLS).

(** A dark (playable) square. *)
Definition dark (r c : Z) : Prop := (r + c) `mod` 2 = 1.

(** The grid has eight rows of eight squares. *)
Definition shape (grid : list (list obj)) : Prop :=
  length grid = 8%nat ∧ Forall (λ line, length line = 8%nat) grid.

(** Every reference held by the grid is to an object of the store. *)
Definition no_dangling (h : Heap) (grid : list (list obj)) : Prop :=
  ∀ r c id, in_board r c → Board.item grid r c = Ok (Ref id) → is_Some (h !! id).

Definition valid_board (h : Heap) (b : Board.t) : Prop :=
  shape (Board.board b) ∧ no_dangling h (Board.board b).

(** A piece on the grid knows where it is. *)
Definition consistent (h : Heap) (grid : list (list obj)) : Prop :=
  ∀ r c id, in_board r c → Board.item grid r c = Ok (Ref id) →
    ∃ p, h !! id = Some p ∧ Piece.row p = r ∧ Piece.col p = c.

(** Pieces stand on dark squares only. *)
Definition all_dark (grid : list (list obj)) : Prop :=
  ∀ r c id, in_board r c → Board.item grid r c = Ok (Ref id) → dark r c.

(** The piece [p] after [Board.move] has taken it to [(row, col)]. *)
Definition moved (p : Piece.t) (row col : Z) : Piece.t :=
  let p := Piece.move p row col in
  if ((row =? ROWS - 1) || (row =? 0)) && negb (Piece.king p)
  then Piece.make_king p else p.

(** A reference to a piece whose coordinates are a square of the board. *)
Definition placed (h : Heap) (x : obj) : Prop :=
  ∃ id p, x = Ref id ∧ h !! id = Some p ∧ in_board (Piece.row p) (Piece.col p).

(** How many pieces of a color a capture list holds. *)
Fixpoint count_color (h : Heap) (c : Color) (pieces : list obj) : Z :=
  match pieces with
  | [] => 0
  | x :: pieces' =>
    (match deref h x with
     | Ok p => if color_eqb (Piece.color p) c then 1 else 0
     | _ => 0
     end) + count_color h c pieces'
  end.

(** The row a non-king piece of the given color travels to. *)
Definition farthest_row (c : Color) : Z :=
  match c with WHITE => ROWS - 1 | RED => 0 end.

Definition other (c : Color) : Color :=
  match c with RED => WHITE | WHITE => RED end.

(** The accessor that refuses every index outside rows 0..7 and columns
    0..7, where Python would wrap a negative one around. *)
Definition strict_item (grid : list (list obj)) (r c : Z) : res obj :=
  if bool_decide (in_board r c) then Board.item grid r c else Raise IndexError.

Section Captured.
Variable lookup : Z → Z → res obj.
Variable h : Heap.

(** An element of a capture list: a piece of the other color read from
    a square of the board. *)
Definition captured_ok (color : Color) (x : obj) : Prop :=
  ∃ id r c p, x = Ref id ∧ in_board r c ∧ lookup r c = Ok (Ref id)
              ∧ h !! id = Some p ∧ Piece.color p ≠ color.

(** An entry of the mapping returned by a traversal started at row
    [start] and column [c0] with step [step]. *)
Definition entry_ok (color : Color) (step start c0 : Z) (k : Z * Z) (v : list obj)
  : Prop :=
  in_board k.1 k.2 ∧ lookup k.1 k.2 = Ok Zero
  ∧ (k.1 + k.2) `mod` 2 = (start + c0) `mod` 2
  ∧ 0 ≤ step * (k.1 - start)
  ∧ Forall (captured_ok color) v.
End Captured.

(** An entry of the mapping offered to the piece [p]: an empty square of
    the board of the same shade as the square of [p], ahead of [p] when [p]
    is not a king, with pieces of the other color as captures. *)
Definition offered_ok (lookup : Z → Z → res obj) (h : Heap) (p : Piece.t)
    (k : Z * Z) (v : list obj) : Prop :=
  in_board k.1 k.2 ∧ lookup k.1 k.2 = Ok Zero
  ∧ (k.1 + k.2) `mod` 2 = (Piece.row p + Piece.col p) `mod` 2
  ∧ (Piece.king p = false →
     match Piece.color p with
     | WHITE => Piece.row p < k.1
     | RED => k.1 < Piece.row p
     end)
  ∧ Forall (captured_ok lookup h (Piece.color p)) v.

(** The arguments of a traversal call made by the program. *)
Definition call_ok (start stop step : Z) : Prop :=
  (step = 1 ∧ 0 ≤ start ∧ stop ≤ ROWS) ∨ (step = -1 ∧ start ≤ ROWS - 1 ∧ -1 ≤ stop).

(** The rows [r], [r + step], ... visited by a loop of [n] rounds stay on
    the board. *)
Definition rows_ok (step : Z) (n : nat) (r : Z) : Prop :=
  n ≠ O →
  (step = 1 → 0 ≤ r ∧ r + Z.of_nat n ≤ ROWS)
  ∧ (step = -1 → r ≤ ROWS - 1 ∧ -1 ≤ r - Z.of_nat n).

(** Rows left in the direction of travel: the depth of the recursion. *)
Definition rows_left (start step : Z) : nat :=
  if step =? 1 then Z.to_nat (ROWS - start) else Z.to_nat (start + 1).

(** [r1] is refined by [r2]: a result of the first is a result of the second. *)
Definition res_le {A} (r1 r2 : res A) : Prop := ∀ a, r1 = Ok a → r2 = Ok a.

(** The double-jump position: a [WHITE] piece at (2,1), [RED] pieces at (3,2)
    and (5,4), every other square empty. *)
Definition empty_line : list obj := replicate 8 Zero.

Definition double_jump_heap : Heap :=
  [Piece.__init__ 2 1 WHITE; Piece.__init__ 3 2 RED; Piece.__init__ 5 4 RED].

Definition double_jump_board : Board.t :=
  {| Board.board :=
       [empty_line; empty_line; <[1%nat := Ref 0]> empty_line;
        <[2%nat := Ref 1]> empty_line; empty_line; <[4%nat := Ref 2]> empty_line;
        empty_line; empty_line];
     Board.red_left := 2; Board.white_left := 1;
     Board.red_kings := 0; Board.white_kings := 0 |}.

(** A lone [WHITE] piece at (1,0), one row from the row it started from. *)
Definition retreat_heap : Heap := [Piece.__init__ 1 0 WHITE].

Definition retreat_board : Board.t :=
  {| Board.board :=
       [empty_line; <[0%nat := Ref 0]> empty_line; empty_line; empty_line;
        empty_line; empty_line; empty_line; empty_line];
     Board.red_left := 0; Board.white_left := 1;
     Board.red_kings := 0; Board.white_kings := 0 |}.

(** ... and the store and board after [Board.move] has taken it to (0,1). *)
Definition retreat_result : Heap * Board.t :=
  Eval vm_compute in
    match Board.move retreat_heap retreat_board (Ref 0) 0 1 with
    | Ok r => r
    | _ => (retreat_heap, retreat_board)
    end.

(** The state of a new game: twenty-four pieces, [RED] to move. *)
Definition initial : Heap * Game.t :=
  Eval vm_compute in
    match Game._init [] with
    | Ok s => s
    | _ => ([], {| Game.selected := None;
                   Game.board := {| Board.board := []; Board.red_left := 0;
                                    Board.white_left := 0; Board.red_kings := 0;
                                    Board.white_kings := 0 |};
                   Game.turn := RED; Game.valid_moves := ∅ |})
    end.

(** The new game after a click on the [RED] piece at (5,0). *)
Definition first_click : Heap * Game.t :=
  Eval vm_compute in
    match Game.select 10 initial.1 initial.2 5 0 with
    | Ok (h, g, _) => (h, g)
    | _ => initial
    end.

(** ... and after a second click, on the square (4,1) offered to it. *)
Definition second_click : Heap * Game.t :=
  Eval vm_compute in
    match Game.select 10 first_click.1 first_click.2 4 1 with
    | Ok (h, g, _) => (h, g)
    | _ => initial
    end.

(** A lone [RED] piece at (1,2), one row from the row it travels to. *)
Definition arrival_heap : Heap := [Piece.__init__ 1 2 RED].

Definition arrival_board : Board.t :=
  {| Board.board :=
       [empty_line; <[2%nat := Ref 0]> empty_line; empty_line; empty_line;
        empty_line; empty_line; empty_line; empty_line];
     Board.red_left := 1; Board.white_left := 0;
     Board.red_kings := 0; Board.white_kings := 0 |}.

(** The selection is cleared and nothing else changes. *)
Definition deselect (g : Game.t) : Game.t :=
  {| Game.selected := None; Game.board := Game.board g;
     Game.turn := Game.turn g; Game.valid_moves := Game.valid_moves g |}.

(** States of a game played through [Game.select]. *)
Inductive reachable : Heap → Game.t → Prop :=
| reach_init h g :
    Game._init [] = Ok (h, g) → reachable h g
| reach_select fuel h g row col h' g' b :
    reachable h g → Game.select fuel h g row col = Ok (h', g', b) →
    reachable h' g'.

(** The invariant of the reachable states. *)
Record Inv (h : Heap) (g : Game.t) : Prop := {
  inv_shape : shape (Board.board (Game.board g));
  inv_consistent : consistent h (Board.board (Game.board g));
  inv_dark : all_dark (Board.board (Game.board g));
  inv_moves : ∀ sel k v,
    Game.selected g = Some sel → Game.valid_moves g !! k = Some v →
    ∃ id p, sel = Ref id ∧ h !! id = Some p
      ∧ in_board (Piece.row p) (Piece.col p)
      ∧ Board.item (Board.board (Game.board g)) (Piece.row p) (Piece.col p) = Ok (Ref id)
      ∧ Piece.color p = Game.turn g
      ∧ in_board k.1 k.2 ∧ dark k.1 k.2
      ∧ Board.item (Board.board (Game.board g)) k.1 k.2 = Ok Zero
      ∧ Forall (captured_ok (Board.item (Board.board (Game.board g))) h (Game.turn g)) v
}.

(** ** Predicates of the further properties *)

(** [x] is a piece that the grid holds on the square (r, c) of the board. *)
Definition read_sq (lookup : Z → Z → res obj) (r c : Z) (x : obj) : Prop :=
  ∃ id, x = Ref id ∧ in_board r c ∧ lookup r c = Ok (Ref id).

(** The three kinds of entry of the mapping returned by a traversal that
    starts on the square (start, c0) and walks the columns in direction [d]:
    a simple step, a jump over the piece on the first square, and the
    entries of the traversals started from the landing square of a jump. *)
Definition entry_geom (lookup : Z → Z → res obj) (step d start c0 : Z)
    (skipped : list obj) (k : Z * Z) (v : list obj) : Prop :=
  (v = [] ∧ skipped = [] ∧ k = (start, c0))
  ∨ (∃ x, v = x :: skipped ∧ k = (start + step, c0 + d) ∧ read_sq lookup start c0 x)
  ∨ (∃ x y d' e, v = [x; y] ∧ (d' = 1 ∨ d' = -1) ∧ (e = 1 ∨ e = -1)
       ∧ read_sq lookup (k.1 - step) (k.2 - d') x
       ∧ read_sq lookup (k.1 - 3 * step) (k.2 - 2 * d' - e) y
       ∧ 3 ≤ step * (k.1 - start)).

(** A traversal call made by the program looks at two rows at most. *)
Definition call_short (start stop step : Z) : Prop :=
  call_ok start stop step ∧ step * (stop - start) ≤ 2.

(** How many pieces of a color the grid holds. *)
Fixpoint grid_count (h : Heap) (c : Color) (grid : list (list obj)) : Z :=
  match grid with
  | [] => 0
  | line :: grid' => count_color h c line + grid_count h c grid'
  end.

(** How many kings of a color the store holds, on the grid or captured. *)
Fixpoint kings_count (h : Heap) (c : Color) : Z :=
  match h with
  | [] => 0
  | p :: h' =>
    (if color_eqb (Piece.color p) c && Piece.king p then 1 else 0) + kings_count h' c
  end.

(** Where a piece is painted: the centre of its square. *)
Definition centred (p : Piece.t) : Prop :=
  Piece.x p = SQUARE_SIZE * Piece.col p + SQUARE_SIZE / 2
  ∧ Piece.y p = SQUARE_SIZE * Piece.row p + SQUARE_SIZE / 2.

(** More of what the states of a game keep. *)
Record Inv2 (h : Heap) (g : Game.t) : Prop := {
  inv_red : Board.red_left (Game.board g)
            = grid_count h RED (Board.board (Game.board g));
  inv_white : Board.white_left (Game.board g)
              = grid_count h WHITE (Board.board (Game.board g));
  inv_nodup : ∀ sel k v,
    Game.selected g = Some sel → Game.valid_moves g !! k = Some v → NoDup v;
  inv_store : ∀ id p, h !! id = Some p →
    in_board (Piece.row p) (Piece.col p) ∧ centred p
    ∧ (Piece.row p = farthest_row (Piece.color p) → Piece.king p = true);
  inv_red_kings : Board.red_kings (Game.board g) = kings_count h RED;
  inv_white_kings : Board.white_kings (Game.board g) = kings_count h WHITE;
  inv_store_size : length h = 24%nat
}.

(** ** States, drawings and predicates of the properties of the game *)

(** The grid holds a piece of the color [c]. *)
Definition has_piece (h : Heap) (grid : list (list obj)) (c : Color) : Prop :=
  ∃ r c' id p, in_board r c' ∧ Board.item grid r c' = Ok (Ref id)
               ∧ h !! id = Some p ∧ Piece.color p = c.

(** One click of a game: the state after [select], the state as it was when
    the call does not return. *)
Definition click (s : Heap * Game.t) (sq : Z * Z) : Heap * Game.t :=
  match Game.select 10 s.1 s.2 sq.1 sq.2 with
  | Ok (h, g, _) => (h, g)
  | _ => s
  end.

(** Seven moves of a game, as fourteen clicks: the last one is the double
    jump of a [RED] piece from (4,3) to (0,7). *)
Definition crowning_clicks : list (Z * Z) :=
  [(5, 6); (4, 7); (2, 5); (3, 6); (4, 7); (2, 5); (1, 6); (3, 4);
   (5, 4); (4, 3); (0, 7); (1, 6); (4, 3); (0, 7)].

(** The state of the game after these clicks. *)
Definition crowned : Heap * Game.t :=
  Eval vm_compute in foldl click initial crowning_clicks.

(** States that follow a state in a game. *)
Inductive later (h : Heap) (g : Game.t) : Heap → Game.t → Prop :=
| later_now : later h g h g
| later_select fuel h1 g1 row col h2 g2 b :
    later h g h1 g1 → Game.select fuel h1 g1 row col = Ok (h2, g2, b) →
    later h g h2 g2.

(** What a state keeps of an earlier one. *)
Definition keeps (h : Heap) (b : Board.t) (h' : Heap) (b' : Board.t) : Prop :=
  (∀ id p, h !! id = Some p →
     ∃ p', h' !! id = Some p' ∧ Piece.color p' = Piece.color p
           ∧ (Piece.king p = true → Piece.king p' = true))
  ∧ Board.red_left b' ≤ Board.red_left b
  ∧ Board.white_left b' ≤ Board.white_left b
  ∧ Board.red_kings b ≤ Board.red_kings b'
  ∧ Board.white_kings b ≤ Board.white_kings b'.

(** The pixel (x, y) is inside a rectangle that the calls paint [RED]. *)
Definition painted_red (calls : list draw_call) (x y : Z) : Prop :=
  ∃ x0 y0 w h, DrawRect (rgb_of RED) x0 y0 w h ∈ calls
               ∧ x0 ≤ x < x0 + w ∧ y0 ≤ y < y0 + h.

(** The pixels of the disc that [Piece.draw] paints for a piece, taken
    from the centre of the disc. *)
Definition in_disc (dx dy : Z) : Prop :=
  dx * dx + dy * dy
  ≤ (SQUARE_SIZE / 2 - Piece.PADDING + Piece.OUTLINE)
    * (SQUARE_SIZE / 2 - Piece.PADDING + Piece.OUTLINE).

(** The offered squares are empty dark squares of the board. *)
Definition dots_ok (g : Game.t) : Prop :=
  ∀ k v, Game.valid_moves g !! k = Some v →
    in_board k.1 k.2 ∧ dark k.1 k.2
    ∧ Board.item (Board.board (Game.board g)) k.1 k.2 = Ok Zero.

(** The pieces that a line of the grid holds, in the order of the line. *)
Definition pieces_of (h : Heap) (line : list obj) : list Piece.t :=
  flat_map (λ o, match o with
                 | Ref id => match h !! id with Some p => [p] | None => [] end
                 | Zero => []
                 end) line.

(** ... and those of the grid, row by row. *)
Definition grid_pieces (h : Heap) (grid : list (list obj)) : list Piece.t :=
  flat_map (pieces_of h) grid.

(** A reference of the new game, in a store that held [n] objects before. *)
Definition shift (n : nat) (o : obj) : obj :=
  match o with Zero => Zero | Ref id => Ref (n + id) end.

(** * Lemmas *)

Ltac zmod := unfold ROWS, COLS in *; Z.div_mod_to_equations; lia.

(** ** Lists, ranges and the grid *)

Lemma norm_index_in_range len i :
  0 ≤ i < Z.of_nat len → norm_index len i = Some (Z.to_nat i).
Proof.
  intros Hi. unfold norm_index.
  destruct (0 <=? i) eqn:E1; [|lia].
  destruct (i <? Z.of_nat len) eqn:E2; [done|lia].
Qed.

Lemma norm_index_Some len i n :
  norm_index len i = Some n → (n < len)%nat.
Proof.
  unfold norm_index.
  destruct ((0 <=? i) && (i <? Z.of_nat len)) eqn:E1.
  { intros [= <-]. lia. }
  destruct ((- Z.of_nat len <=? i) && (i <? 0)) eqn:E2; [|done].
  intros [= <-]. lia.
Qed.

Lemma getitem_Ok {A} (l : list A) i a :
  getitem l i = Ok a → ∃ n, norm_index (length l) i = Some n ∧ l !! n = Some a.
Proof.
  unfold getitem. destruct (norm_index (length l) i) as [n|]; [|done].
  destruct (l !! n) eqn:E; [|done]. intros [= <-]. eauto.
Qed.

Lemma getitem_in_range {A} (l : list A) i :
  0 ≤ i < Z.of_nat (length l) → getitem l i = match l !! Z.to_nat i with
                                     | Some a => Ok a | None => Raise IndexError end.
Proof. intros Hi. unfold getitem. by rewrite norm_index_in_range. Qed.

Lemma setitem_in_range {A} (l : list A) i a :
  0 ≤ i < Z.of_nat (length l) → setitem l i a = Ok (<[Z.to_nat i := a]> l).
Proof. intros Hi. unfold setitem. by rewrite norm_index_in_range. Qed.

Lemma bind_Ok {A B} (m : res A) (f : A → res B) b :
  (m ≫= f) = Ok b → ∃ a, m = Ok a ∧ f a = Ok b.
Proof. destruct m; simpl; [eauto|done..]. Qed.


(** ** The traversal *)

Lemma range_rows_ok start stop step :
  call_ok start stop step →
  ∃ n, range start stop step = Ok (range_from n start step) ∧ rows_ok step n start.
Proof.
  intros Hc. exists (range_len start stop step). split.
  - unfold range. destruct Hc as [(->&_)|(->&_)]; done.
  - unfold rows_ok, range_len, call_ok, ROWS in *.
    destruct Hc as [(->&?&?)|(->&?&?)]; simpl; intros Hn;
      (split; [intros ?|intros ?]; try lia).
    + rewrite Z.div_1_r in *. lia.
    + rewrite Z.div_1_r in *. lia.
Qed.


Lemma update_Forall (P : Z * Z → list obj → Prop) (d o : Moves) :
  map_Forall P d → map_Forall P o → map_Forall P (update d o).
Proof.
  intros Hd Ho k v. unfold update.
  rewrite lookup_union_Some_raw. intros [Hk|[_ Hk]]; eauto.
Qed.

Section TraverseSpec.
Variable lookup : Z → Z → res obj.
Variable h : Heap.
Variable color : Color.

Let entries (step start c0 : Z) (m : Moves) : Prop :=
  map_Forall (entry_ok lookup h color step start c0) m.

Lemma entry_ok_shift step s' c' s0 c0 k v :
  step = 1 ∨ step = -1 →
  (s' + c') `mod` 2 = (s0 + c0) `mod` 2 → 0 ≤ step * (s' - s0) →
  entry_ok lookup h color step s' c' k v → entry_ok lookup h color step s0 c0 k v.
Proof.
  intros Hs Hp Hd (?&?&?&?&?). split_and!; try done; [congruence|].
  destruct Hs; subst; lia.
Qed.

Section Loops.
Variables rec_left rec_right : Z → Z → Z → Color → Z → list obj → res Moves.
Variable step : Z.
Hypothesis Hstep : step = 1 ∨ step = -1.
Hypothesis Hrec_left : ∀ start stop left sk m,
  call_ok start stop step → left ≤ COLS - 1 →
  Forall (captured_ok lookup h color) sk →
  rec_left start stop step color left sk = Ok m → entries step start left m.
Hypothesis Hrec_right : ∀ start stop right sk m,
  call_ok start stop step → 0 ≤ right →
  Forall (captured_ok lookup h color) sk →
  rec_right start stop step color right sk = Ok m → entries step start right m.

Lemma on_empty_spec skipped r c last moves s0 c0 m :
  in_board r c → lookup r c = Ok Zero →
  (r + c) `mod` 2 = (s0 + c0) `mod` 2 → 0 ≤ step * (r - s0) →
  Forall (captured_ok lookup h color) last →
  Forall (captured_ok lookup h color) skipped →
  entries step s0 c0 moves →
  on_empty rec_left rec_right step color skipped r c last moves = Ok m →
  entries step s0 c0 m.
Proof.
  intros Hb Hz Hp Hd Hlast Hsk Hm. unfold on_empty.
  destruct (truthy skipped && negb (truthy last)); [by intros [= <-]|].
  set (moves1 := if truthy skipped then _ else _).
  assert (entries step s0 c0 moves1) as Hm1.
  { subst moves1. destruct (truthy skipped);
      (apply map_Forall_insert_2; [|done]); repeat split; simpl; try done;
      try apply Hb. by apply Forall_app. }
  clearbody moves1.
  destruct (truthy last); [|by intros [= <-]].
  intros (m1 & H1 & H')%bind_Ok. apply bind_Ok in H' as (m2 & H2 & [= <-]).
  assert (call_ok (r + step) (if step =? -1 then Z.max (r - 3) (-1)
                              else Z.min (r + 3) ROWS) step) as Hcall.
  { destruct Hb as [Hr Hc]. unfold call_ok, ROWS in *.
    destruct Hstep; subst; simpl; [left|right]; lia. }
  destruct Hb as [Hr Hc]. unfold ROWS, COLS in *.
  apply Hrec_left in H1; [|done|unfold COLS; lia|done].
  apply Hrec_right in H2; [|done|lia|done].
  apply update_Forall; [apply update_Forall; [done|]|].
  - intros k v Hk. eapply entry_ok_shift; [done| | |by apply H1].
    + destruct Hstep; subst; zmod.
    + destruct Hstep; subst; lia.
  - intros k v Hk. eapply entry_ok_shift; [done| | |by apply H2].
    + destruct Hstep; subst; zmod.
    + destruct Hstep; subst; lia.
Qed.

Lemma left_loop_spec skipped s0 c0 n : ∀ r left last moves m,
  rows_ok step n r → left ≤ COLS - 1 →
  (r + left) `mod` 2 = (s0 + c0) `mod` 2 → 0 ≤ step * (r - s0) →
  Forall (captured_ok lookup h color) last →
  Forall (captured_ok lookup h color) skipped →
  entries step s0 c0 moves →
  left_loop lookup h rec_left rec_right step color skipped
            (range_from n r step) left last moves = Ok m →
  entries step s0 c0 m.
Proof.
  induction n as [|n IH]; intros r left last moves m Hrows Hleft Hp Hd Hlast Hsk Hm;
    simpl.
  { by intros [= <-]. }
  destruct (left <? 0) eqn:Hl; [by intros [= <-]|].
  intros (current & Hcur & H')%bind_Ok.
  assert (in_board r left) as Hb.
  { unfold in_board, rows_ok, ROWS, COLS in *. destruct Hstep; subst; lia. }
  assert (rows_ok step n (r + step)) as Hrows'.
  { unfold rows_ok, ROWS in *. destruct Hstep; subst; lia. }
  case_bool_decide as Hz.
  { subst current. by apply (on_empty_spec skipped r left last moves s0 c0 m). }
  apply bind_Ok in H' as (p & Hp' & H').
  destruct (color_eqb (Piece.color p) color) eqn:Hc; [by injection H' as <-|].
  eapply IH; [done| | | | |done|done|exact H'].
  - lia.
  - destruct Hstep; subst; zmod.
  - destruct Hstep; subst; lia.
  - constructor; [|done]. destruct current as [|id]; [done|].
    simpl in Hp'. destruct (h !! id) eqn:Hh; [|done]. injection Hp' as ->.
    exists id, r, left, p. repeat split; try done; try apply Hb.
    unfold color_eqb in Hc. by apply bool_decide_eq_false in Hc.
Qed.

Lemma right_loop_spec skipped s0 c0 n : ∀ r right last moves m,
  rows_ok step n r → 0 ≤ right →
  (r + right) `mod` 2 = (s0 + c0) `mod` 2 → 0 ≤ step * (r - s0) →
  Forall (captured_ok lookup h color) last →
  Forall (captured_ok lookup h color) skipped →
  entries step s0 c0 moves →
  right_loop lookup h rec_left rec_right step color skipped
             (range_from n r step) right last moves = Ok m →
  entries step s0 c0 m.
Proof.
  induction n as [|n IH]; intros r right last moves m Hrows Hright Hp Hd Hlast Hsk Hm;
    simpl.
  { by intros [= <-]. }
  destruct (COLS <=? right) eqn:Hl; [by intros [= <-]|].
  intros (current & Hcur & H')%bind_Ok.
  assert (in_board r right) as Hb.
  { unfold in_board, rows_ok, ROWS, COLS in *. destruct Hstep; subst; lia. }
  assert (rows_ok step n (r + step)) as Hrows'.
  { unfold rows_ok, ROWS in *. destruct Hstep; subst; lia. }
  case_bool_decide as Hz.
  { subst current. by apply (on_empty_spec skipped r right last moves s0 c0 m). }
  apply bind_Ok in H' as (p & Hp' & H').
  destruct (color_eqb (Piece.color p) color) eqn:Hc; [by injection H' as <-|].
  eapply IH; [done| | | | |done|done|exact H'].
  - lia.
  - destruct Hstep; subst; zmod.
  - destruct Hstep; subst; lia.
  - constructor; [|done]. destruct current as [|id]; [done|].
    simpl in Hp'. destruct (h !! id) eqn:Hh; [|done]. injection Hp' as ->.
    exists id, r, right, p. repeat split; try done; try apply Hb.
    unfold color_eqb in Hc. by apply bool_decide_eq_false in Hc.
Qed.
End Loops.

Lemma traverse_spec fuel :
  (∀ start stop step left sk m,
      call_ok start stop step → left ≤ COLS - 1 →
      Forall (captured_ok lookup h color) sk →
      traverse_left lookup h fuel start stop step color left sk = Ok m →
      entries step start left m)
  ∧ (∀ start stop step right sk m,
      call_ok start stop step → 0 ≤ right →
      Forall (captured_ok lookup h color) sk →
      traverse_right lookup h fuel start stop step color right sk = Ok m →
      entries step start right m).
Proof.
  induction fuel as [|fuel [IHl IHr]]; [by split|].
  split; intros start stop step c sk m Hcall Hc Hsk; simpl;
    destruct (range_rows_ok _ _ _ Hcall) as (n & -> & Hrows); simpl; intros Hrun.
  - eapply (left_loop_spec (traverse_left lookup h fuel) (traverse_right lookup h fuel));
      [| | | | | | | | |by apply map_Forall_empty|exact Hrun]; try done.
    + destruct Hcall as [(->&_)|(->&_)]; auto.
    + intros. by eapply IHl.
    + intros. by eapply IHr.
    + lia.
  - eapply (right_loop_spec (traverse_left lookup h fuel) (traverse_right lookup h fuel));
      [| | | | | | | | |by apply map_Forall_empty|exact Hrun]; try done.
    + destruct Hcall as [(->&_)|(->&_)]; auto.
    + intros. by eapply IHl.
    + intros. by eapply IHr.
    + lia.
Qed.
End TraverseSpec.

Section Refine.
Variables lookup lookup' : Z → Z → res obj.
Variable h : Heap.
Hypothesis Hlookup : ∀ r c, res_le (lookup r c) (lookup' r c).

Section Loops.
Variables rec_left rec_right rec_left' rec_right' :
  Z → Z → Z → Color → Z → list obj → res Moves.
Hypothesis Hleft : ∀ start stop step color left sk,
  res_le (rec_left start stop step color left sk)
         (rec_left' start stop step color left sk).
Hypothesis Hright : ∀ start stop step color right sk,
  res_le (rec_right start stop step color right sk)
         (rec_right' start stop step color right sk).
Variables (step : Z) (color : Color) (skipped : list obj).

Lemma on_empty_refine r c last moves :
  res_le (on_empty rec_left rec_right step color skipped r c last moves)
         (on_empty rec_left' rec_right' step color skipped r c last moves).
Proof.
  intros m. unfold on_empty.
  destruct (truthy skipped && negb (truthy last)); [done|].
  destruct (truthy last); [|done].
  intros (m1 & H1 & H')%bind_Ok. apply bind_Ok in H' as (m2 & H2 & [= <-]).
  apply Hleft in H1. apply Hright in H2. rewrite H1. simpl. by rewrite H2.
Qed.

Lemma left_loop_refine rs : ∀ left last moves,
  res_le (left_loop lookup h rec_left rec_right step color skipped rs left last moves)
         (left_loop lookup' h rec_left' rec_right' step color skipped rs left last moves).
Proof.
  induction rs as [|r rs IH]; intros left last moves m; simpl; [done|].
  destruct (left <? 0); [done|].
  intros (current & Hcur & H')%bind_Ok. apply Hlookup in Hcur. rewrite Hcur. simpl.
  case_bool_decide; [by apply on_empty_refine|].
  apply bind_Ok in H' as (p & -> & H'). simpl.
  destruct (color_eqb (Piece.color p) color); [done|]. by apply IH.
Qed.

Lemma right_loop_refine rs : ∀ right last moves,
  res_le (right_loop lookup h rec_left rec_right step color skipped rs right last moves)
         (right_loop lookup' h rec_left' rec_right' step color skipped rs right last moves).
Proof.
  induction rs as [|r rs IH]; intros right last moves m; simpl; [done|].
  destruct (COLS <=? right); [done|].
  intros (current & Hcur & H')%bind_Ok. apply Hlookup in Hcur. rewrite Hcur. simpl.
  case_bool_decide; [by apply on_empty_refine|].
  apply bind_Ok in H' as (p & -> & H'). simpl.
  destruct (color_eqb (Piece.color p) color); [done|]. by apply IH.
Qed.
End Loops.

Lemma traverse_refine fuel : ∀ fuel', (fuel ≤ fuel')%nat →
  (∀ start stop step color left sk,
      res_le (traverse_left lookup h fuel start stop step color left sk)
             (traverse_left lookup' h fuel' start stop step color left sk))
  ∧ (∀ start stop step color right sk,
      res_le (traverse_right lookup h fuel start stop step color right sk)
             (traverse_right lookup' h fuel' start stop step color right sk)).
Proof.
  induction fuel as [|fuel IH]; intros fuel' Hle; [by split|].
  destruct fuel' as [|fuel']; [lia|].
  destruct (IH fuel') as [IHl IHr]; [lia|].
  split; intros start stop step color c sk m; simpl;
    intros (rs & -> & Hrun)%bind_Ok; simpl.
  - by apply (left_loop_refine _ _ _ _ IHl IHr) in Hrun.
  - by apply (right_loop_refine _ _ _ _ IHl IHr) in Hrun.
Qed.

Lemma valid_moves_of_refine fuel fuel' piece :
  (fuel ≤ fuel')%nat →
  res_le (valid_moves_of lookup h fuel piece) (valid_moves_of lookup' h fuel' piece).
Proof.
  intros Hle m. destruct (traverse_refine fuel fuel' Hle) as [Hl Hr].
  unfold valid_moves_of.
  intros (p & -> & H')%bind_Ok. simpl.
  apply bind_Ok in H' as (m0 & H0 & H').
  assert ((if color_eqb (Piece.color p) RED || Piece.king p
     then
      m1 ← traverse_left lookup' h fuel' (Piece.row p - 1)
              (Z.max (Piece.row p - 3) (-1)) (-1) (Piece.color p) 
              (Piece.col p - 1) [];
      m2 ← traverse_right lookup' h fuel' (Piece.row p - 1)
              (Z.max (Piece.row p - 3) (-1)) (-1) (Piece.color p) 
              (Piece.col p + 1) [];
      Ok (update (update ∅ m1) m2)
     else Ok ∅) = Ok m0) as ->.
  { destruct (color_eqb (Piece.color p) RED || Piece.king p); [|done].
    apply bind_Ok in H0 as (m1 & H1 & H0). apply bind_Ok in H0 as (m2 & H2 & H0).
    apply Hl in H1. apply Hr in H2. rewrite H1. simpl. by rewrite H2. }
  simpl.
  destruct (color_eqb (Piece.color p) WHITE || Piece.king p); [|done].
  apply bind_Ok in H' as (m1 & H1 & H'). apply bind_Ok in H' as (m2 & H2 & H').
  apply Hl in H1. apply Hr in H2. rewrite H1. simpl. by rewrite H2.
Qed.
End Refine.

Section Total.
Variable lookup : Z → Z → res obj.
Variable h : Heap.
Hypothesis Hlookup : ∀ r c, in_board r c →
  ∃ o, lookup r c = Ok o ∧ ∀ id, o = Ref id → is_Some (h !! id).

Section Loops.
Variables rec_left rec_right : Z → Z → Z → Color → Z → list obj → res Moves.
Variables (step : Z) (color : Color) (k : nat).
Hypothesis Hstep : step = 1 ∨ step = -1.
Hypothesis Hrec_left : ∀ start stop left sk,
  call_ok start stop step → left ≤ COLS - 1 → (rows_left start step < k)%nat →
  ∃ m, rec_left start stop step color left sk = Ok m.
Hypothesis Hrec_right : ∀ start stop right sk,
  call_ok start stop step → 0 ≤ right → (rows_left start step < k)%nat →
  ∃ m, rec_right start stop step color right sk = Ok m.

Lemma on_empty_total skipped r c last moves :
  in_board r c → (rows_left r step ≤ k)%nat →
  ∃ m, on_empty rec_left rec_right step color skipped r c last moves = Ok m.
Proof.
  intros [Hr Hc] Hk. unfold on_empty.
  destruct (truthy skipped && negb (truthy last)); [eauto|].
  destruct (truthy last); [|eauto].
  assert (call_ok (r + step) (if step =? -1 then Z.max (r - 3) (-1)
                              else Z.min (r + 3) ROWS) step) as Hcall.
  { unfold call_ok, ROWS in *.
    destruct Hstep; subst; simpl; [left|right]; lia. }
  assert (rows_left (r + step) step < k)%nat as Hlt.
  { unfold rows_left, ROWS in *. destruct Hstep; subst; simpl in *; lia. }
  unfold COLS in *.
  destruct (Hrec_left _ _ (c - 1) last Hcall) as [m1 ->]; [unfold COLS; lia|done|].
  destruct (Hrec_right _ _ (c + 1) last Hcall) as [m2 ->]; [lia|done|].
  simpl. eauto.
Qed.

Lemma left_loop_total skipped n : ∀ r left last moves,
  rows_ok step n r → left ≤ COLS - 1 → (n ≠ O → (rows_left r step ≤ k)%nat) →
  ∃ m, left_loop lookup h rec_left rec_right step color skipped
                 (range_from n r step) left last moves = Ok m.
Proof.
  induction n as [|n IH]; intros r left last moves Hrows Hleft Hk; simpl; [eauto|].
  destruct (left <? 0) eqn:Hl; [eauto|].
  assert (in_board r left) as Hb.
  { unfold in_board, rows_ok, ROWS, COLS in *. destruct Hstep; subst; lia. }
  assert (rows_ok step n (r + step)) as Hrows'.
  { unfold rows_ok, ROWS in *. destruct Hstep; subst; lia. }
  destruct (Hlookup _ _ Hb) as (current & -> & Hcur). simpl.
  case_bool_decide as Hz; [apply on_empty_total; auto|].
  destruct current as [|id]; [done|].
  destruct (Hcur id) as [p Hp]; [done|]. simpl. rewrite Hp. simpl.
  destruct (color_eqb (Piece.color p) color); [eauto|].
  apply IH; [done|lia|].
  intros _. specialize (Hk ltac:(done)).
  unfold rows_left, in_board, ROWS in *. destruct Hb. destruct Hstep; subst; simpl in *; lia.
Qed.

Lemma right_loop_total skipped n : ∀ r right last moves,
  rows_ok step n r → 0 ≤ right → (n ≠ O → (rows_left r step ≤ k)%nat) →
  ∃ m, right_loop lookup h rec_left rec_right step color skipped
                  (range_from n r step) right last moves = Ok m.
Proof.
  induction n as [|n IH]; intros r right last moves Hrows Hright Hk; simpl; [eauto|].
  destruct (COLS <=? right) eqn:Hl; [eauto|].
  assert (in_board r right) as Hb.
  { unfold in_board, rows_ok, ROWS, COLS in *. destruct Hstep; subst; lia. }
  assert (rows_ok step n (r + step)) as Hrows'.
  { unfold rows_ok, ROWS in *. destruct Hstep; subst; lia. }
  destruct (Hlookup _ _ Hb) as (current & -> & Hcur). simpl.
  case_bool_decide as Hz; [apply on_empty_total; auto|].
  destruct current as [|id]; [done|].
  destruct (Hcur id) as [p Hp]; [done|]. simpl. rewrite Hp. simpl.
  destruct (color_eqb (Piece.color p) color); [eauto|].
  apply IH; [done|lia|].
  intros _. specialize (Hk ltac:(done)).
  unfold rows_left, in_board, ROWS in *. destruct Hb. destruct Hstep; subst; simpl in *; lia.
Qed.
End Loops.

Lemma traverse_total fuel :
  (∀ start stop step color left sk,
      call_ok start stop step → left ≤ COLS - 1 → (rows_left start step < fuel)%nat →
      ∃ m, traverse_left lookup h fuel start stop step color left sk = Ok m)
  ∧ (∀ start stop step color right sk,
      call_ok start stop step → 0 ≤ right → (rows_left start step < fuel)%nat →
      ∃ m, traverse_right lookup h fuel start stop step color right sk = Ok m).
Proof.
  induction fuel as [|fuel [IHl IHr]]; [split; intros; lia|].
  split; intros start stop step color c sk Hcall Hc Hlt; simpl;
    destruct (range_rows_ok _ _ _ Hcall) as (n & -> & Hrows); simpl.
  - apply (left_loop_total (traverse_left lookup h fuel) (traverse_right lookup h fuel)
                           step color fuel); auto; [|lia].
    destruct Hcall as [(->&_)|(->&_)]; auto.
  - apply (right_loop_total (traverse_left lookup h fuel) (traverse_right lookup h fuel)
                           step color fuel); auto; [|lia].
    destruct Hcall as [(->&_)|(->&_)]; auto.
Qed.

Lemma valid_moves_of_total fuel id p :
  h !! id = Some p → in_board (Piece.row p) (Piece.col p) → (8 ≤ fuel)%nat →
  ∃ m, valid_moves_of lookup h fuel (Ref id) = Ok m.
Proof.
  intros Hp [Hr Hc] Hfuel. unfold valid_moves_of. simpl. rewrite Hp. simpl.
  destruct (traverse_total fuel) as [Hl Hr'].
  unfold ROWS, COLS in Hr, Hc.
  assert (call_ok (Piece.row p - 1) (Z.max (Piece.row p - 3) (-1)) (-1)) as Hup.
  { right. unfold ROWS. lia. }
  assert (call_ok (Piece.row p + 1) (Z.min (Piece.row p + 3) ROWS) 1) as Hdown.
  { left. unfold ROWS. lia. }
  assert (rows_left (Piece.row p - 1) (-1) < fuel)%nat as Hlu.
  { unfold rows_left. simpl. lia. }
  assert (rows_left (Piece.row p + 1) 1 < fuel)%nat as Hld.
  { unfold rows_left, ROWS. simpl. lia. }
  assert (∃ m0, (if color_eqb (Piece.color p) RED || Piece.king p
     then
      m1 ← traverse_left lookup h fuel (Piece.row p - 1)
              (Z.max (Piece.row p - 3) (-1)) (-1) (Piece.color p) 
              (Piece.col p - 1) [];
      m2 ← traverse_right lookup h fuel (Piece.row p - 1)
              (Z.max (Piece.row p - 3) (-1)) (-1) (Piece.color p) 
              (Piece.col p + 1) [];
      Ok (update (update ∅ m1) m2)
     else Ok ∅) = Ok m0) as [m0 ->].
  { destruct (color_eqb (Piece.color p) RED || Piece.king p); [|eauto].
    destruct (Hl _ _ _ (Piece.color p) (Piece.col p - 1) [] Hup) as [m1 ->];
      [unfold COLS; lia|done|].
    destruct (Hr' _ _ _ (Piece.color p) (Piece.col p + 1) [] Hup) as [m2 ->];
      [lia|done|].
    simpl. eauto. }
  simpl.
  destruct (color_eqb (Piece.color p) WHITE || Piece.king p); [|eauto].
  destruct (Hl _ _ _ (Piece.color p) (Piece.col p - 1) [] Hdown) as [m1 ->];
    [unfold COLS; lia|done|].
  destruct (Hr' _ _ _ (Piece.color p) (Piece.col p + 1) [] Hdown) as [m2 ->];
    [lia|done|].
  simpl. eauto.
Qed.
End Total.

Section ValidMovesSpec.
Variable lookup : Z → Z → res obj.
Variable h : Heap.

Lemma valid_moves_of_spec fuel id p m :
  h !! id = Some p → in_board (Piece.row p) (Piece.col p) →
  valid_moves_of lookup h fuel (Ref id) = Ok m →
  map_Forall (offered_ok lookup h p) m.
Proof.
  intros Hp [Hr Hc]. unfold valid_moves_of. simpl. rewrite Hp. simpl.
  destruct (traverse_spec lookup h (Piece.color p) fuel) as [Hl Hr'].
  unfold ROWS, COLS in Hr, Hc.
  assert (call_ok (Piece.row p - 1) (Z.max (Piece.row p - 3) (-1)) (-1)) as Hup.
  { right. unfold ROWS. lia. }
  assert (call_ok (Piece.row p + 1) (Z.min (Piece.row p + 3) ROWS) 1) as Hdown.
  { left. unfold ROWS. lia. }
  assert (∀ c0 (m' : Moves), c0 = Piece.col p - 1 ∨ c0 = Piece.col p + 1 →
            color_eqb (Piece.color p) RED || Piece.king p = true →
            map_Forall (entry_ok lookup h (Piece.color p) (-1) (Piece.row p - 1) c0) m' →
            map_Forall (offered_ok lookup h p) m') as Hconv_up.
  { intros c0 m' Hc0 Hcol Hm k v Hk. destruct (Hm k v Hk) as (?&?&?&?&?).
    split_and!; try done.
    - destruct Hc0; subst; zmod.
    - intros Hking. rewrite Hking, orb_false_r in Hcol.
      apply bool_decide_eq_true in Hcol. rewrite Hcol. lia. }
  assert (∀ c0 (m' : Moves), c0 = Piece.col p - 1 ∨ c0 = Piece.col p + 1 →
            color_eqb (Piece.color p) WHITE || Piece.king p = true →
            map_Forall (entry_ok lookup h (Piece.color p) 1 (Piece.row p + 1) c0) m' →
            map_Forall (offered_ok lookup h p) m') as Hconv_down.
  { intros c0 m' Hc0 Hcol Hm k v Hk. destruct (Hm k v Hk) as (?&?&?&?&?).
    split_and!; try done.
    - destruct Hc0; subst; zmod.
    - intros Hking. rewrite Hking, orb_false_r in Hcol.
      apply bool_decide_eq_true in Hcol. rewrite Hcol. lia. }
  intros (m0 & H0 & H')%bind_Ok.
  assert (map_Forall (offered_ok lookup h p) m0) as Hm0.
  { destruct (color_eqb (Piece.color p) RED || Piece.king p) eqn:Hcol.
    - apply bind_Ok in H0 as (m1 & H1 & H0). apply bind_Ok in H0 as (m2 & H2 & [= <-]).
      apply Hl in H1; [|done|unfold COLS; lia|done].
      apply Hr' in H2; [|done|lia|done].
      apply update_Forall; [apply update_Forall; [apply map_Forall_empty|]|].
      + by apply (Hconv_up (Piece.col p - 1)); [left|..].
      + by apply (Hconv_up (Piece.col p + 1)); [right|..].
    - injection H0 as <-. apply map_Forall_empty. }
  destruct (color_eqb (Piece.color p) WHITE || Piece.king p) eqn:Hcol.
  - apply bind_Ok in H' as (m1 & H1 & H'). apply bind_Ok in H' as (m2 & H2 & [= <-]).
    apply Hl in H1; [|done|unfold COLS; lia|done].
    apply Hr' in H2; [|done|lia|done].
    apply update_Forall; [apply update_Forall; [done|]|].
    + by apply (Hconv_down (Piece.col p - 1)); [left|..].
    + by apply (Hconv_down (Piece.col p + 1)); [right|..].
  - by injection H' as <-.
Qed.
End ValidMovesSpec.

(** ** The grid *)

Lemma item_in_board grid r c :
  shape grid → in_board r c →
  ∃ line o, grid !! Z.to_nat r = Some line ∧ line !! Z.to_nat c = Some o
            ∧ length line = 8%nat ∧ Board.item grid r c = Ok o.
Proof.
  intros [Hlen Hall] [Hr Hc]. unfold ROWS, COLS in *.
  destruct (lookup_lt_is_Some_2 grid (Z.to_nat r)) as [line Hline]; [lia|].
  assert (length line = 8%nat) as Hl.
  { rewrite Forall_forall in Hall. apply Hall. eapply list_elem_of_lookup_2; eauto. }
  destruct (lookup_lt_is_Some_2 line (Z.to_nat c)) as [o Ho]; [lia|].
  exists line, o. split_and!; try done.
  unfold Board.item. rewrite getitem_in_range by lia. rewrite Hline. simpl.
  rewrite getitem_in_range by lia. by rewrite Ho.
Qed.

Lemma item_total grid r c :
  shape grid → in_board r c → ∃ o, Board.item grid r c = Ok o.
Proof. intros Hs Hb. destruct (item_in_board grid r c Hs Hb) as (?&o&?&?&?&?). eauto. Qed.

Lemma set_item_in_board grid r c v :
  shape grid → in_board r c →
  ∃ grid', Board.set_item grid r c v = Ok grid' ∧ shape grid'
    ∧ Board.item grid' r c = Ok v
    ∧ ∀ r' c', in_board r' c' → (r', c') ≠ (r, c) →
        Board.item grid' r' c' = Board.item grid r' c'.
Proof.
  intros Hs Hb. destruct (item_in_board grid r c Hs Hb) as (line & o & Hline & Ho & Hl & _).
  destruct Hs as [Hlen Hall]. destruct Hb as [Hr Hc]. unfold ROWS, COLS in *.
  exists (<[Z.to_nat r := <[Z.to_nat c := v]> line]> grid).
  assert (shape (<[Z.to_nat r := <[Z.to_nat c := v]> line]> grid)) as Hs'.
  { split; [by rewrite length_insert|].
    apply Forall_insert; [done|]. by rewrite length_insert. }
  split_and!; [|done| |].
  - unfold Board.set_item. rewrite getitem_in_range by lia. rewrite Hline. simpl.
    rewrite setitem_in_range by lia. simpl. by rewrite setitem_in_range by lia.
  - unfold Board.item. rewrite getitem_in_range by (rewrite length_insert; lia).
    rewrite list_lookup_insert_eq by lia. simpl.
    rewrite getitem_in_range by (rewrite length_insert; lia).
    by rewrite list_lookup_insert_eq by lia.
  - intros r' c' [Hr' Hc'] Hne. unfold ROWS, COLS in *.
    unfold Board.item. rewrite !getitem_in_range by (rewrite ?length_insert; lia).
    destruct (decide (r' = r)) as [->|Hrr].
    + rewrite list_lookup_insert_eq by lia. rewrite Hline. simpl.
      rewrite !getitem_in_range by (rewrite ?length_insert; lia).
      rewrite list_lookup_insert_ne; [done|]. intros Heq. apply Hne. f_equal. lia.
    + rewrite list_lookup_insert_ne by lia. done.
Qed.

Lemma item_normalise grid r c o :
  shape grid → Board.item grid r c = Ok o →
  ∃ r' c', in_board r' c' ∧ Board.item grid r' c' = Ok o.
Proof.
  intros [Hlen Hall]. unfold Board.item.
  intros (line & Hline & Ho)%bind_Ok.
  apply getitem_Ok in Hline as (n & Hn & Hline).
  apply getitem_Ok in Ho as (k & Hk & Ho).
  assert (length line = 8%nat) as Hl.
  { rewrite Forall_forall in Hall. apply Hall. eapply list_elem_of_lookup_2; eauto. }
  apply norm_index_Some in Hn. apply norm_index_Some in Hk.
  exists (Z.of_nat n), (Z.of_nat k). split; [unfold in_board, ROWS, COLS; lia|].
  rewrite getitem_in_range by lia. rewrite Nat2Z.id, Hline. simpl.
  rewrite getitem_in_range by lia. by rewrite Nat2Z.id, Ho.
Qed.

Lemma strict_item_le grid r c : res_le (strict_item grid r c) (Board.item grid r c).
Proof. intros o. unfold strict_item. by case_bool_decide. Qed.

(** ** [Board.move] and [Board.remove] *)

Lemma board_move_heap h b id p row col h' b' :
  h !! id = Some p → Board.move h b (Ref id) row col = Ok (h', b') →
  h' = <[id := moved p row col]> h
  ∧ Board.red_left b' = Board.red_left b ∧ Board.white_left b' = Board.white_left b
  ∧ ∃ there here grid,
      Board.item (Board.board b) row col = Ok there
      ∧ Board.item (Board.board b) (Piece.row p) (Piece.col p) = Ok here
      ∧ Board.set_item (Board.board b) (Piece.row p) (Piece.col p) there = Ok grid
      ∧ Board.set_item grid row col here = Ok (Board.board b').
Proof.
  intros Hp. unfold Board.move.
  intros (there & Hthere & H)%bind_Ok. simpl in H. rewrite Hp in H. simpl in H.
  apply bind_Ok in H as (here & Hhere & H).
  apply bind_Ok in H as (grid & Hgrid & H).
  apply bind_Ok in H as (grid' & Hgrid' & H).
  unfold moved.
  destruct ((row =? ROWS - 1) || (row =? 0)); simpl in *.
  - destruct (Piece.king p); simpl in *.
    + injection H as <- <-. simpl. split_and!; try done. by exists there, here, grid.
    + rewrite list_insert_insert_eq in H.
      destruct (color_eqb (Piece.color p) WHITE); injection H as <- <-; simpl;
        (split_and!; try done; by exists there, here, grid).
  - injection H as <- <-. simpl. split_and!; try done. by exists there, here, grid.
Qed.

Lemma board_move_spec h b id p row col :
  shape (Board.board b) → h !! id = Some p →
  in_board (Piece.row p) (Piece.col p) → in_board row col →
  Board.item (Board.board b) (Piece.row p) (Piece.col p) = Ok (Ref id) →
  Board.item (Board.board b) row col = Ok Zero →
  ∃ b', Board.move h b (Ref id) row col = Ok (<[id := moved p row col]> h, b')
    ∧ shape (Board.board b')
    ∧ Board.item (Board.board b') row col = Ok (Ref id)
    ∧ Board.item (Board.board b') (Piece.row p) (Piece.col p) = Ok Zero
    ∧ (∀ r c, in_board r c → (r, c) ≠ (Piece.row p, Piece.col p) → (r, c) ≠ (row, col) →
         Board.item (Board.board b') r c = Board.item (Board.board b) r c)
    ∧ Board.red_left b' = Board.red_left b ∧ Board.white_left b' = Board.white_left b.
Proof.
  intros Hs Hp Hsrc Hdst Hhere Hthere.
  assert ((Piece.row p, Piece.col p) ≠ (row, col)) as Hne.
  { intros [= Hr Hc]. rewrite Hr, Hc in Hhere. congruence. }
  destruct (set_item_in_board _ _ _ Zero Hs Hsrc) as (grid & Hgrid & Hs1 & Hz & Hrest).
  destruct (set_item_in_board _ _ _ (Ref id) Hs1 Hdst) as (grid' & Hgrid' & Hs2 & Hd & Hrest').
  assert (∃ r, Board.move h b (Ref id) row col = Ok r) as [[h' b'] Hmove].
  { unfold Board.move. rewrite Hthere. simpl. rewrite Hp. simpl. rewrite Hhere. simpl.
    rewrite Hgrid. simpl. rewrite Hgrid'. simpl.
    destruct ((row =? ROWS - 1) || (row =? 0)); [|eauto].
    destruct (negb _); [|eauto].
    destruct (color_eqb _ _); eauto. }
  destruct (board_move_heap _ _ _ _ _ _ _ _ Hp Hmove)
    as (-> & Hred & Hwhite & there & here & g1 & H1 & H2 & H3 & H4).
  rewrite Hthere in H1. injection H1 as <-. rewrite Hhere in H2. injection H2 as <-.
  rewrite Hgrid in H3. injection H3 as <-. rewrite Hgrid' in H4. injection H4 as Hb'.
  exists b'. rewrite <- Hb'. split_and!; try done.
  - rewrite Hrest' by done. done.
  - intros r c Hrc Hn1 Hn2. rewrite Hrest' by done. by apply Hrest.
Qed.

Lemma remove_one_spec h id p b :
  h !! id = Some p → shape (Board.board b) → in_board (Piece.row p) (Piece.col p) →
  ∃ b0, Board.remove_one h (Ref id) b = Ok b0
    ∧ Board.set_item (Board.board b) (Piece.row p) (Piece.col p) Zero = Ok (Board.board b0)
    ∧ Board.red_left b0 = Board.red_left b - (if color_eqb (Piece.color p) RED then 1 else 0)
    ∧ Board.white_left b0
      = Board.white_left b - (if color_eqb (Piece.color p) WHITE then 1 else 0)
    ∧ Board.red_kings b0 = Board.red_kings b
    ∧ Board.white_kings b0 = Board.white_kings b.
Proof.
  intros Hp Hs Hb.
  destruct (set_item_in_board _ _ _ Zero Hs Hb) as (grid & Hgrid & _).
  unfold Board.remove_one. simpl. rewrite Hp. simpl. rewrite Hgrid. simpl.
  destruct (Piece.color p); simpl; eexists; split_and!; try done; simpl; lia.
Qed.

Lemma remove_cons h b x pieces :
  Board.remove h b (x :: pieces)
  = Board.remove_one h x b ≫= λ b0, Board.remove h b0 pieces.
Proof. done. Qed.

Lemma board_remove_spec h pieces : ∀ b,
  shape (Board.board b) → Forall (placed h) pieces →
  ∃ b', Board.remove h b pieces = Ok b'
    ∧ shape (Board.board b')
    ∧ (∀ r c, in_board r c →
         Board.item (Board.board b') r c = Board.item (Board.board b) r c
         ∨ Board.item (Board.board b') r c = Ok Zero)
    ∧ (∀ r c, in_board r c →
         Forall (λ x, ∀ p, deref h x = Ok p → (Piece.row p, Piece.col p) ≠ (r, c)) pieces →
         Board.item (Board.board b') r c = Board.item (Board.board b) r c)
    ∧ Forall (λ x, ∀ p, deref h x = Ok p →
                Board.item (Board.board b') (Piece.row p) (Piece.col p) = Ok Zero) pieces
    ∧ Board.red_left b' = Board.red_left b - count_color h RED pieces
    ∧ Board.white_left b' = Board.white_left b - count_color h WHITE pieces
    ∧ Board.red_kings b' = Board.red_kings b
    ∧ Board.white_kings b' = Board.white_kings b.
Proof.
  induction pieces as [|x pieces IH]; intros b Hs Hall.
  { exists b. simpl. split_and!; auto; lia. }
  apply Forall_cons in Hall as [(id & p & -> & Hp & Hb) Hall].
  destruct (set_item_in_board _ _ _ Zero Hs Hb) as (grid & Hgrid & Hs1 & Hz & Hrest).
  destruct (remove_one_spec h id p b Hp Hs Hb) as (b0 & Hone & Hg0 & Hr0 & Hw0 & ? & ?).
  rewrite Hgrid in Hg0. injection Hg0 as Hg0.
  rewrite remove_cons, Hone.
  simpl. subst grid.
  destruct (IH b0 Hs1 Hall) as (b' & Hrun & Hs' & Hor & Hsame & Hzero & Hr' & Hw' & ? & ?).
  exists b'. split_and!; try done.
  - intros r c Hrc. destruct (Hor r c Hrc) as [-> | ->]; [|by right].
    destruct (decide ((r, c) = (Piece.row p, Piece.col p))) as [Heq|Hne].
    + injection Heq as -> ->. by right.
    + left. by apply Hrest.
  - intros r c Hrc Hf. apply Forall_cons in Hf as [Hx Hf].
    rewrite Hsame by done. apply Hrest; [done|]. intros Heq. eapply Hx; [|done].
    simpl. by rewrite Hp.
  - constructor; [|done]. intros p' Hp'. simpl in Hp'. rewrite Hp in Hp'.
    injection Hp' as <-. destruct (Hor _ _ Hb) as [-> | ->]; done.
  - rewrite Hr', Hr0. simpl. rewrite Hp. lia.
  - rewrite Hw', Hw0. simpl. rewrite Hp. lia.
  - congruence.
  - congruence.
Qed.

(** ** [Game._move] *)

Lemma change_turn_other g :
  Game.turn (Game.change_turn g) = other (Game.turn g).
Proof. unfold Game.change_turn. simpl. by destruct (Game.turn g). Qed.

Lemma moved_fields p row col :
  Piece.row (moved p row col) = row ∧ Piece.col (moved p row col) = col
  ∧ Piece.color (moved p row col) = Piece.color p
  ∧ Piece.king (moved p row col)
    = Piece.king p || ((row =? ROWS - 1) || (row =? 0)).
Proof.
  unfold moved. destruct p as [r c co [] x y]; simpl;
    destruct ((row =? ROWS - 1) || (row =? 0)); done.
Qed.

Lemma game_move_fail h g row col :
  Game.selected g = None ∨ Game.valid_moves g !! (row, col) = None →
  Game._move h g row col = Ok (h, g, false).
Proof.
  unfold Game._move. intros [-> | ->]; [done|]. by destruct (Game.selected g).
Qed.

Lemma count_color_ext h h' c pieces :
  Forall (λ x, deref h' x = deref h x) pieces →
  count_color h' c pieces = count_color h c pieces.
Proof.
  induction 1 as [|x pieces Hx _ IH]; [done|]. simpl. by rewrite Hx, IH.
Qed.

(** What a capture list offered in a state of the invariant holds. *)
Lemma captured_placed h g id p x :
  consistent h (Board.board (Game.board g)) →
  h !! id = Some p → Piece.color p = Game.turn g →
  captured_ok (Board.item (Board.board (Game.board g))) h (Game.turn g) x →
  ∃ q pq, x = Ref q ∧ q ≠ id ∧ h !! q = Some pq ∧ Piece.color pq ≠ Game.turn g
    ∧ in_board (Piece.row pq) (Piece.col pq)
    ∧ Board.item (Board.board (Game.board g)) (Piece.row pq) (Piece.col pq) = Ok (Ref q).
Proof.
  intros Hcons Hp Hcol (q & r & c & pq & -> & Hb & Hitem & Hq & Hne).
  destruct (Hcons r c q Hb Hitem) as (pq' & Hq' & <- & <-).
  rewrite Hq in Hq'. injection Hq' as <-.
  exists q, pq. split_and!; try done. intros ->. congruence.
Qed.

Lemma game_move_ok h g sel row col skipped :
  Inv h g → Game.selected g = Some sel →
  Game.valid_moves g !! (row, col) = Some skipped →
  ∃ id p b',
    sel = Ref id ∧ h !! id = Some p ∧ Piece.color p = Game.turn g
    ∧ in_board (Piece.row p) (Piece.col p) ∧ in_board row col ∧ dark row col
    ∧ Board.item (Board.board (Game.board g)) (Piece.row p) (Piece.col p) = Ok (Ref id)
    ∧ Board.item (Board.board (Game.board g)) row col = Ok Zero
    ∧ Game._move h g row col
      = Ok (<[id := moved p row col]> h,
            {| Game.selected := Some sel; Game.board := b';
               Game.turn := other (Game.turn g); Game.valid_moves := ∅ |}, true)
    ∧ shape (Board.board b')
    ∧ Board.item (Board.board b') row col = Ok (Ref id)
    ∧ Board.item (Board.board b') (Piece.row p) (Piece.col p) = Ok Zero
    ∧ Forall (λ x, ∃ q pq, x = Ref q ∧ q ≠ id ∧ h !! q = Some pq
                ∧ Piece.color pq ≠ Game.turn g
                ∧ in_board (Piece.row pq) (Piece.col pq)
                ∧ Board.item (Board.board (Game.board g)) (Piece.row pq) (Piece.col pq)
                  = Ok (Ref q)
                ∧ Board.item (Board.board b') (Piece.row pq) (Piece.col pq) = Ok Zero)
             skipped
    ∧ (∀ r c, in_board r c → (r, c) ≠ (row, col) →
         Board.item (Board.board b') r c = Board.item (Board.board (Game.board g)) r c
         ∨ Board.item (Board.board b') r c = Ok Zero)
    ∧ (∀ r c, in_board r c → (r, c) ≠ (row, col) →
         (r, c) ≠ (Piece.row p, Piece.col p) →
         Forall (λ x, ∀ pq, deref h x = Ok pq → (Piece.row pq, Piece.col pq) ≠ (r, c))
                skipped →
         Board.item (Board.board b') r c = Board.item (Board.board (Game.board g)) r c)
    ∧ Board.red_left b' = Board.red_left (Game.board g) - count_color h RED skipped
    ∧ Board.white_left b' = Board.white_left (Game.board g) - count_color h WHITE skipped.
Proof.
  intros [Hs Hcons Hdark Hmoves] Hsel Hk.
  destruct (Hmoves sel (row, col) skipped Hsel Hk)
    as (id & p & -> & Hp & Hsrc & Hhere & Hcol & Hdst & Hdk & Hthere & Hcap).
  simpl in Hdst, Hdk, Hthere.
  exists id, p.
  destruct (board_move_spec h (Game.board g) id p row col Hs Hp Hsrc Hdst Hhere Hthere)
    as (b1 & Hmove & Hs1 & Hd1 & Hz1 & Hrest1 & Hr1 & Hw1).
  set (h1 := <[id := moved p row col]> h) in *.
  assert (Forall (λ x, ∃ q pq, x = Ref q ∧ q ≠ id ∧ h !! q = Some pq
                ∧ Piece.color pq ≠ Game.turn g
                ∧ in_board (Piece.row pq) (Piece.col pq)
                ∧ Board.item (Board.board (Game.board g)) (Piece.row pq) (Piece.col pq)
                  = Ok (Ref q)) skipped) as Hsk.
  { eapply Forall_impl; [exact Hcap|]. intros x Hx. by eapply captured_placed. }
  assert (Forall (λ x, deref h1 x = deref h x) skipped) as Hderef.
  { eapply Forall_impl; [exact Hsk|]. intros x (q & pq & -> & Hne & _). simpl.
    subst h1. by rewrite list_lookup_insert_ne. }
  assert (Forall (placed h1) skipped) as Hplaced.
  { rewrite Forall_forall in Hsk, Hderef. apply Forall_forall. intros x Hx.
    destruct (Hsk x Hx) as (q & pq & -> & Hne & Hq & _ & Hb & _).
    specialize (Hderef _ Hx). simpl in Hderef. rewrite Hq in Hderef.
    exists q, pq. split_and!; try done. by destruct (h1 !! q); simplify_eq. }
  destruct (board_remove_spec h1 skipped b1 Hs1 Hplaced)
    as (b' & Hrem & Hs' & Hor & Hsame & Hzero & Hr' & Hw' & _ & _).
  exists b'. split_and!; try done.
  - unfold Game._move. rewrite Hsel, Hk. simpl. rewrite Hp. simpl.
    unfold Board.get_piece. rewrite Hhere. simpl. rewrite Hmove. simpl.
    assert ((if truthy skipped then Board.remove h1 b1 skipped else Ok b1) = Ok b') as ->.
    { destruct skipped; [|done]. simpl in Hrem. by injection Hrem as ->. }
    simpl. unfold Game.change_turn. simpl. by destruct (Game.turn g).
  - rewrite Hsame; [done..|]. rewrite Forall_forall in Hsk, Hderef. apply Forall_forall.
    intros x Hx pq Hpq. destruct (Hsk x Hx) as (q & pq' & -> & Hne & Hq & _ & Hb & Hit).
    rewrite (Hderef _ Hx) in Hpq. simpl in Hpq. rewrite Hq in Hpq. injection Hpq as ->.
    intros [= Hr Hc]. rewrite Hr, Hc in Hit. congruence.
  - destruct (Hor _ _ Hsrc) as [-> | ->]; done.
  - rewrite Forall_forall in Hsk, Hderef, Hzero. apply Forall_forall. intros x Hx.
    destruct (Hsk x Hx) as (q & pq & -> & Hne & Hq & ? & Hb & Hit).
    exists q, pq. split_and!; try done. apply (Hzero _ Hx).
    rewrite (Hderef _ Hx). simpl. by rewrite Hq.
  - intros r c Hrc Hne. destruct (Hor r c Hrc) as [-> | ->]; [|by right].
    destruct (decide ((r, c) = (Piece.row p, Piece.col p))) as [Heq|Hne'].
    + injection Heq as -> ->. by right.
    + left. by apply Hrest1.
  - intros r c Hrc Hne Hne' Hf. rewrite Hsame, Hrest1; [done..|].
    rewrite Forall_forall in Hf, Hderef. apply Forall_forall. intros x Hx pq Hpq.
    apply (Hf x Hx). by rewrite <- (Hderef _ Hx).
  - rewrite Hr', Hr1. f_equal. by apply count_color_ext.
  - rewrite Hw', Hw1. f_equal. by apply count_color_ext.
Qed.

(** ** The invariant *)

Lemma inv_move h g row col h' g' ok :
  Inv h g → Game._move h g row col = Ok (h', g', ok) → Inv h' g'.
Proof.
  intros HI Hmove.
  destruct (Game.selected g) as [sel|] eqn:Hsel;
    [|rewrite game_move_fail in Hmove by auto; by simplify_eq].
  destruct (Game.valid_moves g !! (row, col)) as [skipped|] eqn:Hk;
    [|rewrite game_move_fail in Hmove by auto; by simplify_eq].
  destruct (game_move_ok h g sel row col skipped HI Hsel Hk)
    as (id & p & b' & -> & Hp & Hcol & Hsrc & Hdst & Hdk & Hhere & Hthere & Hrun
        & Hs' & Hd' & Hz' & Hsk & Hor & _).
  rewrite Hrun in Hmove. injection Hmove as <- <- <-.
  destruct HI as [Hs Hcons Hdark Hmoves].
  pose proof (lookup_lt_Some _ _ _ Hp) as Hlt.
  split; simpl; [done| | |].
  - intros r c q Hrc Hq.
    destruct (decide ((r, c) = (row, col))) as [Heq|Hne].
    + injection Heq as -> ->. rewrite Hd' in Hq. injection Hq as <-.
      exists (moved p row col). rewrite list_lookup_insert_eq by done.
      destruct (moved_fields p row col) as (? & ? & _). done.
    + destruct (Hor r c Hrc Hne) as [Heq|Heq]; rewrite Heq in Hq; [|done].
      destruct (Hcons r c q Hrc Hq) as (pq & Hpq & Hr & Hc).
      exists pq. split_and!; try done.
      rewrite list_lookup_insert_ne; [done|]. intros <-.
      rewrite Hp in Hpq. injection Hpq as <-. rewrite Hr, Hc in Hz'. congruence.
  - intros r c q Hrc Hq.
    destruct (decide ((r, c) = (row, col))) as [Heq|Hne].
    + by injection Heq as -> ->.
    + destruct (Hor r c Hrc Hne) as [Heq|Heq]; rewrite Heq in Hq; [|done].
      by eapply Hdark.
  - intros sel k v _ Hv. by rewrite lookup_empty in Hv.
Qed.

Lemma inv_deselect h g :
  Inv h g →
  Inv h {| Game.selected := None; Game.board := Game.board g;
           Game.turn := Game.turn g; Game.valid_moves := Game.valid_moves g |}.
Proof. intros [Hs Hcons Hdark Hmoves]. by split. Qed.

(** What [select_here] does, by cases on the clicked square. *)
Lemma select_here_cases fuel h g row col h' g' ok :
  Game.select_here fuel h g row col = Ok (h', g', ok) →
  h' = h
  ∧ ((ok = false ∧ g' = g)
     ∨ (∃ id p m, ok = true
          ∧ Board.get_piece (Game.board g) row col = Ok (Ref id)
          ∧ h !! id = Some p ∧ Piece.color p = Game.turn g
          ∧ Board.get_valid_moves fuel h (Game.board g) (Ref id) = Ok m
          ∧ g' = {| Game.selected := Some (Ref id); Game.board := Game.board g;
                    Game.turn := Game.turn g; Game.valid_moves := m |})).
Proof.
  unfold Game.select_here. intros (piece & Hpiece & H)%bind_Ok.
  destruct piece as [|id]; [injection H as <- <- <-; auto|].
  apply bind_Ok in H as (p & Hp & H).
  destruct (color_eqb (Piece.color p) (Game.turn g)) eqn:Hc;
    [|injection H as <- <- <-; auto].
  apply bind_Ok in H as (m & Hm & H). injection H as <- <- <-.
  split; [done|]. right. exists id, p, m. split_and!; try done.
  - simpl in Hp. by destruct (h !! id); simplify_eq.
  - by apply bool_decide_eq_true in Hc.
Qed.

Lemma inv_select_here fuel h g row col h' g' ok :
  Inv h g → Game.select_here fuel h g row col = Ok (h', g', ok) → Inv h' g'.
Proof.
  intros HI Hrun. apply select_here_cases in Hrun as [-> Hcases].
  destruct Hcases as [[_ ->]|(id & p & m & _ & Hpiece & Hp & Hcol & Hm & ->)]; [done|].
  destruct HI as [Hs Hcons Hdark Hmoves].
  destruct (item_normalise _ _ _ _ Hs Hpiece) as (r & c & Hrc & Hitem).
  destruct (Hcons r c id Hrc Hitem) as (p' & Hp' & Hr & Hc).
  rewrite Hp in Hp'. injection Hp' as <-. subst r c.
  split; simpl; [done..|].
  intros sel k v [= <-] Hv.
  pose proof (valid_moves_of_spec _ _ _ _ _ _ Hp Hrc Hm k v Hv) as (Hk & Hz & Hpar & _ & Hcap).
  exists id, p. split_and!; try done.
  - specialize (Hdark _ _ _ Hrc Hitem). unfold dark in *. congruence.
  - by rewrite <- Hcol.
Qed.

Lemma inv_select fuel : ∀ h g row col h' g' ok,
  Inv h g → Game.select fuel h g row col = Ok (h', g', ok) → Inv h' g'.
Proof.
  induction fuel as [|fuel IH]; intros h g row col h' g' ok HI; [done|].
  simpl. intros ([h1 g1] & H1 & Hhere)%bind_Ok.
  eapply inv_select_here; [|exact Hhere].
  destruct (Game.selected g); [|by injection H1 as <- <-].
  apply bind_Ok in H1 as ([[h2 g2] result] & Hmove & H1).
  pose proof (inv_move _ _ _ _ _ _ _ HI Hmove) as HI2.
  destruct result; simpl in H1; [by injection H1 as <- <-|].
  apply bind_Ok in H1 as ([[h3 g3] ?] & Hrec & H1). injection H1 as <- <-.
  eapply IH; [|exact Hrec]. by apply inv_deselect.
Qed.

Lemma init_initial : Game._init [] = Ok initial.
Proof. vm_compute. reflexivity. Qed.

(** Case analysis on the sixty-four squares of the board. *)
Ltac each_square r c Hrc :=
  let Hr := fresh "Hr" in
  let Hc := fresh "Hc" in
  assert (r = 0 ∨ r = 1 ∨ r = 2 ∨ r = 3 ∨ r = 4 ∨ r = 5 ∨ r = 6 ∨ r = 7) as Hr
    by (unfold in_board, ROWS, COLS in Hrc; lia);
  assert (c = 0 ∨ c = 1 ∨ c = 2 ∨ c = 3 ∨ c = 4 ∨ c = 5 ∨ c = 6 ∨ c = 7) as Hc
    by (unfold in_board, ROWS, COLS in Hrc; lia);
  clear Hrc;
  repeat (destruct Hr as [Hr|Hr]); repeat (destruct Hc as [Hc|Hc]); subst r c.

Lemma inv_initial : Inv initial.1 initial.2.
Proof.
  split.
  - split; [done|]. simpl. repeat constructor.
  - intros r c id Hrc Hitem. each_square r c Hrc; vm_compute in Hitem;
      try discriminate Hitem; injection Hitem as <-;
      (eexists; split; [reflexivity|done]).
  - intros r c id Hrc Hitem. each_square r c Hrc; vm_compute in Hitem;
      try discriminate Hitem; reflexivity.
  - intros sel k v Hsel. discriminate Hsel.
Qed.

Lemma reachable_inv h g : reachable h g → Inv h g.
Proof.
  induction 1 as [h g Hinit|fuel h g row col h' g' ok _ IH Hrun].
  - rewrite init_initial in Hinit. injection Hinit as <- <-. apply inv_initial.
  - by eapply inv_select.
Qed.

(** ** [Game.select] *)

Lemma inv_valid_board h g : Inv h g → valid_board h (Game.board g).
Proof.
  intros [Hs Hcons _ _]. split; [done|]. intros r c id Hrc Hitem.
  destruct (Hcons r c id Hrc Hitem) as (p & -> & _). eauto.
Qed.

Lemma strict_item_total h b r c :
  valid_board h b → in_board r c →
  ∃ o, strict_item (Board.board b) r c = Ok o ∧ ∀ id, o = Ref id → is_Some (h !! id).
Proof.
  intros [Hs Hnd] Hrc. destruct (item_total _ _ _ Hs Hrc) as [o Ho].
  exists o. split.
  - unfold strict_item. by rewrite bool_decide_eq_true_2.
  - intros id ->. by eapply Hnd.
Qed.

(** The generator returns, with the same mapping for every fuel from 8 on,
    and reads no square outside the board. *)
Lemma get_valid_moves_total h b id p :
  valid_board h b → h !! id = Some p → in_board (Piece.row p) (Piece.col p) →
  ∃ m, ∀ fuel, (8 ≤ fuel)%nat →
    Board.get_valid_moves fuel h b (Ref id) = Ok m
    ∧ valid_moves_of (strict_item (Board.board b)) h fuel (Ref id) = Ok m.
Proof.
  intros Hv Hp Hrc.
  destruct (valid_moves_of_total (strict_item (Board.board b)) h
              (λ r c, strict_item_total h b r c Hv) 8 id p Hp Hrc) as [m Hm]; [done|].
  exists m. intros fuel Hfuel. split.
  - eapply valid_moves_of_refine; [| |exact Hm]; [apply strict_item_le|done].
  - eapply valid_moves_of_refine; [| |exact Hm]; [by intros ???|done].
Qed.

(** A click on an offered square: the move is applied and the call answers
    [False], the piece that moved being of the color that just played. *)
Lemma select_after_move h g sel row col skipped fuel :
  Inv h g → Game.selected g = Some sel →
  Game.valid_moves g !! (row, col) = Some skipped →
  ∃ h' g', Game._move h g row col = Ok (h', g', true)
    ∧ Game.select (S fuel) h g row col = Ok (h', g', false)
    ∧ Game.selected g' = Some sel ∧ Game.valid_moves g' = ∅
    ∧ Game.turn g' = other (Game.turn g)
    ∧ Board.get_piece (Game.board g') row col = Ok sel
    ∧ ∃ p, deref h' sel = Ok p ∧ Piece.color p = Game.turn g.
Proof.
  intros HI Hsel Hk.
  destruct (game_move_ok h g sel row col skipped HI Hsel Hk)
    as (id & p & b' & -> & Hp & Hcol & Hsrc & Hdst & Hdk & Hhere & Hthere & Hrun
        & Hs' & Hd' & _).
  pose proof (lookup_lt_Some _ _ _ Hp) as Hlt.
  destruct (moved_fields p row col) as (_ & _ & Hmc & _).
  eexists _, _. split; [exact Hrun|]. split_and!; try done.
  - simpl. rewrite Hsel, Hrun. simpl.
    unfold Game.select_here, Board.get_piece. simpl. rewrite Hd'. simpl.
    rewrite list_lookup_insert_eq by done. simpl.
    rewrite Hmc, Hcol. unfold color_eqb. rewrite bool_decide_eq_false_2; [done|].
    by destruct (Game.turn g).
  - exists (moved p row col). simpl. rewrite list_lookup_insert_eq by done.
    split; [done|congruence].
Qed.

(** A click that is not an offered square, on a piece of the side to move:
    the old selection is replaced by that piece. *)
Lemma select_reselect h g sel row col id p fuel :
  Inv h g → Game.selected g = Some sel →
  Game.valid_moves g !! (row, col) = None →
  Board.get_piece (Game.board g) row col = Ok (Ref id) →
  h !! id = Some p → Piece.color p = Game.turn g → (10 ≤ fuel)%nat →
  ∃ m, (∀ n, (8 ≤ n)%nat → Board.get_valid_moves n h (Game.board g) (Ref id) = Ok m)
    ∧ Game.select fuel h g row col
      = Ok (h, {| Game.selected := Some (Ref id); Game.board := Game.board g;
                  Game.turn := Game.turn g; Game.valid_moves := m |}, true).
Proof.
  intros HI Hsel Hk Hpiece Hp Hcol Hfuel.
  pose proof (inv_valid_board _ _ HI) as Hv.
  destruct HI as [Hs Hcons _ _].
  destruct (item_normalise _ _ _ _ Hs Hpiece) as (r & c & Hrc & Hitem).
  destruct (Hcons r c id Hrc Hitem) as (p' & Hp' & Hr & Hc).
  rewrite Hp in Hp'. injection Hp' as <-. subst r c.
  destruct (get_valid_moves_total h (Game.board g) id p Hv Hp Hrc) as [m Hm].
  exists m. split; [intros n Hn; by apply Hm|].
  destruct fuel as [|[|fuel]]; [lia..|].
  assert (∀ n g0, (8 ≤ n)%nat → Game.board g0 = Game.board g → Game.turn g0 = Game.turn g →
            Game.select_here n h g0 row col
            = Ok (h, {| Game.selected := Some (Ref id); Game.board := Game.board g;
                        Game.turn := Game.turn g; Game.valid_moves := m |}, true)) as Hhere.
  { intros n g0 Hn Hb Ht. unfold Game.select_here. rewrite Hb, Ht, Hpiece. simpl.
    rewrite Hp. simpl. rewrite Hcol. unfold color_eqb. rewrite bool_decide_eq_true_2 by done.
    destruct (Hm n Hn) as [-> _]. done. }
  cbn [Game.select]. rewrite Hsel. rewrite game_move_fail by auto. simpl.
  rewrite Hhere by (done || lia). simpl. by rewrite Hhere by (done || lia).
Qed.

(** A click that is neither an offered square nor a piece of the side to
    move: the selection is dropped. *)
Lemma select_deselect h g sel row col o fuel :
  Game.selected g = Some sel →
  Game.valid_moves g !! (row, col) = None →
  Board.get_piece (Game.board g) row col = Ok o →
  (o = Zero ∨ ∃ id p, o = Ref id ∧ h !! id = Some p ∧ Piece.color p ≠ Game.turn g) →
  (2 ≤ fuel)%nat →
  Game.select fuel h g row col
  = Ok (h, {| Game.selected := None; Game.board := Game.board g;
              Game.turn := Game.turn g; Game.valid_moves := Game.valid_moves g |}, false).
Proof.
  intros Hsel Hk Hpiece Ho Hfuel.
  destruct fuel as [|[|fuel]]; [lia..|].
  assert (∀ n g0, Game.board g0 = Game.board g → Game.turn g0 = Game.turn g →
            Game.select_here n h g0 row col = Ok (h, g0, false)) as Hhere.
  { intros n g0 Hb Ht. unfold Game.select_here. rewrite Hb, Ht, Hpiece. simpl.
    destruct Ho as [->|(id & p & -> & Hp & Hne)]; [done|]. simpl. rewrite Hp. simpl.
    unfold color_eqb. by rewrite bool_decide_eq_false_2. }
  cbn [Game.select]. rewrite Hsel. rewrite game_move_fail by auto. simpl.
  rewrite Hhere by done. simpl. by rewrite Hhere.
Qed.

(** More fuel does not change what [select] returns. *)
Lemma select_here_refine fuel fuel' h g row col :
  (fuel ≤ fuel')%nat →
  res_le (Game.select_here fuel h g row col) (Game.select_here fuel' h g row col).
Proof.
  intros Hle r. unfold Game.select_here.
  intros (piece & -> & H)%bind_Ok. simpl.
  destruct piece as [|id]; [done|].
  apply bind_Ok in H as (p & -> & H). simpl.
  destruct (color_eqb (Piece.color p) (Game.turn g)); [|done].
  apply bind_Ok in H as (m & Hm & H).
  unfold Board.get_valid_moves in *.
  eapply valid_moves_of_refine in Hm; [|by intros ???|exact Hle]. by rewrite Hm.
Qed.

Lemma select_refine fuel : ∀ fuel' h g row col,
  (fuel ≤ fuel')%nat →
  res_le (Game.select fuel h g row col) (Game.select fuel' h g row col).
Proof.
  induction fuel as [|fuel IH]; intros fuel' h g row col Hle r; [done|].
  destruct fuel' as [|fuel']; [lia|].
  simpl. intros ([h1 g1] & H1 & Hhere)%bind_Ok.
  eapply select_here_refine in Hhere; [|by apply Nat.succ_le_mono].
  destruct (Game.selected g); [|injection H1 as <- <-; exact Hhere].
  apply bind_Ok in H1 as ([[h2 g2] result] & -> & H1). simpl.
  destruct result; simpl in *; [injection H1 as <- <-; exact Hhere|].
  apply bind_Ok in H1 as ([[h3 g3] ok] & Hrec & H1). injection H1 as <- <-.
  eapply IH in Hrec; [|by apply Nat.succ_le_mono]. rewrite Hrec. simpl. exact Hhere.
Qed.

Lemma reachable_initial : reachable initial.1 initial.2.
Proof. apply reach_init. vm_compute. reflexivity. Qed.

Lemma reachable_first_click : reachable first_click.1 first_click.2.
Proof.
  apply (reach_select 10 initial.1 initial.2 5 0 _ _ true reachable_initial).
  vm_compute. reflexivity.
Qed.

(** With an empty offer a stale selection is inert: the next click is
    handled as if nothing were selected. *)
Lemma select_stale_selection h g sel row col fuel :
  Inv h g → Game.selected g = Some sel → Game.valid_moves g = ∅ → (10 ≤ fuel)%nat →
  Game.select fuel h g row col = Game.select fuel h (deselect g) row col.
Proof.
  intros HI Hsel Hm Hfuel.
  destruct fuel as [|[|fuel]]; [lia..|].
  assert (Game.valid_moves g !! (row, col) = None) as Hk by (by rewrite Hm).
  cbn [Game.select]. rewrite Hsel. rewrite game_move_fail by auto.
  cbn [deselect Game.selected]. simpl. unfold Game.select_here. simpl.
  destruct (Board.get_piece (Game.board g) row col) as [[|id]| |] eqn:Hpiece;
    simpl; [by rewrite Hpiece|..|done|done].
  pose proof (inv_valid_board _ _ HI) as Hv.
  destruct HI as [Hs Hcons _ _].
  destruct (item_normalise _ _ _ _ Hs Hpiece) as (r & c & Hrc & Hitem).
  destruct (Hcons r c id Hrc Hitem) as (p & Hp & Hr & Hc). subst r c.
  rewrite Hp. simpl.
  destruct (color_eqb (Piece.color p) (Game.turn g)) eqn:Hcol; simpl.
  - destruct (get_valid_moves_total h (Game.board g) id p Hv Hp Hrc) as [m' Hm'].
    destruct (Hm' fuel ltac:(lia)) as [-> _]. destruct (Hm' (S fuel) ltac:(lia)) as [Hm2 _].
    simpl. rewrite Hpiece. simpl. rewrite Hp. simpl. rewrite Hcol. by rewrite Hm2.
  - rewrite Hpiece. simpl. rewrite Hp. simpl. by rewrite Hcol.
Qed.

(** ** Reading a mapping built by [update] *)

Lemma update_lookup_later (d o : Moves) k v :
  o !! k = Some v → update d o !! k = Some v.
Proof. intros H. unfold update. by apply lookup_union_Some_l. Qed.

Lemma update_lookup_earlier (d o : Moves) k :
  o !! k = None → update d o !! k = d !! k.
Proof. intros H. unfold update. by apply lookup_union_r. Qed.

(** A traversal down the board offers no square above its first row. *)
Lemma traverse_down_rows (lookup : Z → Z → res obj) (h : Heap) (color : Color)
    (fuel : nat) (start stop c : Z) (sk : list obj) (m : Moves) (k : Z * Z) :
  call_ok start stop 1 → k.1 < start → Forall (captured_ok lookup h color) sk →
  (c ≤ COLS - 1 → traverse_left lookup h fuel start stop 1 color c sk = Ok m →
   m !! k = None)
  ∧ (0 ≤ c → traverse_right lookup h fuel start stop 1 color c sk = Ok m →
     m !! k = None).
Proof.
  intros Hcall Hk Hsk.
  destruct (traverse_spec lookup h color fuel) as [Hl Hr].
  split; intros Hc Hrun; destruct (m !! k) as [v|] eqn:Hv; try done; exfalso.
  - destruct (Hl _ _ _ _ _ _ Hcall Hc Hsk Hrun k v Hv) as (_ & _ & _ & Hdir & _). lia.
  - destruct (Hr _ _ _ _ _ _ Hcall Hc Hsk Hrun k v Hv) as (_ & _ & _ & Hdir & _). lia.
Qed.

Lemma traverse_right_S lookup h fuel start stop step color right skipped :
  traverse_right lookup h (S fuel) start stop step color right skipped
  = (rs ← range start stop step;
     right_loop lookup h (traverse_left lookup h fuel) (traverse_right lookup h fuel)
                step color skipped rs right [] ∅).
Proof. reflexivity. Qed.


(** [Board.__init__] builds the board of a new game whatever the store
    holds already. *)
Lemma create_board_dark h0 :
  ∃ h b, Board.__init__ h0 = Ok (h, b) ∧ shape (Board.board b) ∧ all_dark (Board.board b)
    ∧ Board.red_left b = 12 ∧ Board.white_left b = 12.
Proof.
  eexists _, _. split; [vm_compute; reflexivity|].
  split; [split; [done|repeat constructor]|].
  split; [|done].
  intros r c id Hrc Hitem. cbn [Board.board] in Hitem.
  each_square r c Hrc; vm_compute in Hitem;
    try discriminate Hitem; reflexivity.
Qed.

(** * The claims *)

(** ** C1: the double jump *)

(** C1, as stated, fails: in the double-jump position the mapping returned
    for the piece at (2,1) cannot both hold (6,5) with the two [RED] pieces
    and lack the key (4,3). *)
Lemma double_jump_first_landing_is_offered :
  ¬ (∃ m, Board.get_valid_moves 8 double_jump_heap double_jump_board (Ref 0) = Ok m
        ∧ (∃ caps, m !! (6, 5) = Some caps ∧ Ref 1 ∈ caps ∧ Ref 2 ∈ caps)
        ∧ m !! (4, 3) = None).
Proof.
  intros (m & Hm & _ & Hnone). vm_compute in Hm. injection Hm as <-.
  vm_compute in Hnone. discriminate Hnone.
Qed.

(** C1 (amended): on every board of the game with a [WHITE] piece at (2,1),
    [RED] pieces at (3,2) and (5,4) and the squares (4,3) and (6,5) empty,
    whatever the other squares hold, [get_valid_moves] on the piece at (2,1)
    returns the destination (6,5) with both [RED] pieces as its captures,
    the one at (5,4) first, and it does return the first landing square
    (4,3) as a destination, with the piece at (3,2) as its capture. *)
Theorem double_jump_moves h b id p q1 p1 q2 p2 :
  valid_board h b →
  h !! id = Some p → Piece.row p = 2 → Piece.col p = 1 → Piece.color p = WHITE →
  Board.item (Board.board b) 3 2 = Ok (Ref q1) → h !! q1 = Some p1 →
  Piece.color p1 = RED →
  Board.item (Board.board b) 5 4 = Ok (Ref q2) → h !! q2 = Some p2 →
  Piece.color p2 = RED →
  Board.item (Board.board b) 4 3 = Ok Zero →
  Board.item (Board.board b) 6 5 = Ok Zero →
  ∃ m, (∀ fuel, (8 ≤ fuel)%nat → Board.get_valid_moves fuel h b (Ref id) = Ok m)
    ∧ m !! (6, 5) = Some [Ref q2; Ref q1]
    ∧ m !! (4, 3) = Some [Ref q1].
Proof.
  intros Hv Hp Hrow Hcol Hcolor H32 Hq1 Hc1 H54 Hq2 Hc2 H43 H65.
  assert (in_board (Piece.row p) (Piece.col p)) as Hrc.
  { rewrite Hrow, Hcol. unfold in_board, ROWS, COLS. lia. }
  destruct (get_valid_moves_total h b id p Hv Hp Hrc) as [m Hm].
  exists m. split; [intros fuel Hfuel; by apply Hm|].
  destruct (Hm 8%nat ltac:(done)) as [Hrun _]. clear Hm.
  set (lookup := Board.item (Board.board b)) in *.
  assert (captured_ok lookup h WHITE (Ref q1)) as Hcap1.
  { exists q1, 3, 2, p1. split_and!; try done; by rewrite Hc1. }
  assert (captured_ok lookup h WHITE (Ref q2)) as Hcap2.
  { exists q2, 5, 4, p2. split_and!; try done; by rewrite Hc2. }
  (* the last update of [get_valid_moves] is the traversal to the right *)
  unfold Board.get_valid_moves, valid_moves_of in Hrun. fold lookup in Hrun.
  cbn [deref mbind res_bind] in Hrun. rewrite Hp in Hrun. cbn [mbind res_bind] in Hrun.
  rewrite Hrow, Hcol, Hcolor in Hrun.
  apply bind_Ok in Hrun as (m0 & _ & Hrun).
  change (color_eqb WHITE WHITE) with true in Hrun. cbn [orb] in Hrun.
  apply bind_Ok in Hrun as (mL & _ & Hrun).
  apply bind_Ok in Hrun as (mR & HR & [= <-]).
  (* that traversal: over the piece at (3,2), landing on (4,3) *)
  change (2 + 1) with 3 in HR. change (Z.min (2 + 3) ROWS) with 5 in HR.
  change (1 + 1) with 2 in HR.
  rewrite traverse_right_S in HR. change (range 3 5 1) with (Ok [3; 4]) in HR.
  cbn [mbind res_bind right_loop] in HR.
  change (COLS <=? 2) with false in HR. cbv iota in HR.
  rewrite H32 in HR. cbn [mbind res_bind] in HR.
  rewrite bool_decide_eq_false_2 in HR by done.
  cbn [deref mbind res_bind] in HR. rewrite Hq1 in HR. cbn [mbind res_bind] in HR.
  rewrite Hc1 in HR. change (color_eqb RED WHITE) with false in HR. cbv iota in HR.
  change (2 + 1) with 3 in HR. change (COLS <=? 3) with false in HR. cbv iota in HR.
  rewrite H43 in HR. cbn [mbind res_bind] in HR.
  rewrite bool_decide_eq_true_2 in HR by done.
  unfold on_empty in HR. cbn [truthy andb negb] in HR. cbv iota in HR.
  change (1 =? -1) with false in HR. cbv iota in HR.
  change (Z.min (4 + 3) ROWS) with 7 in HR. change (4 + 1) with 5 in HR.
  change (3 - 1) with 2 in HR. change (3 + 1) with 4 in HR.
  apply bind_Ok in HR as (m1 & H1 & HR). apply bind_Ok in HR as (m2 & H2 & [= <-]).
  assert (call_ok 5 7 1) as Hcall5 by (left; unfold ROWS; lia).
  assert (m1 !! (4, 3) = None) as Hm1.
  { apply (proj1 (traverse_down_rows lookup h WHITE 7 5 7 2 [Ref q1] m1 (4, 3)
                    Hcall5 ltac:(simpl; lia) ltac:(by constructor)));
      [unfold COLS; lia|exact H1]. }
  assert (m2 !! (4, 3) = None) as Hm2.
  { apply (proj2 (traverse_down_rows lookup h WHITE 7 5 7 4 [Ref q1] m2 (4, 3)
                    Hcall5 ltac:(simpl; lia) ltac:(by constructor)));
      [lia|exact H2]. }
  (* its second half: over the piece at (5,4), landing on (6,5) *)
  rewrite traverse_right_S in H2. change (range 5 7 1) with (Ok [5; 6]) in H2.
  cbn [mbind res_bind right_loop] in H2.
  change (COLS <=? 4) with false in H2. cbv iota in H2.
  rewrite H54 in H2. cbn [mbind res_bind] in H2.
  rewrite bool_decide_eq_false_2 in H2 by done.
  cbn [deref mbind res_bind] in H2. rewrite Hq2 in H2. cbn [mbind res_bind] in H2.
  rewrite Hc2 in H2. change (color_eqb RED WHITE) with false in H2. cbv iota in H2.
  change (4 + 1) with 5 in H2. change (COLS <=? 5) with false in H2. cbv iota in H2.
  rewrite H65 in H2. cbn [mbind res_bind] in H2.
  rewrite bool_decide_eq_true_2 in H2 by done.
  unfold on_empty in H2. cbn [truthy andb negb app] in H2. cbv iota in H2.
  change (1 =? -1) with false in H2. cbv iota in H2.
  change (Z.min (6 + 3) ROWS) with 8 in H2. change (6 + 1) with 7 in H2.
  change (5 - 1) with 4 in H2. change (5 + 1) with 6 in H2.
  apply bind_Ok in H2 as (m3 & H3 & H2). apply bind_Ok in H2 as (m4 & H4 & [= <-]).
  assert (call_ok 7 8 1) as Hcall7 by (left; unfold ROWS; lia).
  assert (m3 !! (6, 5) = None) as Hm3.
  { apply (proj1 (traverse_down_rows lookup h WHITE 6 7 8 4 [Ref q2] m3 (6, 5)
                    Hcall7 ltac:(simpl; lia) ltac:(by constructor)));
      [unfold COLS; lia|exact H3]. }
  assert (m4 !! (6, 5) = None) as Hm4.
  { apply (proj2 (traverse_down_rows lookup h WHITE 6 7 8 6 [Ref q2] m4 (6, 5)
                    Hcall7 ltac:(simpl; lia) ltac:(by constructor)));
      [lia|exact H4]. }
  split.
  - apply update_lookup_later. apply update_lookup_later.
    rewrite update_lookup_earlier by done. rewrite update_lookup_earlier by done.
    apply lookup_insert_eq.
  - apply update_lookup_later.
    rewrite update_lookup_earlier by done. rewrite update_lookup_earlier by done.
    apply lookup_insert_eq.
Qed.

Lemma double_jump_board_valid : valid_board double_jump_heap double_jump_board.
Proof.
  split.
  - split; [reflexivity|]. simpl. repeat constructor.
  - intros r c id Hrc Hitem. each_square r c Hrc; vm_compute in Hitem;
      try discriminate Hitem; injection Hitem as <-; eexists; reflexivity.
Qed.

Lemma double_jump_moves_witness :
  valid_board double_jump_heap double_jump_board
  ∧ ∃ m, (∀ fuel, (8 ≤ fuel)%nat →
            Board.get_valid_moves fuel double_jump_heap double_jump_board (Ref 0) = Ok m)
      ∧ m !! (6, 5) = Some [Ref 2; Ref 1]
      ∧ m !! (4, 3) = Some [Ref 1].
Proof.
  split; [exact double_jump_board_valid|].
  apply (double_jump_moves double_jump_heap double_jump_board 0%nat
           (Piece.__init__ 2 1 WHITE) 1%nat (Piece.__init__ 3 2 RED)
           2%nat (Piece.__init__ 5 4 RED) double_jump_board_valid);
    reflexivity.
Defined.

(** With every other square empty the mapping has three entries: the two
    above and the simple step to (3,0). *)
Example double_jump_three_destinations fuel :
  (8 ≤ fuel)%nat →
  Board.get_valid_moves fuel double_jump_heap double_jump_board (Ref 0)
  = Ok {[ (3, 0) := []; (4, 3) := [Ref 1]; (6, 5) := [Ref 2; Ref 1] ]}.
Proof.
  intros Hfuel. unfold Board.get_valid_moves.
  eapply valid_moves_of_refine; [by intros ???|exact Hfuel|].
  vm_compute. reflexivity.
Qed.

(** ** C2: promotion *)

(** C2, as stated, fails: a [WHITE] piece, which travels to row 7, taken to
    row 0 by [Board.move] becomes a king. *)
Lemma white_promoted_on_row_0 :
  ¬ (∀ h b id p row col h' b' p',
        h !! id = Some p → Board.move h b (Ref id) row col = Ok (h', b') →
        h' !! id = Some p' →
        Piece.king p' = Piece.king p || bool_decide (row = farthest_row (Piece.color p))).
Proof.
  intros Hclaim.
  specialize (Hclaim retreat_heap retreat_board 0%nat (Piece.__init__ 1 0 WHITE) 0 1).
  specialize (Hclaim _ _ _ eq_refl eq_refl eq_refl).
  vm_compute in Hclaim. discriminate Hclaim.
Qed.

(** C2 (amended): after [Board.move] the king flag of the piece is true if
    and only if it was already true or the destination row is 0 or 7, either
    edge row whatever the color of the piece; an existing king stays a king,
    and nothing else about the move (a capture or none) enters the check.
    For a piece that is not a king, a destination on an edge row offered by
    [get_valid_moves] is always on the farthest row for its color. *)
Theorem move_promotes_on_edge_rows :
  (∀ h b id p row col h' b',
      h !! id = Some p → Board.move h b (Ref id) row col = Ok (h', b') →
      ∃ p', h' !! id = Some p'
        ∧ Piece.king p' = Piece.king p || bool_decide (row = 0 ∨ row = ROWS - 1)
        ∧ Piece.color p' = Piece.color p
        ∧ Piece.row p' = row ∧ Piece.col p' = col)
  ∧ (∀ fuel h b id p m k v,
      h !! id = Some p → in_board (Piece.row p) (Piece.col p) →
      Piece.king p = false →
      Board.get_valid_moves fuel h b (Ref id) = Ok m → m !! k = Some v →
      k.1 = 0 ∨ k.1 = ROWS - 1 → k.1 = farthest_row (Piece.color p)).
Proof.
  split.
  - intros h b id p row col h' b' Hp Hmove.
    destruct (board_move_heap _ _ _ _ _ _ _ _ Hp Hmove) as (-> & _).
    exists (moved p row col). pose proof (lookup_lt_Some _ _ _ Hp) as Hlt.
    rewrite list_lookup_insert_eq by done.
    destruct (moved_fields p row col) as (Hr & Hc & Hcol & Hk).
    split_and!; try done. rewrite Hk. f_equal. unfold ROWS.
    case_bool_decide as Hd.
    + destruct Hd as [-> | ->]; done.
    + destruct (row =? 8 - 1) eqn:E1; [lia|]. destruct (row =? 0) eqn:E2; [lia|done].
  - intros fuel h b id p m k v Hp Hrc Hking Hm Hk Hedge.
    destruct (valid_moves_of_spec _ _ _ _ _ _ Hp Hrc Hm k v Hk) as (Hkb & _ & _ & Hdir & _).
    specialize (Hdir Hking). unfold in_board, ROWS, COLS, farthest_row in *.
    destruct (Piece.color p); unfold ROWS; lia.
Qed.

Lemma move_promotes_on_edge_rows_witness :
  (retreat_heap !! 0%nat = Some (Piece.__init__ 1 0 WHITE)
   ∧ Board.move retreat_heap retreat_board (Ref 0) 0 1
     = Ok (retreat_result.1, retreat_result.2)
   ∧ ∃ p', retreat_result.1 !! 0%nat = Some p'
       ∧ Piece.king p' = false || bool_decide (0 = 0 ∨ 0 = ROWS - 1)
       ∧ Piece.color p' = WHITE ∧ Piece.row p' = 0 ∧ Piece.col p' = 1)
  ∧ (arrival_heap !! 0%nat = Some (Piece.__init__ 1 2 RED)
     ∧ Board.get_valid_moves 8 arrival_heap arrival_board (Ref 0)
       = Ok {[ (0, 1) := []; (0, 3) := [] ]}
     ∧ 0 = farthest_row RED).
Proof.
  split.
  - split; [reflexivity|]. split; [vm_compute; reflexivity|].
    apply (proj1 move_promotes_on_edge_rows retreat_heap retreat_board 0%nat
             (Piece.__init__ 1 0 WHITE) 0 1 retreat_result.1 retreat_result.2);
      [reflexivity|vm_compute; reflexivity].
  - split; [reflexivity|]. split; [vm_compute; reflexivity|].
    apply (proj2 move_promotes_on_edge_rows 8%nat arrival_heap arrival_board 0%nat
             (Piece.__init__ 1 2 RED) {[ (0, 1) := []; (0, 3) := [] ]} (0, 1) []).
    + reflexivity.
    + unfold in_board, ROWS, COLS. simpl. lia.
    + reflexivity.
    + vm_compute. reflexivity.
    + vm_compute. reflexivity.
    + left. reflexivity.
Defined.

(** ** C3: removing a piece that is no longer on the board *)

(** C3: the code does not do what the claim says.  In a new game the [RED]
    piece at (5,0) is removed, which empties its square and leaves eleven
    [RED] pieces; removing the same, now absent, piece again raises nothing
    but counts it a second time: ten are left. *)
Theorem remove_absent_piece_counts_again :
  ∃ b1 b2,
    Board.remove initial.1 (Game.board initial.2) [Ref 12] = Ok b1
    ∧ Board.item (Board.board b1) 5 0 = Ok Zero
    ∧ Board.red_left b1 = 11
    ∧ Board.remove initial.1 b1 [Ref 12] = Ok b2
    ∧ Board.board b2 = Board.board b1
    ∧ Board.red_left b2 = 10.
Proof.
  eexists _, _. split; [vm_compute; reflexivity|].
  split; [vm_compute; reflexivity|]. split; [reflexivity|].
  split; [vm_compute; reflexivity|]. split; reflexivity.
Qed.

(** ** C4: a click on an offered square *)

(** C4, as stated, fails: after the first two clicks of a game, on the
    piece at (5,0) and on the square (4,1) offered to it, the move has been
    applied and the selection is still the piece that moved. *)
Lemma selection_survives_the_move :
  ¬ (∀ h g sel row col h1 g1 fuel h' g' ok,
        reachable h g → Game.selected g = Some sel →
        Game._move h g row col = Ok (h1, g1, true) →
        Game.select fuel h g row col = Ok (h', g', ok) →
        Game.selected g' = None ∧ Game.turn g' = other (Game.turn g)).
Proof.
  intros Hclaim.
  destruct (Hclaim first_click.1 first_click.2 (Ref 12) 4 1
              second_click.1 second_click.2 10%nat
              second_click.1 second_click.2 false) as [Hsel _].
  - apply reachable_first_click.
  - reflexivity.
  - vm_compute. reflexivity.
  - vm_compute. reflexivity.
  - discriminate Hsel.
Qed.

(** C4 (amended): when [select] is called with a piece selected and the move
    to (row, col) is applied, the call ends in the state the move produced:
    the offered moves are empty and the turn has passed to the other color,
    but [Game.selected] is not cleared, it still refers to the piece that
    moved.  That stale selection is inert: the next call of [select] does
    what it would do with no selection. *)
Theorem select_move_keeps_selection h g sel row col h1 g1 fuel :
  reachable h g → Game.selected g = Some sel →
  Game._move h g row col = Ok (h1, g1, true) →
  Game.select (S fuel) h g row col = Ok (h1, g1, false)
  ∧ Game.selected g1 = Some sel
  ∧ Game.valid_moves g1 = ∅
  ∧ Game.turn g1 = other (Game.turn g)
  ∧ ∀ n row' col', (10 ≤ n)%nat →
      Game.select n h1 g1 row' col' = Game.select n h1 (deselect g1) row' col'.
Proof.
  intros Hreach Hsel Hmove. apply reachable_inv in Hreach as HI.
  destruct (Game.valid_moves g !! (row, col)) as [skipped|] eqn:Hk;
    [|rewrite game_move_fail in Hmove by auto; discriminate Hmove].
  destruct (select_after_move h g sel row col skipped fuel HI Hsel Hk)
    as (h' & g' & Hmove' & Hrun & Hsel' & Hvm & Hturn & _).
  rewrite Hmove in Hmove'. injection Hmove' as <- <-.
  split_and!; try done.
  intros n row' col' Hn. apply (select_stale_selection h1 g1 sel); try done.
  by eapply inv_move.
Qed.

Lemma select_move_keeps_selection_witness :
  reachable first_click.1 first_click.2
  ∧ Game.selected first_click.2 = Some (Ref 12)
  ∧ Game._move first_click.1 first_click.2 4 1 = Ok (second_click.1, second_click.2, true)
  ∧ Game.select 10 first_click.1 first_click.2 4 1
    = Ok (second_click.1, second_click.2, false)
  ∧ Game.selected second_click.2 = Some (Ref 12).
Proof.
  assert (reachable first_click.1 first_click.2) as Hreach.
  { apply (reach_select 10 initial.1 initial.2 5 0 _ _ true).
    - apply reach_init. vm_compute. reflexivity.
    - vm_compute. reflexivity. }
  assert (Game._move first_click.1 first_click.2 4 1
          = Ok (second_click.1, second_click.2, true)) as Hmove.
  { vm_compute. reflexivity. }
  split; [exact Hreach|]. split; [reflexivity|]. split; [exact Hmove|].
  destruct (select_move_keeps_selection first_click.1 first_click.2 (Ref 12) 4 1
              second_click.1 second_click.2 9 Hreach eq_refl Hmove) as (H1 & H2 & _).
  split; [exact H1|exact H2].
Defined.

(** ** C5: a click that is not an offered square *)

(** C5: when [select] is called with a piece selected and (row, col) is not
    an offered destination, the move fails and changes nothing, and the
    square is looked at afresh in the same call: if it holds a piece of the
    side to move, that piece becomes the selection, the offered moves are
    those of [get_valid_moves] for it and the call answers [True]; if it is
    empty or holds a piece of the other side, the selection is dropped and
    the call answers [False]. *)
Theorem select_failed_move_reselects h g sel row col fuel :
  reachable h g → Game.selected g = Some sel →
  Game.valid_moves g !! (row, col) = None → (10 ≤ fuel)%nat →
  Game._move h g row col = Ok (h, g, false)
  ∧ (∀ id p,
       Board.get_piece (Game.board g) row col = Ok (Ref id) →
       h !! id = Some p → Piece.color p = Game.turn g →
       ∃ m, (∀ n, (8 ≤ n)%nat →
               Board.get_valid_moves n h (Game.board g) (Ref id) = Ok m)
         ∧ Game.select fuel h g row col
           = Ok (h, {| Game.selected := Some (Ref id); Game.board := Game.board g;
                       Game.turn := Game.turn g; Game.valid_moves := m |}, true))
  ∧ (∀ o,
       Board.get_piece (Game.board g) row col = Ok o →
       (o = Zero ∨ ∃ id p, o = Ref id ∧ h !! id = Some p ∧ Piece.color p ≠ Game.turn g) →
       Game.select fuel h g row col = Ok (h, deselect g, false)).
Proof.
  intros Hreach Hsel Hk Hfuel. apply reachable_inv in Hreach as HI.
  split; [by apply game_move_fail; right|]. split.
  - intros id p Hpiece Hp Hcol. by eapply select_reselect.
  - intros o Hpiece Ho. eapply select_deselect; try done. lia.
Qed.

Lemma select_failed_move_reselects_witness :
  reachable first_click.1 first_click.2
  ∧ Game.selected first_click.2 = Some (Ref 12)
  ∧ Game.valid_moves first_click.2 !! (5, 2) = None
  ∧ (10 ≤ 10)%nat
  ∧ Game._move first_click.1 first_click.2 5 2 = Ok (first_click.1, first_click.2, false)
  ∧ ∃ m, Game.select 10 first_click.1 first_click.2 5 2
         = Ok (first_click.1,
               {| Game.selected := Some (Ref 13); Game.board := Game.board first_click.2;
                  Game.turn := Game.turn first_click.2; Game.valid_moves := m |}, true).
Proof.
  assert (reachable first_click.1 first_click.2) as Hreach.
  { apply (reach_select 10 initial.1 initial.2 5 0 _ _ true).
    - apply reach_init. vm_compute. reflexivity.
    - vm_compute. reflexivity. }
  assert (Game.valid_moves first_click.2 !! (5, 2) = None) as Hk.
  { vm_compute. reflexivity. }
  assert (10 ≤ 10)%nat as Hfuel by lia.
  split; [exact Hreach|]. split; [reflexivity|]. split; [exact Hk|]. split; [exact Hfuel|].
  destruct (select_failed_move_reselects first_click.1 first_click.2 (Ref 12) 5 2 10
              Hreach eq_refl Hk Hfuel) as (Hmove & Hown & _).
  split; [exact Hmove|].
  destruct (Hown 13%nat (Piece.__init__ 5 2 RED)) as (m & _ & Hrun).
  - vm_compute. reflexivity.
  - reflexivity.
  - reflexivity.
  - exists m. exact Hrun.
Defined.

(** ** C6: [Game._move] *)

(** C6: in a state of a game [_move] succeeds exactly when a piece is
    selected and (row, col) is a key of the offered moves.  On failure
    nothing changes.  On success the selected piece stands on (row, col) and
    knows it, its old square is empty, every captured piece has left the
    grid and its color's count, the squares not involved are as before, the
    offered moves are empty and the turn has passed to the other color. *)
Theorem game_move_spec h g row col :
  reachable h g →
  ∃ h' g' ok,
    Game._move h g row col = Ok (h', g', ok)
    ∧ (ok = true ↔
       is_Some (Game.selected g) ∧ is_Some (Game.valid_moves g !! (row, col)))
    ∧ (ok = false → h' = h ∧ g' = g)
    ∧ (ok = true →
       ∃ id p skipped,
         Game.selected g = Some (Ref id) ∧ h !! id = Some p
         ∧ Game.valid_moves g !! (row, col) = Some skipped
         ∧ h' = <[id := moved p row col]> h
         ∧ Board.item (Board.board (Game.board g')) row col = Ok (Ref id)
         ∧ Board.item (Board.board (Game.board g')) (Piece.row p) (Piece.col p) = Ok Zero
         ∧ Forall (λ x, ∃ q pq, x = Ref q ∧ h !! q = Some pq
                     ∧ Board.item (Board.board (Game.board g))
                                  (Piece.row pq) (Piece.col pq) = Ok (Ref q)
                     ∧ Board.item (Board.board (Game.board g'))
                                  (Piece.row pq) (Piece.col pq) = Ok Zero) skipped
         ∧ (∀ r c, in_board r c → (r, c) ≠ (row, col) →
              (r, c) ≠ (Piece.row p, Piece.col p) →
              Forall (λ x, ∀ pq, deref h x = Ok pq →
                        (Piece.row pq, Piece.col pq) ≠ (r, c)) skipped →
              Board.item (Board.board (Game.board g')) r c
              = Board.item (Board.board (Game.board g)) r c)
         ∧ Board.red_left (Game.board g')
           = Board.red_left (Game.board g) - count_color h RED skipped
         ∧ Board.white_left (Game.board g')
           = Board.white_left (Game.board g) - count_color h WHITE skipped
         ∧ Game.valid_moves g' = ∅
         ∧ Game.turn g' = other (Game.turn g)
         ∧ Game.selected g' = Game.selected g).
Proof.
  intros Hreach. apply reachable_inv in Hreach as HI.
  destruct (Game.selected g) as [sel|] eqn:Hsel; cycle 1.
  { exists h, g, false. rewrite game_move_fail by auto.
    split_and!; try done. split; [done|]. by intros [[? [=]] _]. }
  destruct (Game.valid_moves g !! (row, col)) as [skipped|] eqn:Hk; cycle 1.
  { exists h, g, false. rewrite game_move_fail by auto.
    split_and!; try done. split; [done|]. by intros [_ [? [=]]]. }
  destruct (game_move_ok h g sel row col skipped HI Hsel Hk)
    as (id & p & b' & -> & Hp & Hcol & Hsrc & Hdst & Hdk & Hhere & Hthere & Hrun
        & Hs' & Hd' & Hz' & Hsk & Hor & Hsame & Hred & Hwhite).
  eexists _, _, true. split; [exact Hrun|]. split_and!; try done.
  intros _. exists id, p, skipped. simpl. split_and!; try done.
  eapply Forall_impl; [exact Hsk|]. intros x (q & pq & -> & _ & Hq & _ & _ & Hit & Hz).
  by exists q, pq.
Qed.

Lemma game_move_spec_witness :
  reachable first_click.1 first_click.2
  ∧ ∃ h' g' ok,
      Game._move first_click.1 first_click.2 4 1 = Ok (h', g', ok)
      ∧ (ok = true ↔
         is_Some (Game.selected first_click.2)
         ∧ is_Some (Game.valid_moves first_click.2 !! (4, 1))).
Proof.
  assert (reachable first_click.1 first_click.2) as Hreach.
  { apply (reach_select 10 initial.1 initial.2 5 0 _ _ true).
    - apply reach_init. vm_compute. reflexivity.
    - vm_compute. reflexivity. }
  split; [exact Hreach|].
  destruct (game_move_spec first_click.1 first_click.2 4 1 Hreach)
    as (h' & g' & ok & Hrun & Hiff & _).
  exists h', g', ok. split; [exact Hrun|exact Hiff].
Defined.

(** ** C7: the generator is total *)

(** C7: on a board of eight rows of eight squares whose pieces are objects
    of the store, for a piece with coordinates on the board,
    [get_valid_moves] returns a mapping: the recursion needs a depth of at
    most 8, the mapping is the same for every larger bound, nothing is
    raised, and the same mapping is returned when every index outside rows
    0..7 and columns 0..7 is refused, so no such index is used. *)
Theorem get_valid_moves_returns h b id p :
  valid_board h b → h !! id = Some p → in_board (Piece.row p) (Piece.col p) →
  ∃ m, ∀ fuel, (8 ≤ fuel)%nat →
    Board.get_valid_moves fuel h b (Ref id) = Ok m
    ∧ valid_moves_of (strict_item (Board.board b)) h fuel (Ref id) = Ok m.
Proof. apply get_valid_moves_total. Qed.

Lemma get_valid_moves_returns_witness :
  valid_board initial.1 (Game.board initial.2)
  ∧ initial.1 !! 0%nat = Some (Piece.__init__ 0 1 WHITE)
  ∧ in_board 0 1
  ∧ ∃ m, ∀ fuel, (8 ≤ fuel)%nat →
      Board.get_valid_moves fuel initial.1 (Game.board initial.2) (Ref 0) = Ok m
      ∧ valid_moves_of (strict_item (Board.board (Game.board initial.2))) initial.1
                       fuel (Ref 0) = Ok m.
Proof.
  assert (valid_board initial.1 (Game.board initial.2)) as Hv.
  { split.
    - split; [reflexivity|]. simpl. repeat constructor.
    - intros r c id Hrc Hitem. each_square r c Hrc; vm_compute in Hitem;
        try discriminate Hitem; injection Hitem as <-; eexists; reflexivity. }
  assert (in_board 0 1) as Hrc by (unfold in_board, ROWS, COLS; lia).
  split; [exact Hv|]. split; [reflexivity|]. split; [exact Hrc|].
  exact (get_valid_moves_returns initial.1 (Game.board initial.2) 0%nat
           (Piece.__init__ 0 1 WHITE) Hv eq_refl Hrc).
Defined.

(** A piece with no move gets the empty mapping: in a new game the piece at
    (0,1) is hemmed in by the pieces at (1,0) and (1,2). *)
Example hemmed_in_piece_has_no_moves :
  Board.get_valid_moves 8 initial.1 (Game.board initial.2) (Ref 0) = Ok ∅.
Proof. vm_compute. reflexivity. Qed.

(** ** C8: dark squares *)

(** C8: [Board.__init__] puts pieces on squares with (row + col) odd only;
    for a piece on such a square of the board every destination returned by
    [get_valid_moves] has (row + col) odd; and in every state of a game all
    pieces of the grid stand on squares with (row + col) odd. *)
Theorem dark_squares_only :
  (∀ h0, ∃ h b, Board.__init__ h0 = Ok (h, b) ∧ all_dark (Board.board b))
  ∧ (∀ fuel h b id p m k v,
      h !! id = Some p → in_board (Piece.row p) (Piece.col p) →
      dark (Piece.row p) (Piece.col p) →
      Board.get_valid_moves fuel h b (Ref id) = Ok m → m !! k = Some v →
      dark k.1 k.2)
  ∧ (∀ h g, reachable h g → all_dark (Board.board (Game.board g))).
Proof.
  split_and!.
  - intros h0. destruct (create_board_dark h0) as (h & b & Hinit & _ & Hdark & _). eauto.
  - intros fuel h b id p m k v Hp Hrc Hdk Hm Hk.
    destruct (valid_moves_of_spec _ _ _ _ _ _ Hp Hrc Hm k v Hk) as (_ & _ & Hpar & _).
    unfold dark in *. congruence.
  - intros h g Hreach. by destruct (reachable_inv h g Hreach).
Qed.

Lemma dark_squares_only_witness :
  (first_click.1 !! 12%nat = Some (Piece.__init__ 5 0 RED)
   ∧ in_board 5 0 ∧ dark 5 0
   ∧ Board.get_valid_moves 8 first_click.1 (Game.board first_click.2) (Ref 12)
     = Ok {[ (4, 1) := [] ]}
   ∧ dark 4 1)
  ∧ (reachable second_click.1 second_click.2
     ∧ all_dark (Board.board (Game.board second_click.2))).
Proof.
  split.
  - split; [reflexivity|]. split; [unfold in_board, ROWS, COLS; lia|].
    split; [reflexivity|]. split; [vm_compute; reflexivity|].
    apply (proj1 (proj2 dark_squares_only) 8%nat first_click.1 (Game.board first_click.2)
             12%nat (Piece.__init__ 5 0 RED) {[ (4, 1) := [] ]} (4, 1) []).
    + reflexivity.
    + unfold in_board, ROWS, COLS. simpl. lia.
    + reflexivity.
    + vm_compute. reflexivity.
    + vm_compute. reflexivity.
  - assert (reachable second_click.1 second_click.2) as Hreach.
    { apply (reach_select 10 first_click.1 first_click.2 4 1 _ _ false).
      - apply (reach_select 10 initial.1 initial.2 5 0 _ _ true).
        + apply reach_init. vm_compute. reflexivity.
        + vm_compute. reflexivity.
      - vm_compute. reflexivity. }
    split; [exact Hreach|].
    exact (proj2 (proj2 dark_squares_only) second_click.1 second_click.2 Hreach).
Defined.

(** ** C9: the winner *)

(** C9: [Board.winner] looks at [red_left] first: when it is zero or below
    the winner is [WHITE], whatever [white_left] is; the winner is [RED]
    exactly when [white_left] is zero or below and [red_left] is positive;
    there is no winner exactly when both are positive.  The tests are
    [<= 0]: a count below zero ends the game too. *)
Theorem winner_checks_red_first b :
  (Board.red_left b ≤ 0 → Board.winner b = Some WHITE)
  ∧ (Board.winner b = Some WHITE ↔ Board.red_left b ≤ 0)
  ∧ (Board.winner b = Some RED ↔ Board.white_left b ≤ 0 ∧ 0 < Board.red_left b)
  ∧ (Board.winner b = None ↔ 0 < Board.red_left b ∧ 0 < Board.white_left b).
Proof.
  unfold Board.winner.
  destruct (Z.leb_spec (Board.red_left b) 0) as [Hr|Hr];
    destruct (Z.leb_spec (Board.white_left b) 0) as [Hw|Hw];
    split_and!; try split; intros; try done; lia.
Qed.

Lemma winner_checks_red_first_witness :
  let b := {| Board.board := []; Board.red_left := -1; Board.white_left := 0;
              Board.red_kings := 0; Board.white_kings := 0 |} in
  Board.red_left b ≤ 0 ∧ Board.winner b = Some WHITE.
Proof.
  intros b. assert (Board.red_left b ≤ 0) as Hred by (simpl; lia).
  split; [exact Hred|]. exact (proj1 (winner_checks_red_first b) Hred).
Defined.

(** ** C10: what [select] answers when it has applied a move *)

(** C10: in a state of a game, when [select] is called with a piece selected
    and (row, col) is a key of the offered moves, the move is applied and
    the call answers [False]: the turn has passed to the other color, the
    square (row, col) now holds the piece that moved, and that piece is not
    of the color to move. *)
Theorem select_answers_false_after_move h g sel row col fuel :
  reachable h g → Game.selected g = Some sel →
  is_Some (Game.valid_moves g !! (row, col)) →
  ∃ h' g',
    Game._move h g row col = Ok (h', g', true)
    ∧ Game.select (S fuel) h g row col = Ok (h', g', false)
    ∧ Game.turn g' = other (Game.turn g)
    ∧ Board.get_piece (Game.board g') row col = Ok sel
    ∧ ∃ p, deref h' sel = Ok p ∧ Piece.color p ≠ Game.turn g'.
Proof.
  intros Hreach Hsel [skipped Hk]. apply reachable_inv in Hreach as HI.
  destruct (select_after_move h g sel row col skipped fuel HI Hsel Hk)
    as (h' & g' & Hmove & Hrun & _ & _ & Hturn & Hpiece & p & Hp & Hcol).
  exists h', g'. split_and!; try done. exists p. split; [done|].
  rewrite Hturn, Hcol. by destruct (Game.turn g).
Qed.

Lemma select_answers_false_after_move_witness :
  reachable first_click.1 first_click.2
  ∧ Game.selected first_click.2 = Some (Ref 12)
  ∧ is_Some (Game.valid_moves first_click.2 !! (4, 1))
  ∧ ∃ h' g', Game.select 10 first_click.1 first_click.2 4 1 = Ok (h', g', false).
Proof.
  assert (reachable first_click.1 first_click.2) as Hreach.
  { apply (reach_select 10 initial.1 initial.2 5 0 _ _ true).
    - apply reach_init. vm_compute. reflexivity.
    - vm_compute. reflexivity. }
  assert (is_Some (Game.valid_moves first_click.2 !! (4, 1))) as Hk.
  { exists []. vm_compute. reflexivity. }
  split; [exact Hreach|]. split; [reflexivity|]. split; [exact Hk|].
  destruct (select_answers_false_after_move first_click.1 first_click.2 (Ref 12) 4 1 9
              Hreach eq_refl Hk) as (h' & g' & _ & Hrun & _).
  exists h', g'. exact Hrun.
Defined.

(** * Further properties *)

(** ** The shape of the mappings of the generator *)

Lemma length_range_from n start step : length (range_from n start step) = n.
Proof. revert start. induction n as [|n IH]; intros start; simpl; [done|]. by rewrite IH. Qed.

Lemma range_short start stop step :
  call_short start stop step →
  ∃ n, range start stop step = Ok (range_from n start step)
       ∧ rows_ok step n start ∧ (n ≤ 2)%nat.
Proof.
  intros [Hc Hlen]. destruct (range_rows_ok _ _ _ Hc) as (n & Hr & Hrows).
  exists n. split_and!; try done.
  unfold range in Hr. destruct Hc as [(-> & ? & ?)|(-> & ? & ?)]; simpl in Hr;
    injection Hr as Hr.
  - assert (n = range_len start stop 1) as ->.
    { apply (f_equal length) in Hr. by rewrite !length_range_from in Hr. }
    unfold range_len. simpl. rewrite Z.div_1_r. lia.
  - assert (n = range_len start stop (-1)) as ->.
    { apply (f_equal length) in Hr. by rewrite !length_range_from in Hr. }
    unfold range_len. simpl. rewrite Z.div_1_r. lia.
Qed.

Section TraverseGeom.
Variable lookup : Z → Z → res obj.
Variable h : Heap.
Variable color : Color.

Section Loops.
Variables rec_left rec_right : Z → Z → Z → Color → Z → list obj → res Moves.
Variable step : Z.
Hypothesis Hstep : step = 1 ∨ step = -1.
Hypothesis Hrec_left : ∀ (start stop left : Z) (sk : list obj) (m : Moves),
  call_short start stop step → left ≤ COLS - 1 →
  rec_left start stop step color left sk = Ok m →
  map_Forall (entry_geom lookup step (-1) start left sk) m.
Hypothesis Hrec_right : ∀ (start stop right : Z) (sk : list obj) (m : Moves),
  call_short start stop step → 0 ≤ right →
  rec_right start stop step color right sk = Ok m →
  map_Forall (entry_geom lookup step 1 start right sk) m.

(** The entries of a traversal started from the landing square of a jump
    over [x], seen from the traversal that made the jump. *)
Lemma entry_geom_nested d d' start c0 (skipped : list obj) x k v :
  (d = 1 ∨ d = -1) → (d' = 1 ∨ d' = -1) → read_sq lookup start c0 x →
  entry_geom lookup step d' (start + step + step) (c0 + d + d') [x] k v →
  entry_geom lookup step d start c0 skipped k v.
Proof.
  intros Hd Hd' Hx [(_ & [=] & _)|[(x' & -> & -> & Hx')|
    (x' & y & d'' & e & -> & Hd'' & He & Hx' & Hy & Hfar)]]; right; right.
  - exists x', x, d', d. simpl. split_and!; try done.
    + replace (start + step + step + step - step) with (start + step + step) by lia.
      by replace (c0 + d + d' + d' - d') with (c0 + d + d') by lia.
    + replace (start + step + step + step - 3 * step) with start by lia.
      by replace (c0 + d + d' + d' - 2 * d' - d) with c0 by lia.
    + destruct Hstep; subst; lia.
  - exists x', y, d'', e. split_and!; try done. destruct Hstep; subst; lia.
Qed.

Lemma on_empty_first (d start c0 : Z) (skipped : list obj) (m : Moves) :
  on_empty rec_left rec_right step color skipped start c0 [] ∅ = Ok m →
  map_Forall (entry_geom lookup step d start c0 skipped) m.
Proof.
  unfold on_empty. destruct skipped as [|y sk]; simpl.
  - intros [= <-]. apply map_Forall_insert_2; [|apply map_Forall_empty]. by left.
  - intros [= <-]. apply map_Forall_empty.
Qed.

Lemma on_empty_second (d start c0 : Z) (skipped : list obj) (x : obj) (m : Moves) :
  (d = 1 ∨ d = -1) →
  in_board (start + step) (c0 + d) → read_sq lookup start c0 x →
  on_empty rec_left rec_right step color skipped (start + step) (c0 + d) [x] ∅ = Ok m →
  map_Forall (entry_geom lookup step d start c0 skipped) m.
Proof.
  intros Hd [Hr Hc] Hx. unfold on_empty.
  replace (truthy skipped && negb (truthy [x])) with false
    by (by destruct skipped).
  set (moves1 := if truthy skipped then _ else _).
  assert (map_Forall (entry_geom lookup step d start c0 skipped) moves1) as Hm1.
  { subst moves1. destruct skipped; simpl;
      (apply map_Forall_insert_2; [|apply map_Forall_empty]); right; left;
      by exists x. }
  clearbody moves1. cbn [truthy].
  intros (m1 & H1 & H')%bind_Ok. apply bind_Ok in H' as (m2 & H2 & [= <-]).
  assert (call_short (start + step + step)
            (if step =? -1 then Z.max (start + step - 3) (-1)
             else Z.min (start + step + 3) ROWS) step) as Hcall.
  { unfold call_short, call_ok, ROWS in *.
    destruct Hstep; subst; simpl; (split; [|lia]); [left|right]; lia. }
  unfold COLS in *.
  apply Hrec_left in H1; [|done|unfold COLS; lia].
  apply Hrec_right in H2; [|done|lia].
  apply update_Forall; [apply update_Forall; [done|]|].
  - intros k v Hk. apply (entry_geom_nested d (-1) start c0 skipped x); try done; [by right|].
    replace (c0 + d + -1) with (c0 + d - 1) by lia. by apply H1.
  - intros k v Hk. apply (entry_geom_nested d 1 start c0 skipped x); try done; [by left|].
    by apply H2.
Qed.

Lemma left_loop_geom (skipped : list obj) (start c0 : Z) (n : nat) (m : Moves) :
  rows_ok step n start → (n ≤ 2)%nat → c0 ≤ COLS - 1 →
  left_loop lookup h rec_left rec_right step color skipped
            (range_from n start step) c0 [] ∅ = Ok m →
  map_Forall (entry_geom lookup step (-1) start c0 skipped) m.
Proof.
  intros Hrows Hn Hc0.
  destruct n as [|n]; simpl; [intros [= <-]; apply map_Forall_empty|].
  destruct (c0 <? 0) eqn:Hl; [intros [= <-]; apply map_Forall_empty|].
  assert (in_board start c0) as Hb.
  { unfold in_board, rows_ok, ROWS, COLS in *. destruct Hstep; subst; lia. }
  intros (current & Hcur & H')%bind_Ok.
  case_bool_decide as Hz; [by apply (on_empty_first (-1)) in H'|].
  apply bind_Ok in H' as (p & Hp & H').
  destruct (color_eqb (Piece.color p) color); [injection H' as <-; apply map_Forall_empty|].
  assert (read_sq lookup start c0 current) as Hx.
  { destruct current as [|id]; [done|]. by exists id. }
  destruct n as [|n]; simpl in H'; [injection H' as <-; apply map_Forall_empty|].
  destruct (c0 - 1 <? 0) eqn:Hl'; [injection H' as <-; apply map_Forall_empty|].
  assert (in_board (start + step) (c0 + -1)) as Hb'.
  { unfold in_board, rows_ok, ROWS, COLS in *. destruct Hstep; subst; lia. }
  apply bind_Ok in H' as (current' & Hcur' & H').
  case_bool_decide as Hz'.
  { replace (c0 - 1) with (c0 + -1) in H' by lia.
    apply on_empty_second in H'; [done|by right|done|done]. }
  apply bind_Ok in H' as (p' & Hp' & H').
  destruct (color_eqb (Piece.color p') color); [injection H' as <-; apply map_Forall_empty|].
  destruct n as [|n]; [|lia]. simpl in H'. injection H' as <-. apply map_Forall_empty.
Qed.

Lemma right_loop_geom (skipped : list obj) (start c0 : Z) (n : nat) (m : Moves) :
  rows_ok step n start → (n ≤ 2)%nat → 0 ≤ c0 →
  right_loop lookup h rec_left rec_right step color skipped
             (range_from n start step) c0 [] ∅ = Ok m →
  map_Forall (entry_geom lookup step 1 start c0 skipped) m.
Proof.
  intros Hrows Hn Hc0.
  destruct n as [|n]; simpl; [intros [= <-]; apply map_Forall_empty|].
  destruct (COLS <=? c0) eqn:Hl; [intros [= <-]; apply map_Forall_empty|].
  assert (in_board start c0) as Hb.
  { unfold in_board, rows_ok, ROWS, COLS in *. destruct Hstep; subst; lia. }
  intros (current & Hcur & H')%bind_Ok.
  case_bool_decide as Hz; [by apply (on_empty_first 1) in H'|].
  apply bind_Ok in H' as (p & Hp & H').
  destruct (color_eqb (Piece.color p) color); [injection H' as <-; apply map_Forall_empty|].
  assert (read_sq lookup start c0 current) as Hx.
  { destruct current as [|id]; [done|]. by exists id. }
  destruct n as [|n]; simpl in H'; [injection H' as <-; apply map_Forall_empty|].
  destruct (COLS <=? c0 + 1) eqn:Hl'; [injection H' as <-; apply map_Forall_empty|].
  assert (in_board (start + step) (c0 + 1)) as Hb'.
  { unfold in_board, rows_ok, ROWS, COLS in *. destruct Hstep; subst; lia. }
  apply bind_Ok in H' as (current' & Hcur' & H').
  case_bool_decide as Hz'.
  { apply on_empty_second in H'; [done|by left|done|done]. }
  apply bind_Ok in H' as (p' & Hp' & H').
  destruct (color_eqb (Piece.color p') color); [injection H' as <-; apply map_Forall_empty|].
  destruct n as [|n]; [|lia]. simpl in H'. injection H' as <-. apply map_Forall_empty.
Qed.
End Loops.

Lemma traverse_geom fuel :
  (∀ (start stop step left : Z) (sk : list obj) (m : Moves),
      call_short start stop step → left ≤ COLS - 1 →
      traverse_left lookup h fuel start stop step color left sk = Ok m →
      map_Forall (entry_geom lookup step (-1) start left sk) m)
  ∧ (∀ (start stop step right : Z) (sk : list obj) (m : Moves),
      call_short start stop step → 0 ≤ right →
      traverse_right lookup h fuel start stop step color right sk = Ok m →
      map_Forall (entry_geom lookup step 1 start right sk) m).
Proof.
  induction fuel as [|fuel [IHl IHr]]; [by split|].
  split; intros start stop step c sk m Hcall Hc; simpl;
    destruct (range_short _ _ _ Hcall) as (n & -> & Hrows & Hn); simpl; intros Hrun.
  - eapply (left_loop_geom (traverse_left lookup h fuel) (traverse_right lookup h fuel));
      [| | | | | |exact Hrun]; try done.
    + destruct Hcall as [[(->&_)|(->&_)] _]; auto.
    + intros. by eapply IHl.
    + intros. by eapply IHr.
  - eapply (right_loop_geom (traverse_left lookup h fuel) (traverse_right lookup h fuel));
      [| | | | | |exact Hrun]; try done.
    + destruct Hcall as [[(->&_)|(->&_)] _]; auto.
    + intros. by eapply IHl.
    + intros. by eapply IHr.
Qed.
End TraverseGeom.

(** X1: every destination returned by [get_valid_moves] for a piece of the
    board is a square of the board, and the grid holds nothing there. *)
Theorem destinations_are_empty_squares fuel h b id p m k v :
  h !! id = Some p → in_board (Piece.row p) (Piece.col p) →
  Board.get_valid_moves fuel h b (Ref id) = Ok m → m !! k = Some v →
  in_board k.1 k.2 ∧ Board.item (Board.board b) k.1 k.2 = Ok Zero.
Proof.
  intros Hp Hrc Hm Hk.
  by destruct (valid_moves_of_spec _ _ _ _ _ _ Hp Hrc Hm k v Hk) as (? & ? & _).
Qed.

Lemma destinations_are_empty_squares_witness :
  double_jump_heap !! 0%nat = Some (Piece.__init__ 2 1 WHITE)
  ∧ in_board 2 1
  ∧ Board.get_valid_moves 8 double_jump_heap double_jump_board (Ref 0)
    = Ok {[ (3, 0) := []; (4, 3) := [Ref 1]; (6, 5) := [Ref 2; Ref 1] ]}
  ∧ in_board 6 5
  ∧ Board.item (Board.board double_jump_board) 6 5 = Ok Zero.
Proof.
  assert (in_board 2 1) as Hrc by (unfold in_board, ROWS, COLS; lia).
  assert (Board.get_valid_moves 8 double_jump_heap double_jump_board (Ref 0)
          = Ok {[ (3, 0) := []; (4, 3) := [Ref 1]; (6, 5) := [Ref 2; Ref 1] ]}) as Hm.
  { vm_compute. reflexivity. }
  split; [reflexivity|]. split; [exact Hrc|]. split; [exact Hm|].
  apply (destinations_are_empty_squares 8 double_jump_heap double_jump_board 0%nat
           (Piece.__init__ 2 1 WHITE) _ (6, 5) [Ref 2; Ref 1] eq_refl Hrc Hm).
  vm_compute. reflexivity.
Defined.

(** X2: every element of a capture list returned by [get_valid_moves] is a
    piece of the other color that the grid holds on a square of the board:
    never the integer [0], never a piece of the mover's own color. *)
Theorem captures_are_enemy_pieces fuel h b id p m k v :
  h !! id = Some p → in_board (Piece.row p) (Piece.col p) →
  Board.get_valid_moves fuel h b (Ref id) = Ok m → m !! k = Some v →
  Forall (λ x, ∃ q r c pq, x = Ref q ∧ in_board r c
                 ∧ Board.item (Board.board b) r c = Ok (Ref q)
                 ∧ h !! q = Some pq ∧ Piece.color pq = other (Piece.color p)) v.
Proof.
  intros Hp Hrc Hm Hk.
  destruct (valid_moves_of_spec _ _ _ _ _ _ Hp Hrc Hm k v Hk) as (_ & _ & _ & _ & Hcap).
  eapply Forall_impl; [exact Hcap|].
  intros x (q & r & c & pq & -> & Hb & Hit & Hq & Hne).
  exists q, r, c, pq. split_and!; try done.
  destruct (Piece.color pq), (Piece.color p); done.
Qed.

Lemma captures_are_enemy_pieces_witness :
  double_jump_heap !! 0%nat = Some (Piece.__init__ 2 1 WHITE)
  ∧ in_board 2 1
  ∧ Board.get_valid_moves 8 double_jump_heap double_jump_board (Ref 0)
    = Ok {[ (3, 0) := []; (4, 3) := [Ref 1]; (6, 5) := [Ref 2; Ref 1] ]}
  ∧ Forall (λ x, ∃ q r c pq, x = Ref q ∧ in_board r c
                   ∧ Board.item (Board.board double_jump_board) r c = Ok (Ref q)
                   ∧ double_jump_heap !! q = Some pq ∧ Piece.color pq = other WHITE)
           [Ref 2; Ref 1].
Proof.
  assert (in_board 2 1) as Hrc by (unfold in_board, ROWS, COLS; lia).
  assert (Board.get_valid_moves 8 double_jump_heap double_jump_board (Ref 0)
          = Ok {[ (3, 0) := []; (4, 3) := [Ref 1]; (6, 5) := [Ref 2; Ref 1] ]}) as Hm.
  { vm_compute. reflexivity. }
  split; [reflexivity|]. split; [exact Hrc|]. split; [exact Hm|].
  apply (captures_are_enemy_pieces 8 double_jump_heap double_jump_board 0%nat
           (Piece.__init__ 2 1 WHITE) _ (6, 5) [Ref 2; Ref 1] eq_refl Hrc Hm).
  vm_compute. reflexivity.
Defined.

(** X3: a piece that is not a king is only offered rows ahead of it: rows
    below its own for [WHITE], rows above its own for [RED]. *)
Theorem men_move_forward_only fuel h b id p m k v :
  h !! id = Some p → in_board (Piece.row p) (Piece.col p) →
  Piece.king p = false →
  Board.get_valid_moves fuel h b (Ref id) = Ok m → m !! k = Some v →
  match Piece.color p with
  | WHITE => Piece.row p < k.1
  | RED => k.1 < Piece.row p
  end.
Proof.
  intros Hp Hrc Hking Hm Hk.
  destruct (valid_moves_of_spec _ _ _ _ _ _ Hp Hrc Hm k v Hk) as (_ & _ & _ & Hdir & _).
  by apply Hdir.
Qed.

Lemma men_move_forward_only_witness :
  first_click.1 !! 12%nat = Some (Piece.__init__ 5 0 RED)
  ∧ in_board 5 0
  ∧ Piece.king (Piece.__init__ 5 0 RED) = false
  ∧ Board.get_valid_moves 8 first_click.1 (Game.board first_click.2) (Ref 12)
    = Ok {[ (4, 1) := [] ]}
  ∧ 4 < 5.
Proof.
  assert (in_board 5 0) as Hrc by (unfold in_board, ROWS, COLS; lia).
  assert (Board.get_valid_moves 8 first_click.1 (Game.board first_click.2) (Ref 12)
          = Ok {[ (4, 1) := [] ]}) as Hm.
  { vm_compute. reflexivity. }
  split; [reflexivity|]. split; [exact Hrc|]. split; [reflexivity|]. split; [exact Hm|].
  apply (men_move_forward_only 8 first_click.1 (Game.board first_click.2) 12%nat
           (Piece.__init__ 5 0 RED) _ (4, 1) [] eq_refl Hrc eq_refl Hm).
  vm_compute. reflexivity.
Defined.

(** The entries of [get_valid_moves], by the diagonal they start on. *)
Lemma valid_moves_of_geom (lookup : Z → Z → res obj) (h : Heap) (fuel id : nat)
    (p : Piece.t) (m : Moves) :
  h !! id = Some p → in_board (Piece.row p) (Piece.col p) →
  valid_moves_of lookup h fuel (Ref id) = Ok m →
  map_Forall (λ k v, ∃ s d, (s = 1 ∨ s = -1) ∧ (d = 1 ∨ d = -1)
                ∧ entry_geom lookup s d (Piece.row p + s) (Piece.col p + d) [] k v) m.
Proof.
  intros Hp [Hr Hc]. unfold valid_moves_of. simpl. rewrite Hp. simpl.
  destruct (traverse_geom lookup h (Piece.color p) fuel) as [Hl Hr'].
  unfold ROWS, COLS in Hr, Hc.
  assert (call_short (Piece.row p - 1) (Z.max (Piece.row p - 3) (-1)) (-1)) as Hup.
  { split; [right; unfold ROWS|]; lia. }
  assert (call_short (Piece.row p + 1) (Z.min (Piece.row p + 3) ROWS) 1) as Hdown.
  { split; [left|]; unfold ROWS; lia. }
  set (P := λ (k : Z * Z) (v : list obj), ∃ s d, (s = 1 ∨ s = -1) ∧ (d = 1 ∨ d = -1)
                ∧ entry_geom lookup s d (Piece.row p + s) (Piece.col p + d) [] k v).
  assert (∀ (s d : Z) (m' : Moves), (s = 1 ∨ s = -1) → (d = 1 ∨ d = -1) →
            map_Forall (entry_geom lookup s d (Piece.row p + s) (Piece.col p + d) []) m' →
            map_Forall P m') as Hconv.
  { intros s d m' Hs Hd Hm k v Hk. exists s, d. split_and!; try done. by apply Hm. }
  intros (m0 & H0 & H')%bind_Ok.
  assert (map_Forall P m0) as Hm0.
  { destruct (color_eqb (Piece.color p) RED || Piece.king p).
    - apply bind_Ok in H0 as (m1 & H1 & H0). apply bind_Ok in H0 as (m2 & H2 & [= <-]).
      apply Hl in H1; [|done|unfold COLS; lia]. apply Hr' in H2; [|done|lia].
      apply update_Forall; [apply update_Forall; [apply map_Forall_empty|]|].
      + by apply (Hconv (-1) (-1)); [right|right|].
      + by apply (Hconv (-1) 1); [right|left|].
    - injection H0 as <-. apply map_Forall_empty. }
  destruct (color_eqb (Piece.color p) WHITE || Piece.king p).
  - apply bind_Ok in H' as (m1 & H1 & H'). apply bind_Ok in H' as (m2 & H2 & [= <-]).
    apply Hl in H1; [|done|unfold COLS; lia]. apply Hr' in H2; [|done|lia].
    apply update_Forall; [apply update_Forall; [done|]|].
    + by apply (Hconv 1 (-1)); [left|right|].
    + by apply (Hconv 1 1); [left|left|].
  - by injection H' as <-.
Qed.

(** X4: a capture list returned by [get_valid_moves] never holds more than
    two pieces, however long the chain of jumps that reaches the
    destination, and when it holds two they were read from squares two rows
    apart. *)
Theorem capture_lists_hold_two_at_most fuel h b id p m k v :
  h !! id = Some p → in_board (Piece.row p) (Piece.col p) →
  Board.get_valid_moves fuel h b (Ref id) = Ok m → m !! k = Some v →
  (length v ≤ 2)%nat
  ∧ ∀ x y, v = [x; y] →
      ∃ rx cx ry cy, read_sq (Board.item (Board.board b)) rx cx x
        ∧ read_sq (Board.item (Board.board b)) ry cy y
        ∧ (rx - ry = 2 ∨ ry - rx = 2).
Proof.
  intros Hp Hrc Hm Hk.
  destruct (valid_moves_of_geom _ _ _ _ _ _ Hp Hrc Hm k v Hk)
    as (s & d & Hs & Hd & [(-> & _)|[(x & -> & _)|
          (x & y & d' & e & -> & _ & _ & Hx & Hy & _)]]).
  - split; [simpl; lia|]. by intros.
  - split; [simpl; lia|]. by intros.
  - split; [simpl; lia|]. intros x' y' [= <- <-].
    eexists _, _, _, _. split; [exact Hx|]. split; [exact Hy|].
    destruct Hs; subst; lia.
Qed.

Lemma capture_lists_hold_two_at_most_witness :
  double_jump_heap !! 0%nat = Some (Piece.__init__ 2 1 WHITE)
  ∧ in_board 2 1
  ∧ Board.get_valid_moves 8 double_jump_heap double_jump_board (Ref 0)
    = Ok {[ (3, 0) := []; (4, 3) := [Ref 1]; (6, 5) := [Ref 2; Ref 1] ]}
  ∧ (length [Ref 2; Ref 1] ≤ 2)%nat.
Proof.
  assert (in_board 2 1) as Hrc by (unfold in_board, ROWS, COLS; lia).
  assert (Board.get_valid_moves 8 double_jump_heap double_jump_board (Ref 0)
          = Ok {[ (3, 0) := []; (4, 3) := [Ref 1]; (6, 5) := [Ref 2; Ref 1] ]}) as Hm.
  { vm_compute. reflexivity. }
  split; [reflexivity|]. split; [exact Hrc|]. split; [exact Hm|].
  apply (capture_lists_hold_two_at_most 8 double_jump_heap double_jump_board 0%nat
           (Piece.__init__ 2 1 WHITE) _ (6, 5) [Ref 2; Ref 1] eq_refl Hrc Hm).
  vm_compute. reflexivity.
Defined.

(** X5: the geometry of the destinations.  A destination with no capture is
    a diagonal neighbour of the piece; a destination with one capture is
    two squares away along a diagonal and the captured piece stands on the
    square in between; a destination with two captures is at least four
    rows away, its first capture stands diagonally next to it on the side it
    is reached from, and its second capture three rows from it. *)
Theorem destinations_by_capture_count fuel h b id p m k v :
  h !! id = Some p → in_board (Piece.row p) (Piece.col p) →
  Board.get_valid_moves fuel h b (Ref id) = Ok m → m !! k = Some v →
  ∃ s d, (s = 1 ∨ s = -1) ∧ (d = 1 ∨ d = -1)
    ∧ ((v = [] ∧ k = (Piece.row p + s, Piece.col p + d))
       ∨ (∃ x, v = [x] ∧ k = (Piece.row p + 2 * s, Piece.col p + 2 * d)
            ∧ read_sq (Board.item (Board.board b)) (Piece.row p + s) (Piece.col p + d) x)
       ∨ (∃ x y d' e, v = [x; y] ∧ (d' = 1 ∨ d' = -1) ∧ (e = 1 ∨ e = -1)
            ∧ read_sq (Board.item (Board.board b)) (k.1 - s) (k.2 - d') x
            ∧ read_sq (Board.item (Board.board b)) (k.1 - 3 * s) (k.2 - 2 * d' - e) y
            ∧ 4 ≤ s * (k.1 - Piece.row p))).
Proof.
  intros Hp Hrc Hm Hk.
  destruct (valid_moves_of_geom _ _ _ _ _ _ Hp Hrc Hm k v Hk)
    as (s & d & Hs & Hd & [(-> & _ & ->)|[(x & -> & -> & Hx)|
          (x & y & d' & e & -> & Hd' & He & Hx & Hy & Hfar)]]);
    exists s, d; split_and!; try done.
  - by left.
  - right; left. exists x. split_and!; try done. f_equal; lia.
  - right; right. exists x, y, d', e. split_and!; try done. destruct Hs; subst; lia.
Qed.

Lemma destinations_by_capture_count_witness :
  double_jump_heap !! 0%nat = Some (Piece.__init__ 2 1 WHITE)
  ∧ in_board 2 1
  ∧ Board.get_valid_moves 8 double_jump_heap double_jump_board (Ref 0)
    = Ok {[ (3, 0) := []; (4, 3) := [Ref 1]; (6, 5) := [Ref 2; Ref 1] ]}
  ∧ ∃ s d, (s = 1 ∨ s = -1) ∧ (d = 1 ∨ d = -1)
      ∧ (([Ref 1] = [] ∧ (4, 3) = (2 + s, 1 + d))
         ∨ (∃ x, [Ref 1] = [x] ∧ (4, 3) = (2 + 2 * s, 1 + 2 * d)
              ∧ read_sq (Board.item (Board.board double_jump_board)) (2 + s) (1 + d) x)
         ∨ (∃ x y d' e, [Ref 1] = [x; y] ∧ (d' = 1 ∨ d' = -1) ∧ (e = 1 ∨ e = -1)
              ∧ read_sq (Board.item (Board.board double_jump_board)) (4 - s) (3 - d') x
              ∧ read_sq (Board.item (Board.board double_jump_board))
                        (4 - 3 * s) (3 - 2 * d' - e) y
              ∧ 4 ≤ s * (4 - 2))).
Proof.
  assert (in_board 2 1) as Hrc by (unfold in_board, ROWS, COLS; lia).
  assert (Board.get_valid_moves 8 double_jump_heap double_jump_board (Ref 0)
          = Ok {[ (3, 0) := []; (4, 3) := [Ref 1]; (6, 5) := [Ref 2; Ref 1] ]}) as Hm.
  { vm_compute. reflexivity. }
  split; [reflexivity|]. split; [exact Hrc|]. split; [exact Hm|].
  apply (destinations_by_capture_count 8 double_jump_heap double_jump_board 0%nat
           (Piece.__init__ 2 1 WHITE) _ (4, 3) [Ref 1] eq_refl Hrc Hm).
  vm_compute. reflexivity.
Defined.

(** ** One call of [select] *)

(** What one call of [select] does to a state of the invariant: it selects
    a piece of the side to move, or fails and at most drops the selection,
    or applies the offered move. *)
Lemma select_cases fuel h g row col h' g' ok :
  Inv h g → Game.select fuel h g row col = Ok (h', g', ok) →
  (h' = h ∧ Game.board g' = Game.board g ∧ Game.turn g' = Game.turn g
   ∧ ((ok = false ∧ Game.valid_moves g' = Game.valid_moves g
       ∧ (Game.selected g' = Game.selected g ∨ Game.selected g' = None))
      ∨ (ok = true
         ∧ ∃ id p n, Board.get_piece (Game.board g) row col = Ok (Ref id)
             ∧ h !! id = Some p ∧ Piece.color p = Game.turn g
             ∧ Game.selected g' = Some (Ref id)
             ∧ Board.get_valid_moves n h (Game.board g) (Ref id)
               = Ok (Game.valid_moves g'))))
  ∨ (ok = false
     ∧ ∃ sel skipped, Game.selected g = Some sel
         ∧ Game.valid_moves g !! (row, col) = Some skipped
         ∧ Game._move h g row col = Ok (h', g', true)).
Proof.
  intros HI Hrun.
  assert (∀ n g0 h1 g1 ok1, Game.board g0 = Game.board g → Game.turn g0 = Game.turn g →
            Game.select_here n h g0 row col = Ok (h1, g1, ok1) →
            h1 = h ∧ Game.board g1 = Game.board g ∧ Game.turn g1 = Game.turn g
            ∧ ((ok1 = false ∧ g1 = g0)
               ∨ (ok1 = true
                  ∧ ∃ id p, Board.get_piece (Game.board g) row col = Ok (Ref id)
                      ∧ h !! id = Some p ∧ Piece.color p = Game.turn g
                      ∧ Game.selected g1 = Some (Ref id)
                      ∧ Board.get_valid_moves n h (Game.board g) (Ref id)
                        = Ok (Game.valid_moves g1)))) as Hhere.
  { intros n g0 h1 g1 ok1 Hb Ht Hh. apply select_here_cases in Hh as [-> Hc].
    destruct Hc as [[-> ->]|(id & p & m & -> & Hpiece & Hp & Hcol & Hm & ->)].
    - split_and!; try done. by left.
    - simpl. rewrite Hb, Ht in *. split_and!; try done. right. split; [done|].
      by exists id, p. }
  destruct fuel as [|fuel]; [done|]. simpl in Hrun.
  apply bind_Ok in Hrun as ([h1 g1] & H1 & Hrun).
  destruct (Game.selected g) as [sel|] eqn:Hsel; cycle 1.
  { injection H1 as <- <-. apply Hhere in Hrun as (-> & Hb & Ht & Hc); [|done..].
    left. split_and!; try done.
    destruct Hc as [[-> ->]|(-> & id & p & ?)]; [left; auto|right].
    split; [done|]. by exists id, p, fuel. }
  destruct (Game.valid_moves g !! (row, col)) as [skipped|] eqn:Hk.
  { destruct (select_after_move h g sel row col skipped fuel HI Hsel Hk)
      as (h2 & g2 & Hmove & Hsel2 & _).
    assert (Game.select (S fuel) h g row col = Ok (h', g', ok)) as Hrun'.
    { simpl. rewrite Hsel, H1. exact Hrun. }
    rewrite Hsel2 in Hrun'. injection Hrun' as <- <- <-.
    right. split; [done|]. by exists sel, skipped. }
  rewrite game_move_fail in H1 by auto. simpl in H1.
  apply bind_Ok in H1 as ([[h3 g3] ok3] & Hrec & [= <- <-]).
  destruct fuel as [|fuel]; [done|]. simpl in Hrec.
  apply Hhere in Hrec as (-> & Hb3 & Ht3 & Hc3); [|done..].
  left.
  destruct Hc3 as [[-> ->]|(-> & id & p & Hpiece & Hp & Hcol & Hs3 & Hm3)].
  - apply Hhere in Hrun as (-> & Hb & Ht & Hc); [|done..].
    split_and!; try done.
    destruct Hc as [[-> ->]|(-> & id & p & ?)]; [left; simpl; auto|right].
    split; [done|]. by exists id, p, (S fuel).
  - assert (Game.select_here (S fuel) h g3 row col
            = Ok (h, {| Game.selected := Some (Ref id); Game.board := Game.board g3;
                        Game.turn := Game.turn g3;
                        Game.valid_moves := Game.valid_moves g3 |}, true)) as Hagain.
    { unfold Game.select_here. rewrite Hb3, Ht3, Hpiece. simpl. rewrite Hp. simpl.
      rewrite Hcol. unfold color_eqb. rewrite bool_decide_eq_true_2 by done.
      unfold Board.get_valid_moves in *.
      eapply valid_moves_of_refine in Hm3; [|by intros ???|apply Nat.le_succ_diag_r].
      rewrite Hm3. done. }
    rewrite Hagain in Hrun. injection Hrun as <- <- <-. simpl.
    split_and!; try done. right. split; [done|]. by exists id, p, fuel.
Qed.

(** ** Counting *)

Lemma count_color_nonneg h c l : 0 ≤ count_color h c l.
Proof.
  induction l as [|x l IH]; simpl; [done|].
  destruct (deref h x) as [p| |]; [destruct (color_eqb _ _)|..]; lia.
Qed.

Lemma grid_count_nonneg h c grid : 0 ≤ grid_count h c grid.
Proof.
  induction grid as [|line grid IH]; simpl; [done|].
  pose proof (count_color_nonneg h c line). lia.
Qed.

Lemma count_color_insert h c (l : list obj) (i : nat) v a :
  l !! i = Some a →
  count_color h c (<[i := v]> l)
  = count_color h c l - count_color h c [a] + count_color h c [v].
Proof.
  revert i. induction l as [|x l IH]; intros i Hi; [done|].
  destruct i as [|i]; simpl in *.
  - injection Hi as ->. lia.
  - rewrite (IH i Hi). simpl. lia.
Qed.

Lemma grid_count_insert h c (grid : list (list obj)) (r : nat) line line' :
  grid !! r = Some line →
  grid_count h c (<[r := line']> grid)
  = grid_count h c grid - count_color h c line + count_color h c line'.
Proof.
  revert r. induction grid as [|l grid IH]; intros r Hr; [done|].
  destruct r as [|r]; simpl in *.
  - injection Hr as ->. lia.
  - rewrite (IH r Hr). lia.
Qed.

Lemma set_item_count h col grid r c a v grid' :
  shape grid → in_board r c → Board.item grid r c = Ok a →
  Board.set_item grid r c v = Ok grid' →
  grid_count h col grid'
  = grid_count h col grid - count_color h col [a] + count_color h col [v].
Proof.
  intros Hs Hb Ha Hset.
  destruct (item_in_board grid r c Hs Hb) as (line & o & Hline & Ho & Hl & Hitem).
  rewrite Ha in Hitem. injection Hitem as <-.
  destruct Hs as [Hlen Hall]. destruct Hb as [Hr Hc]. unfold ROWS, COLS in *.
  unfold Board.set_item in Hset. rewrite getitem_in_range in Hset by lia.
  rewrite Hline in Hset. simpl in Hset.
  rewrite setitem_in_range in Hset by lia. simpl in Hset.
  rewrite setitem_in_range in Hset by lia. injection Hset as <-.
  rewrite (grid_count_insert _ _ _ _ _ _ Hline).
  rewrite (count_color_insert _ _ _ _ _ _ Ho). lia.
Qed.

Lemma count_color_same h h' c l :
  (∀ x, count_color h' c [x] = count_color h c [x]) →
  count_color h' c l = count_color h c l.
Proof.
  intros Hx. induction l as [|x l IH]; [done|].
  specialize (Hx x). simpl in *. lia.
Qed.

Lemma grid_count_same h h' c grid :
  (∀ x, count_color h' c [x] = count_color h c [x]) →
  grid_count h' c grid = grid_count h c grid.
Proof.
  intros Hx. induction grid as [|line grid IH]; [done|].
  simpl. by rewrite IH, (count_color_same h h').
Qed.

Lemma weight_moved (h : Heap) id p row col c x :
  h !! id = Some p →
  count_color (<[id := moved p row col]> h) c [x] = count_color h c [x].
Proof.
  intros Hp. destruct x as [|q]; [done|]. simpl.
  destruct (decide (q = id)) as [->|Hne].
  - rewrite list_lookup_insert_eq by (by eapply lookup_lt_Some). rewrite Hp.
    by destruct (moved_fields p row col) as (_ & _ & -> & _).
  - by rewrite list_lookup_insert_ne.
Qed.

Lemma kings_count_insert (h : Heap) c id p p' :
  h !! id = Some p →
  kings_count (<[id := p']> h) c
  = kings_count h c
    - (if color_eqb (Piece.color p) c && Piece.king p then 1 else 0)
    + (if color_eqb (Piece.color p') c && Piece.king p' then 1 else 0).
Proof.
  revert id. induction h as [|q h IH]; intros id Hp; [done|].
  destruct id as [|id]; simpl in *.
  - injection Hp as ->. lia.
  - rewrite (IH id Hp). lia.
Qed.

(** The grid holds no piece of a color exactly when the count is zero. *)
Lemma count_color_zero h c l :
  count_color h c l = 0 ↔ ∀ x, x ∈ l → count_color h c [x] = 0.
Proof.
  induction l as [|y l IH].
  - split; [intros _ x Hx; by apply elem_of_nil in Hx|done].
  - pose proof (count_color_nonneg h c l). pose proof (count_color_nonneg h c [y]).
    split.
    + intros Hz x [->|Hx]%elem_of_cons; simpl in *; [lia|].
      apply IH; [lia|done].
    + intros Hall. assert (count_color h c l = 0) as Hl.
      { apply IH. intros x Hx. apply Hall. by right. }
      specialize (Hall y ltac:(by left)). simpl in *. lia.
Qed.

Lemma grid_count_zero h c grid :
  grid_count h c grid = 0 ↔ ∀ line x, line ∈ grid → x ∈ line → count_color h c [x] = 0.
Proof.
  induction grid as [|l grid IH].
  - split; [intros _ line x Hl; by apply elem_of_nil in Hl|done].
  - pose proof (grid_count_nonneg h c grid). pose proof (count_color_nonneg h c l).
    simpl. split.
    + intros Hz line x [->|Hl]%elem_of_cons Hx.
      * apply (count_color_zero h c l); [lia|done].
      * apply (proj1 IH ltac:(lia) line x Hl Hx).
    + intros Hall.
      assert (count_color h c l = 0) as ->.
      { apply count_color_zero. intros x Hx. apply (Hall l x); [by left|done]. }
      assert (grid_count h c grid = 0) as ->; [|done].
      apply IH. intros line x Hl Hx. apply (Hall line x); [by right|done].
Qed.

Lemma no_piece_of_color h c grid :
  shape grid → no_dangling h grid →
  grid_count h c grid = 0
  ↔ ∀ r c' id p, in_board r c' → Board.item grid r c' = Ok (Ref id) →
      h !! id = Some p → Piece.color p ≠ c.
Proof.
  intros Hs Hnd. rewrite grid_count_zero. split.
  - intros Hall r c' id p Hrc Hitem Hp Hcol.
    destruct (item_in_board grid r c' Hs Hrc) as (line & o & Hline & Ho & _ & Hit).
    rewrite Hitem in Hit. injection Hit as <-.
    specialize (Hall line (Ref id) ltac:(by eapply list_elem_of_lookup_2)
                  ltac:(by eapply list_elem_of_lookup_2)).
    simpl in Hall. rewrite Hp in Hall. unfold color_eqb in Hall.
    rewrite bool_decide_eq_true_2 in Hall by done. lia.
  - intros Hnone line x Hline Hx.
    apply list_elem_of_lookup in Hline as [i Hi]. apply list_elem_of_lookup in Hx as [j Hj].
    destruct Hs as [Hlen Hall].
    assert (length line = 8%nat) as Hl.
    { rewrite Forall_forall in Hall. apply Hall. by eapply list_elem_of_lookup_2. }
    pose proof (lookup_lt_Some _ _ _ Hi). pose proof (lookup_lt_Some _ _ _ Hj).
    assert (in_board (Z.of_nat i) (Z.of_nat j)) as Hrc
      by (unfold in_board, ROWS, COLS; lia).
    assert (Board.item grid (Z.of_nat i) (Z.of_nat j) = Ok x) as Hitem.
    { unfold Board.item. rewrite getitem_in_range by lia. rewrite Nat2Z.id, Hi. simpl.
      rewrite getitem_in_range by lia. by rewrite Nat2Z.id, Hj. }
    destruct x as [|id]; [done|]. simpl.
    destruct (Hnd _ _ _ Hrc Hitem) as [p Hp]. rewrite Hp.
    unfold color_eqb. rewrite bool_decide_eq_false_2; [done|]. by eapply Hnone.
Qed.

(** ** [Board.move] and [Game._move], once more *)

Lemma board_move_kings h b id p row col h' b' :
  h !! id = Some p → Board.move h b (Ref id) row col = Ok (h', b') →
  Board.red_kings b'
  = Board.red_kings b
    + (if color_eqb (Piece.color (moved p row col)) RED && Piece.king (moved p row col)
       then 1 else 0)
    - (if color_eqb (Piece.color p) RED && Piece.king p then 1 else 0)
  ∧ Board.white_kings b'
    = Board.white_kings b
      + (if color_eqb (Piece.color (moved p row col)) WHITE && Piece.king (moved p row col)
         then 1 else 0)
      - (if color_eqb (Piece.color p) WHITE && Piece.king p then 1 else 0).
Proof.
  intros Hp. unfold Board.move.
  intros (there & Hthere & H)%bind_Ok. simpl in H. rewrite Hp in H. simpl in H.
  apply bind_Ok in H as (here & Hhere & H).
  apply bind_Ok in H as (grid & Hgrid & H).
  apply bind_Ok in H as (grid' & Hgrid' & H).
  unfold moved. destruct p as [r c co k x y]. simpl in *.
  destruct ((row =? ROWS - 1) || (row =? 0)), k, co; simpl in *;
    injection H as <- <-; simpl; lia.
Qed.

Lemma game_move_inv h g row col h' g' :
  Game._move h g row col = Ok (h', g', true) →
  ∃ sel skipped s pm b1 b2,
    Game.selected g = Some sel ∧ Game.valid_moves g !! (row, col) = Some skipped
    ∧ deref h sel = Ok s
    ∧ Board.get_piece (Game.board g) (Piece.row s) (Piece.col s) = Ok pm
    ∧ Board.move h (Game.board g) pm row col = Ok (h', b1)
    ∧ Board.remove h' b1 skipped = Ok b2
    ∧ g' = {| Game.selected := Some sel; Game.board := b2;
              Game.turn := other (Game.turn g); Game.valid_moves := ∅ |}.
Proof.
  unfold Game._move.
  destruct (Game.selected g) as [sel|]; [|done].
  destruct (Game.valid_moves g !! (row, col)) as [skipped|]; [|done].
  intros (s & Hs & H)%bind_Ok. apply bind_Ok in H as (pm & Hpm & H).
  apply bind_Ok in H as ([h1 b1] & Hmove & H). apply bind_Ok in H as (b2 & Hrem & H).
  injection H as <- <-.
  exists sel, skipped, s, pm, b1, b2. split_and!; try done.
  - destruct skipped; [|done]. simpl in Hrem. by injection Hrem as ->.
  - unfold Game.change_turn. simpl. by destruct (Game.turn g).
Qed.

(** Removing distinct pieces that stand on their squares lowers the number
    of pieces of the grid by as many. *)
Lemma remove_count h c pieces : ∀ b b',
  shape (Board.board b) → NoDup pieces →
  Forall (λ x, ∃ q pq, x = Ref q ∧ h !! q = Some pq
                ∧ in_board (Piece.row pq) (Piece.col pq)
                ∧ Board.item (Board.board b) (Piece.row pq) (Piece.col pq) = Ok (Ref q))
         pieces →
  Board.remove h b pieces = Ok b' →
  grid_count h c (Board.board b')
  = grid_count h c (Board.board b) - count_color h c pieces.
Proof.
  induction pieces as [|x pieces IH]; intros b b' Hs Hnd Hall Hrun.
  { simpl in *. injection Hrun as <-. lia. }
  apply NoDup_cons in Hnd as [Hnotin Hnd].
  apply Forall_cons in Hall as [(q & pq & -> & Hq & Hb & Hitem) Hall].
  rewrite remove_cons in Hrun. apply bind_Ok in Hrun as (b0 & Hone & Hrun).
  destruct (remove_one_spec h q pq b Hq Hs Hb) as (b0' & Hone' & Hset & _).
  rewrite Hone in Hone'. injection Hone' as <-.
  destruct (set_item_in_board _ _ _ Zero Hs Hb) as (grid & Hgrid & Hs0 & _ & Hrest).
  rewrite Hset in Hgrid. injection Hgrid as <-.
  rewrite (IH b0 b' Hs0 Hnd); [|clear IH|exact Hrun].
  - rewrite (set_item_count h c _ _ _ _ _ _ Hs Hb Hitem Hset).
    simpl. rewrite Hq. destruct (color_eqb (Piece.color pq) c); lia.
  - rewrite Forall_forall in Hall. apply Forall_forall. intros x Hx.
    destruct (Hall x Hx) as (q' & pq' & -> & Hq' & Hb' & Hitem').
    exists q', pq'. split_and!; try done. rewrite Hrest; [done..|].
    intros [= Hr Hc]. rewrite Hr, Hc in Hitem'. rewrite Hitem in Hitem'.
    injection Hitem' as <-. done.
Qed.

(** A move leaves on the grid the pieces that were there, less the captured
    ones. *)
Lemma game_move_count h g row col h' g' sel skipped c :
  Inv h g → Game.selected g = Some sel →
  Game.valid_moves g !! (row, col) = Some skipped → NoDup skipped →
  Game._move h g row col = Ok (h', g', true) →
  grid_count h' c (Board.board (Game.board g'))
  = grid_count h c (Board.board (Game.board g)) - count_color h c skipped
  ∧ count_color h' c skipped = count_color h c skipped.
Proof.
  intros HI Hsel Hk Hnd Hrun.
  destruct (game_move_ok h g sel row col skipped HI Hsel Hk)
    as (id & p & b' & -> & Hp & Hcol & Hsrc & Hdst & Hdk & Hhere & Hthere & Hrun'
        & Hs' & Hd' & Hz' & Hsk & _).
  rewrite Hrun in Hrun'. injection Hrun' as -> ->.
  apply game_move_inv in Hrun
    as (sel' & skipped' & s & pm & b1 & b2 & Hsel' & Hk' & Hs & Hpm & Hmove & Hrem & Hg).
  rewrite Hsel in Hsel'. injection Hsel' as <-. rewrite Hk in Hk'. injection Hk' as <-.
  simpl in Hs. rewrite Hp in Hs. injection Hs as <-.
  unfold Board.get_piece in Hpm. rewrite Hhere in Hpm. injection Hpm as <-.
  injection Hg as <-.
  destruct HI as [Hshape Hcons _ _].
  destruct (board_move_spec h (Game.board g) id p row col Hshape Hp Hsrc Hdst Hhere Hthere)
    as (b1' & Hmove' & Hs1 & Hd1 & Hz1 & Hrest1 & _).
  rewrite Hmove in Hmove'. injection Hmove' as <-.
  destruct (board_move_heap _ _ _ _ _ _ _ _ Hp Hmove)
    as (_ & _ & _ & there & here & grid & Hth & Hhe & Hset1 & Hset2).
  rewrite Hthere in Hth. injection Hth as <-. rewrite Hhere in Hhe. injection Hhe as <-.
  set (h1 := <[id := moved p row col]> h) in *.
  assert (∀ x, count_color h1 c [x] = count_color h c [x]) as Hw.
  { intros x. by apply weight_moved. }
  split; [|by apply count_color_same].
  assert ((Piece.row p, Piece.col p) ≠ (row, col)) as Hne.
  { intros [= Hr Hc]. rewrite Hr, Hc in Hhere. congruence. }
  destruct (set_item_in_board _ _ _ Zero Hshape Hsrc) as (grid0 & Hgrid0 & Hs0 & Hz0 & Hrest0).
  rewrite Hset1 in Hgrid0. injection Hgrid0 as <-.
  assert (grid_count h c (Board.board b1) = grid_count h c (Board.board (Game.board g)))
    as Hswap.
  { rewrite (set_item_count h c grid row col Zero (Ref id) _ Hs0 Hdst); [|by rewrite Hrest0|done].
    rewrite (set_item_count h c _ _ _ (Ref id) Zero grid Hshape Hsrc Hhere Hset1).
    simpl. lia. }
  cbn [Game.board]. rewrite (remove_count h1 c skipped b1 b' Hs1 Hnd); [| |exact Hrem].
  - rewrite (grid_count_same h h1 c) by done. rewrite Hswap.
    by rewrite (count_color_same h h1 c).
  - rewrite Forall_forall in Hsk. apply Forall_forall. intros x Hx.
    destruct (Hsk x Hx) as (q & pq & -> & Hneq & Hq & _ & Hb & Hit & _).
    exists q, pq. split_and!; try done.
    + subst h1. by rewrite list_lookup_insert_ne.
    + rewrite Hrest1; [done..| |].
      * intros [= Hr Hc]. rewrite Hr, Hc in Hit. congruence.
      * intros [= Hr Hc]. rewrite Hr, Hc in Hit. congruence.
Qed.

(** What [Board.remove] does whatever it is given: it only lowers the two
    counts of pieces and leaves the counts of kings alone. *)
Lemma remove_one_inv h x b b0 :
  Board.remove_one h x b = Ok b0 →
  ∃ q p, x = Ref q ∧ h !! q = Some p
    ∧ Board.set_item (Board.board b) (Piece.row p) (Piece.col p) Zero = Ok (Board.board b0)
    ∧ Board.red_left b0
      = Board.red_left b - (if color_eqb (Piece.color p) RED then 1 else 0)
    ∧ Board.white_left b0
      = Board.white_left b - (if color_eqb (Piece.color p) WHITE then 1 else 0)
    ∧ Board.red_kings b0 = Board.red_kings b
    ∧ Board.white_kings b0 = Board.white_kings b.
Proof.
  unfold Board.remove_one. intros (p & Hp & H)%bind_Ok.
  apply bind_Ok in H as (grid & Hgrid & H).
  destruct x as [|q]; [done|]. simpl in Hp.
  destruct (h !! q) as [p'|] eqn:Hq; [|done]. injection Hp as ->.
  exists q, p. rewrite bool_decide_eq_true_2 in H by done.
  destruct (Piece.color p); simpl in H; injection H as <-; simpl;
    split_and!; try done; lia.
Qed.

Lemma remove_inv h pieces : ∀ b b',
  Board.remove h b pieces = Ok b' →
  Board.red_left b' = Board.red_left b - count_color h RED pieces
  ∧ Board.white_left b' = Board.white_left b - count_color h WHITE pieces
  ∧ Board.red_kings b' = Board.red_kings b
  ∧ Board.white_kings b' = Board.white_kings b
  ∧ Forall (λ x, ∃ q p, x = Ref q ∧ h !! q = Some p) pieces.
Proof.
  induction pieces as [|x pieces IH]; intros b b' Hrun.
  { simpl in Hrun. injection Hrun as <-. simpl. split_and!; try done; lia. }
  rewrite remove_cons in Hrun. apply bind_Ok in Hrun as (b0 & Hone & Hrun).
  apply remove_one_inv in Hone as (q & p & -> & Hq & _ & Hr & Hw & Hrk & Hwk).
  destruct (IH _ _ Hrun) as (Hr' & Hw' & Hrk' & Hwk' & Hall).
  simpl. rewrite Hq. split_and!; try lia; try congruence.
  constructor; [by exists q, p|done].
Qed.

Lemma moved_centred p row col : centred (moved p row col).
Proof.
  unfold centred, moved. destruct p as [r c co k x y]. simpl.
  destruct (((row =? ROWS - 1) || (row =? 0)) && negb k); done.
Qed.

Lemma moved_crowned p row col :
  row = farthest_row (Piece.color p) → Piece.king (moved p row col) = true.
Proof.
  intros ->. destruct (moved_fields p (farthest_row (Piece.color p)) col) as (_ & _ & _ & ->).
  unfold farthest_row, ROWS. destruct (Piece.color p), (Piece.king p); done.
Qed.

(** Two captures of one move are two pieces. *)
Lemma geom_nodup h grid s d start c0 k v :
  consistent h grid → (s = 1 ∨ s = -1) →
  entry_geom (Board.item grid) s d start c0 [] k v → NoDup v.
Proof.
  intros Hcons Hs [(-> & _)|[(x & -> & _)|(x & y & d' & e & -> & _ & _ & Hx & Hy & _)]].
  - constructor.
  - apply NoDup_singleton.
  - destruct Hx as (ix & -> & Hbx & Hix). destruct Hy as (iy & -> & Hby & Hiy).
    apply NoDup_cons. split; [|apply NoDup_singleton].
    intros Hin. apply list_elem_of_singleton in Hin. injection Hin as ->.
    destruct (Hcons _ _ _ Hbx Hix) as (p1 & Hp1 & Hr1 & _).
    destruct (Hcons _ _ _ Hby Hiy) as (p2 & Hp2 & Hr2 & _).
    rewrite Hp1 in Hp2. injection Hp2 as <-. destruct Hs; subst; lia.
Qed.

Lemma inv2_initial : Inv2 initial.1 initial.2.
Proof.
  split; try reflexivity.
  - intros sel k v Hsel. discriminate Hsel.
  - assert (Forall (λ p, in_board (Piece.row p) (Piece.col p) ∧ centred p
                      ∧ (Piece.row p = farthest_row (Piece.color p) → Piece.king p = true))
                   initial.1) as Hall.
    { repeat (constructor;
              [split_and!; [unfold in_board, ROWS, COLS; simpl; lia|split; reflexivity
                           |intros H; vm_compute in H; discriminate H]|]).
      constructor. }
    intros id p Hp. rewrite Forall_forall in Hall. apply Hall.
    by eapply list_elem_of_lookup_2.
Qed.

Lemma inv2_select fuel h g row col h' g' ok :
  Inv h g → Inv2 h g → Game.select fuel h g row col = Ok (h', g', ok) → Inv2 h' g'.
Proof.
  intros HI HI2 Hrun.
  destruct (select_cases _ _ _ _ _ _ _ _ HI Hrun)
    as [(-> & Hb & Ht & Hc)|(-> & sel & skipped & Hsel & Hk & Hmove)].
  - destruct HI2 as [Hred Hwhite Hnd Hstore Hrk Hwk Hlen].
    split; rewrite ?Hb; try done.
    intros sel k v Hsel' Hv.
    destruct Hc as [(-> & Hvm & Hs)|(-> & id & p & n & Hpiece & Hp & Hcol & Hs & Hm)].
    + rewrite Hvm in Hv. destruct Hs as [Hs|Hs]; rewrite Hs in Hsel'; [|done].
      by eapply Hnd.
    + destruct (Hstore id p Hp) as (Hrc & _).
      destruct (valid_moves_of_geom _ _ _ _ _ _ Hp Hrc Hm k v Hv) as (s & d & Hs' & _ & Hg).
      eapply geom_nodup; [apply HI|exact Hs'|exact Hg].
  - destruct HI2 as [Hred Hwhite Hnd Hstore Hrk Hwk Hlen].
    pose proof (Hnd _ _ _ Hsel Hk) as Hnodup.
    destruct (game_move_ok h g sel row col skipped HI Hsel Hk)
      as (id & p & b' & -> & Hp & Hcol & Hsrc & Hdst & Hdk & Hhere & Hthere & Hrun'
          & _ & _ & _ & _ & _ & _ & Hred' & Hwhite').
    destruct (game_move_count h g row col h' g' (Ref id) skipped RED HI Hsel Hk Hnodup Hmove)
      as [Hcr _].
    destruct (game_move_count h g row col h' g' (Ref id) skipped WHITE HI Hsel Hk Hnodup Hmove)
      as [Hcw _].
    apply game_move_inv in Hmove as Hinv.
    destruct Hinv as (sel' & skipped' & s & pm & b1 & b2 & Hsel' & Hk' & Hs & Hpm
                      & Hbm & Hrem & Hg).
    rewrite Hsel in Hsel'. injection Hsel' as <-. rewrite Hk in Hk'. injection Hk' as <-.
    simpl in Hs. rewrite Hp in Hs. injection Hs as <-.
    unfold Board.get_piece in Hpm. rewrite Hhere in Hpm. injection Hpm as <-.
    rewrite Hmove in Hrun'. injection Hrun' as -> Hg'.
    destruct (board_move_kings _ _ _ _ _ _ _ _ Hp Hbm) as [Hk1 Hk2].
    destruct (remove_inv _ _ _ _ Hrem) as (_ & _ & Hrk' & Hwk' & _).
    assert (b' = b2) as -> by (rewrite Hg in Hg'; by injection Hg').
    subst g'. cbn [Game.board] in Hcr, Hcw. split; simpl.
    + rewrite Hcr, Hred', Hred. done.
    + rewrite Hcw, Hwhite', Hwhite. done.
    + intros sel k v _ Hv. by rewrite lookup_empty in Hv.
    + intros id' p' Hp'. destruct (decide (id' = id)) as [->|Hne].
      * rewrite list_lookup_insert_eq in Hp' by (by eapply lookup_lt_Some).
        injection Hp' as <-. destruct (moved_fields p row col) as (Hr & Hc & Hco & _).
        rewrite Hr, Hc, Hco. split_and!; [done|apply moved_centred|apply moved_crowned].
      * rewrite list_lookup_insert_ne in Hp' by done. by apply (Hstore id').
    + rewrite Hrk', Hk1, Hrk. rewrite (kings_count_insert h RED id p _ Hp). lia.
    + rewrite Hwk', Hk2, Hwk. rewrite (kings_count_insert h WHITE id p _ Hp). lia.
    + by rewrite length_insert.
Qed.

Lemma reachable_inv2 h g : reachable h g → Inv2 h g.
Proof.
  induction 1 as [h g Hinit|fuel h g row col h' g' ok Hreach IH Hrun].
  - rewrite init_initial in Hinit. injection Hinit as <- <-. apply inv2_initial.
  - eapply inv2_select; [by apply reachable_inv| exact IH | exact Hrun].
Qed.

(** ** A game that crowns a piece *)

Lemma later_click h g s sq :
  later h g s.1 s.2 → later h g (click s sq).1 (click s sq).2.
Proof.
  intros Hl. unfold click.
  destruct (Game.select 10 s.1 s.2 sq.1 sq.2) as [[[h' g'] b]| |] eqn:Hrun; try done.
  by eapply later_select.
Qed.

Lemma later_clicks h g clicks : ∀ s,
  later h g s.1 s.2 → later h g (foldl click s clicks).1 (foldl click s clicks).2.
Proof.
  induction clicks as [|sq clicks IH]; intros s Hl; [done|].
  simpl. by apply IH, later_click.
Qed.

Lemma later_reachable h g h' g' : reachable h g → later h g h' g' → reachable h' g'.
Proof.
  intros Hreach. induction 1 as [|fuel h1 g1 row col h2 g2 b _ IH Hrun]; [done|].
  by eapply reach_select.
Qed.

Lemma later_crowned : later initial.1 initial.2 crowned.1 crowned.2.
Proof.
  assert (crowned = foldl click initial crowning_clicks) as -> by (vm_compute; reflexivity).
  apply later_clicks. constructor.
Qed.

Lemma reachable_crowned : reachable crowned.1 crowned.2.
Proof. exact (later_reachable _ _ _ _ reachable_initial later_crowned). Qed.

Lemma crowned_facts :
  Board.item (Board.board (Game.board crowned.2)) 0 7 = Ok (Ref 14)
  ∧ crowned.1 !! 14%nat
    = Some {| Piece.row := 0; Piece.col := 7; Piece.color := RED; Piece.king := true;
              Piece.x := 750; Piece.y := 50 |}
  ∧ Board.red_left (Game.board crowned.2) = 11
  ∧ Board.white_left (Game.board crowned.2) = 9
  ∧ Board.red_kings (Game.board crowned.2) = 1.
Proof. vm_compute. done. Qed.

(** ** The states of a game *)

Lemma reachable_second_click : reachable second_click.1 second_click.2.
Proof.
  apply (reach_select 10 first_click.1 first_click.2 4 1 _ _ false reachable_first_click).
  vm_compute. reflexivity.
Qed.

(** X6: in every state of a game the grid has eight rows of eight squares,
    a piece that the grid holds on a square has that square as its own
    [row] and [col], and no piece is held on two squares. *)
Theorem pieces_know_their_square h g :
  reachable h g →
  shape (Board.board (Game.board g))
  ∧ (∀ r c id, in_board r c →
       Board.item (Board.board (Game.board g)) r c = Ok (Ref id) →
       ∃ p, h !! id = Some p ∧ Piece.row p = r ∧ Piece.col p = c)
  ∧ (∀ r c r' c' id, in_board r c → in_board r' c' →
       Board.item (Board.board (Game.board g)) r c = Ok (Ref id) →
       Board.item (Board.board (Game.board g)) r' c' = Ok (Ref id) →
       r = r' ∧ c = c').
Proof.
  intros Hreach. destruct (reachable_inv h g Hreach) as [Hs Hcons _ _].
  split_and!; try done.
  intros r c r' c' id Hrc Hrc' H1 H2.
  destruct (Hcons _ _ _ Hrc H1) as (p & Hp & <- & <-).
  destruct (Hcons _ _ _ Hrc' H2) as (p' & Hp' & <- & <-).
  rewrite Hp in Hp'. by injection Hp' as <-.
Qed.

Lemma pieces_know_their_square_witness :
  reachable second_click.1 second_click.2
  ∧ ∃ p, second_click.1 !! 12%nat = Some p ∧ Piece.row p = 4 ∧ Piece.col p = 1.
Proof.
  assert (reachable second_click.1 second_click.2) as Hreach.
  { apply (reach_select 10 first_click.1 first_click.2 4 1 _ _ false).
    - apply (reach_select 10 initial.1 initial.2 5 0 _ _ true).
      + apply reach_init. vm_compute. reflexivity.
      + vm_compute. reflexivity.
    - vm_compute. reflexivity. }
  split; [exact Hreach|].
  apply (proj1 (proj2 (pieces_know_their_square _ _ Hreach)) 4 1 12%nat).
  - unfold in_board, ROWS, COLS. lia.
  - vm_compute. reflexivity.
Defined.

(** X7: in every state of a game [red_left] and [white_left] are the
    numbers of [RED] and of [WHITE] pieces that the grid holds; they are
    never negative. *)
Theorem live_counts_match_grid h g :
  reachable h g →
  Board.red_left (Game.board g) = grid_count h RED (Board.board (Game.board g))
  ∧ Board.white_left (Game.board g) = grid_count h WHITE (Board.board (Game.board g))
  ∧ 0 ≤ Board.red_left (Game.board g) ∧ 0 ≤ Board.white_left (Game.board g).
Proof.
  intros Hreach. destruct (reachable_inv2 h g Hreach) as [Hr Hw _ _ _ _ _].
  split_and!; try done; rewrite ?Hr, ?Hw; apply grid_count_nonneg.
Qed.

Lemma live_counts_match_grid_witness :
  reachable second_click.1 second_click.2
  ∧ Board.red_left (Game.board second_click.2)
    = grid_count second_click.1 RED (Board.board (Game.board second_click.2)).
Proof.
  assert (reachable second_click.1 second_click.2) as Hreach.
  { apply (reach_select 10 first_click.1 first_click.2 4 1 _ _ false).
    - apply (reach_select 10 initial.1 initial.2 5 0 _ _ true).
      + apply reach_init. vm_compute. reflexivity.
      + vm_compute. reflexivity.
    - vm_compute. reflexivity. }
  split; [exact Hreach|].
  exact (proj1 (live_counts_match_grid _ _ Hreach)).
Defined.

Lemma count_color_pos h c l :
  0 < count_color h c l → ∃ x, x ∈ l ∧ count_color h c [x] = 1.
Proof.
  induction l as [|y l IH]; simpl; [lia|]. intros Hpos.
  destruct (deref h y) as [p| |] eqn:Hy;
    [destruct (color_eqb (Piece.color p) c) eqn:Hc|..].
  - exists y. split; [by left|]. simpl. by rewrite Hy, Hc.
  - destruct IH as (x & Hx & Hw); [lia|]. exists x. split; [by right|done].
  - destruct IH as (x & Hx & Hw); [lia|]. exists x. split; [by right|done].
  - destruct IH as (x & Hx & Hw); [lia|]. exists x. split; [by right|done].
Qed.

Lemma grid_count_pos h c grid :
  0 < grid_count h c grid →
  ∃ line x, line ∈ grid ∧ x ∈ line ∧ count_color h c [x] = 1.
Proof.
  induction grid as [|l grid IH]; simpl; [lia|]. intros Hpos.
  pose proof (count_color_nonneg h c l).
  destruct (decide (0 < count_color h c l)) as [Hl|Hl].
  - destruct (count_color_pos _ _ _ Hl) as (x & Hx & Hw). exists l, x.
    split_and!; try done. by left.
  - destruct IH as (line & x & Hline & Hx & Hw); [lia|]. exists line, x.
    split_and!; try done. by right.
Qed.

Lemma has_piece_iff h c grid :
  shape grid → no_dangling h grid →
  (0 < grid_count h c grid ↔ has_piece h grid c)
  ∧ (grid_count h c grid = 0 ↔ ¬ has_piece h grid c).
Proof.
  intros Hs Hnd.
  assert (has_piece h grid c → 0 < grid_count h c grid) as Hfwd.
  { intros (r & c' & id & p & Hrc & Hitem & Hp & Hcol).
    pose proof (grid_count_nonneg h c grid).
    destruct (decide (grid_count h c grid = 0)) as [Hz|Hz]; [|lia].
    exfalso. by apply (proj1 (no_piece_of_color h c grid Hs Hnd) Hz r c' id p). }
  assert (0 < grid_count h c grid → has_piece h grid c) as Hbwd.
  { intros Hpos. destruct (grid_count_pos _ _ _ Hpos) as (line & x & Hline & Hx & Hw).
    apply list_elem_of_lookup in Hline as [i Hi]. apply list_elem_of_lookup in Hx as [j Hj].
    destruct Hs as [Hlen Hall].
    assert (length line = 8%nat) as Hl.
    { rewrite Forall_forall in Hall. apply Hall. by eapply list_elem_of_lookup_2. }
    pose proof (lookup_lt_Some _ _ _ Hi). pose proof (lookup_lt_Some _ _ _ Hj).
    destruct x as [|id]; [done|]. simpl in Hw.
    destruct (h !! id) as [p|] eqn:Hp; [|done].
    exists (Z.of_nat i), (Z.of_nat j), id, p. split_and!; try done.
    - unfold in_board, ROWS, COLS. lia.
    - unfold Board.item. rewrite getitem_in_range by lia. rewrite Nat2Z.id, Hi. simpl.
      rewrite getitem_in_range by lia. by rewrite Nat2Z.id, Hj.
    - unfold color_eqb in Hw. case_bool_decide; [done|lia]. }
  split; [by split|]. pose proof (grid_count_nonneg h c grid).
  split; [intros Hz Hhas; apply Hfwd in Hhas; lia|].
  intros Hnone. destruct (decide (grid_count h c grid = 0)); [done|].
  exfalso. apply Hnone, Hbwd. lia.
Qed.

(** X8: in every state of a game the winner tells which sides still have
    a piece on the grid: [WHITE] wins exactly when no [RED] piece is left,
    [RED] wins exactly when a [RED] piece is left and no [WHITE] piece is,
    and there is no winner exactly when both sides have a piece. *)
Theorem winner_tells_who_has_pieces h g :
  reachable h g →
  (Game.winner g = Some WHITE ↔ ¬ has_piece h (Board.board (Game.board g)) RED)
  ∧ (Game.winner g = Some RED ↔
     has_piece h (Board.board (Game.board g)) RED
     ∧ ¬ has_piece h (Board.board (Game.board g)) WHITE)
  ∧ (Game.winner g = None ↔
     has_piece h (Board.board (Game.board g)) RED
     ∧ has_piece h (Board.board (Game.board g)) WHITE).
Proof.
  intros Hreach. apply reachable_inv in Hreach as HI.
  destruct (reachable_inv2 h g Hreach) as [Hr Hw _ _ _ _ _].
  destruct (inv_valid_board _ _ HI) as [Hs Hnd].
  destruct (has_piece_iff h RED _ Hs Hnd) as [Hrp Hrz].
  destruct (has_piece_iff h WHITE _ Hs Hnd) as [Hwp Hwz].
  pose proof (grid_count_nonneg h RED (Board.board (Game.board g))).
  pose proof (grid_count_nonneg h WHITE (Board.board (Game.board g))).
  unfold Game.winner, Board.winner. rewrite Hr, Hw.
  destruct (Z.leb_spec (grid_count h RED (Board.board (Game.board g))) 0) as [Hle|Hgt].
  - assert (¬ has_piece h (Board.board (Game.board g)) RED) as Hno by (apply Hrz; lia).
    split_and!; split; try done; intros [? ?]; done.
  - assert (has_piece h (Board.board (Game.board g)) RED) as Hyes by (by apply Hrp).
    destruct (Z.leb_spec (grid_count h WHITE (Board.board (Game.board g))) 0) as [Hle'|Hgt'].
    + assert (¬ has_piece h (Board.board (Game.board g)) WHITE) as Hno by (apply Hwz; lia).
      split_and!; split; try done; intros [? ?]; done.
    + assert (has_piece h (Board.board (Game.board g)) WHITE) as Hyes' by (by apply Hwp).
      split_and!; split; try done; intros [? ?]; done.
Qed.

Lemma winner_tells_who_has_pieces_witness :
  reachable second_click.1 second_click.2
  ∧ (Game.winner second_click.2 = None ↔
     has_piece second_click.1 (Board.board (Game.board second_click.2)) RED
     ∧ has_piece second_click.1 (Board.board (Game.board second_click.2)) WHITE).
Proof.
  assert (reachable second_click.1 second_click.2) as Hreach.
  { apply (reach_select 10 first_click.1 first_click.2 4 1 _ _ false).
    - apply (reach_select 10 initial.1 initial.2 5 0 _ _ true).
      + apply reach_init. vm_compute. reflexivity.
      + vm_compute. reflexivity.
    - vm_compute. reflexivity. }
  split; [exact Hreach|].
  exact (proj2 (proj2 (winner_tells_who_has_pieces _ _ Hreach))).
Defined.

(** ** [Board.remove] on any list *)

Lemma count_color_total h pieces :
  Forall (λ x, ∃ q p, x = Ref q ∧ h !! q = Some p) pieces →
  count_color h RED pieces + count_color h WHITE pieces = Z.of_nat (length pieces).
Proof.
  induction 1 as [|x pieces (q & p & -> & Hq) _ IH]; [done|].
  simpl. rewrite Hq. destruct (Piece.color p); simpl; lia.
Qed.

(** X9: whenever [Board.remove] returns, whatever the grid held, the two
    counts of pieces have gone down, together by the length of the list,
    each by the number of pieces of its color in the list, and the two
    counts of kings are as they were, also when a king was removed. *)
Theorem remove_lowers_the_counts h b pieces b' :
  Board.remove h b pieces = Ok b' →
  Board.red_left b' = Board.red_left b - count_color h RED pieces
  ∧ Board.white_left b' = Board.white_left b - count_color h WHITE pieces
  ∧ Board.red_left b' + Board.white_left b'
    = Board.red_left b + Board.white_left b - Z.of_nat (length pieces)
  ∧ Board.red_left b' ≤ Board.red_left b
  ∧ Board.white_left b' ≤ Board.white_left b
  ∧ Board.red_kings b' = Board.red_kings b
  ∧ Board.white_kings b' = Board.white_kings b.
Proof.
  intros Hrun. destruct (remove_inv _ _ _ _ Hrun) as (Hr & Hw & Hrk & Hwk & Hall).
  pose proof (count_color_total h pieces Hall).
  pose proof (count_color_nonneg h RED pieces).
  pose proof (count_color_nonneg h WHITE pieces).
  split_and!; try done; lia.
Qed.

Lemma remove_lowers_the_counts_witness :
  Board.remove double_jump_heap double_jump_board [Ref 2; Ref 1]
  = Ok {| Board.board := [empty_line; empty_line; <[1%nat := Ref 0]> empty_line;
                          empty_line; empty_line; empty_line; empty_line; empty_line];
          Board.red_left := 0; Board.white_left := 1;
          Board.red_kings := 0; Board.white_kings := 0 |}
  ∧ 0 + 1 = 2 + 1 - Z.of_nat (length [Ref 2; Ref 1]).
Proof.
  assert (Board.remove double_jump_heap double_jump_board [Ref 2; Ref 1]
          = Ok {| Board.board := [empty_line; empty_line; <[1%nat := Ref 0]> empty_line;
                                  empty_line; empty_line; empty_line; empty_line;
                                  empty_line];
                  Board.red_left := 0; Board.white_left := 1;
                  Board.red_kings := 0; Board.white_kings := 0 |}) as Hrun.
  { vm_compute. reflexivity. }
  split; [exact Hrun|].
  exact (proj1 (proj2 (proj2 (remove_lowers_the_counts _ _ _ _ Hrun)))).
Defined.

(** ** What a call of [select] can change *)

(** X10: what [select] answers in a state of a game.  When it answers
    [True] the store, the board and the turn are as before, the clicked
    square holds a piece of the side to move, that piece is the selection
    and the offered moves are those of [get_valid_moves] for it.  When it
    answers [False] either the store, the board, the turn and the offered
    moves are as before and the selection is as before or dropped, or the
    offered move to the clicked square was applied and the turn has
    passed. *)
Theorem select_outcomes fuel h g row col h' g' ok :
  reachable h g → Game.select fuel h g row col = Ok (h', g', ok) →
  (ok = true →
   h' = h ∧ Game.board g' = Game.board g ∧ Game.turn g' = Game.turn g
   ∧ ∃ id p n, Board.get_piece (Game.board g) row col = Ok (Ref id)
       ∧ h !! id = Some p ∧ Piece.color p = Game.turn g
       ∧ Game.selected g' = Some (Ref id)
       ∧ Board.get_valid_moves n h (Game.board g) (Ref id) = Ok (Game.valid_moves g'))
  ∧ (ok = false →
     (h' = h ∧ Game.board g' = Game.board g ∧ Game.turn g' = Game.turn g
      ∧ Game.valid_moves g' = Game.valid_moves g
      ∧ (Game.selected g' = Game.selected g ∨ Game.selected g' = None))
     ∨ (Game._move h g row col = Ok (h', g', true)
        ∧ is_Some (Game.selected g) ∧ is_Some (Game.valid_moves g !! (row, col))
        ∧ Game.turn g' = other (Game.turn g) ∧ Game.valid_moves g' = ∅)).
Proof.
  intros Hreach Hrun. apply reachable_inv in Hreach as HI.
  destruct (select_cases _ _ _ _ _ _ _ _ HI Hrun)
    as [(-> & Hb & Ht & [(-> & Hvm & Hs)|(-> & Hsel)])|(-> & sel & skipped & Hsel & Hk & Hmove)].
  - split; [done|]. intros _. left. by split_and!.
  - split; [|done]. intros _. by split_and!.
  - split; [done|]. intros _. right.
    destruct (select_after_move h g sel row col skipped 0 HI Hsel Hk)
      as (h2 & g2 & Hmove' & _ & _ & Hvm & Hturn & _).
    rewrite Hmove in Hmove'. injection Hmove' as <- <-.
    split_and!; by eauto.
Qed.

Lemma select_outcomes_witness :
  reachable initial.1 initial.2
  ∧ Game.select 10 initial.1 initial.2 5 0 = Ok (first_click.1, first_click.2, true)
  ∧ first_click.1 = initial.1
  ∧ Game.board first_click.2 = Game.board initial.2
  ∧ Game.turn first_click.2 = Game.turn initial.2.
Proof.
  assert (reachable initial.1 initial.2) as Hreach.
  { apply reach_init. vm_compute. reflexivity. }
  assert (Game.select 10 initial.1 initial.2 5 0 = Ok (first_click.1, first_click.2, true))
    as Hrun by (vm_compute; reflexivity).
  split; [exact Hreach|]. split; [exact Hrun|].
  destruct (proj1 (select_outcomes _ _ _ _ _ _ _ _ Hreach Hrun) eq_refl)
    as (H1 & H2 & H3 & _).
  split; [exact H1|]. split; [exact H2|exact H3].
Defined.

(** X11: in every state of a game [red_kings] and [white_kings] are the
    numbers of [RED] and of [WHITE] kings among the twenty-four pieces of
    the store, the captured ones included: a capture does not lower them. *)
Theorem king_counters_count_the_store h g :
  reachable h g →
  Board.red_kings (Game.board g) = kings_count h RED
  ∧ Board.white_kings (Game.board g) = kings_count h WHITE
  ∧ length h = 24%nat.
Proof.
  intros Hreach. by destruct (reachable_inv2 h g Hreach) as [_ _ _ _ Hrk Hwk Hlen].
Qed.

Lemma king_counters_count_the_store_witness :
  reachable first_click.1 first_click.2
  ∧ Board.red_kings (Game.board first_click.2) = kings_count first_click.1 RED.
Proof.
  assert (reachable first_click.1 first_click.2) as Hreach.
  { apply (reach_select 10 initial.1 initial.2 5 0 _ _ true).
    - apply reach_init. vm_compute. reflexivity.
    - vm_compute. reflexivity. }
  split; [exact Hreach|]. exact (proj1 (king_counters_count_the_store _ _ Hreach)).
Defined.

(** X12: in every state of a game a piece that the grid holds on the
    farthest row for its color, row 7 for [WHITE] and row 0 for [RED], is a
    king. *)
Theorem pieces_on_farthest_row_are_kings h g r c id p :
  reachable h g → in_board r c →
  Board.item (Board.board (Game.board g)) r c = Ok (Ref id) → h !! id = Some p →
  r = farthest_row (Piece.color p) → Piece.king p = true.
Proof.
  intros Hreach Hrc Hitem Hp Hfar.
  destruct (reachable_inv h g Hreach) as [_ Hcons _ _].
  destruct (reachable_inv2 h g Hreach) as [_ _ _ Hstore _ _ _].
  destruct (Hcons _ _ _ Hrc Hitem) as (p' & Hp' & Hr & _).
  rewrite Hp in Hp'. injection Hp' as <-.
  destruct (Hstore id p Hp) as (_ & _ & Hking). apply Hking. congruence.
Qed.

Lemma pieces_on_farthest_row_are_kings_witness :
  reachable crowned.1 crowned.2
  ∧ ∃ p, crowned.1 !! 14%nat = Some p
      ∧ Piece.row p = farthest_row (Piece.color p) ∧ Piece.king p = true.
Proof.
  assert (reachable crowned.1 crowned.2) as Hreach.
  { exact (later_reachable _ _ _ _ reachable_initial later_crowned). }
  split; [exact Hreach|].
  exists {| Piece.row := 0; Piece.col := 7; Piece.color := RED; Piece.king := true;
            Piece.x := 750; Piece.y := 50 |}.
  split; [reflexivity|]. split; [reflexivity|].
  apply (pieces_on_farthest_row_are_kings crowned.1 crowned.2 0 7 14%nat _ Hreach).
  - unfold in_board, ROWS, COLS. lia.
  - vm_compute. reflexivity.
  - reflexivity.
  - reflexivity.
Defined.

(** ** What a game keeps *)

Lemma keeps_refl h b : keeps h b h b.
Proof. split_and!; try lia. intros id p Hp. by exists p. Qed.

Lemma keeps_trans h1 b1 h2 b2 h3 b3 :
  keeps h1 b1 h2 b2 → keeps h2 b2 h3 b3 → keeps h1 b1 h3 b3.
Proof.
  intros (Ha & ? & ? & ? & ?) (Hb & ? & ? & ? & ?). split_and!; try lia.
  intros id p Hp. destruct (Ha id p Hp) as (p' & Hp' & Hc & Hk).
  destruct (Hb id p' Hp') as (p'' & Hp'' & Hc' & Hk').
  exists p''. split_and!; [done|congruence|auto].
Qed.

Lemma select_keeps fuel h g row col h' g' ok :
  Inv h g → Game.select fuel h g row col = Ok (h', g', ok) →
  keeps h (Game.board g) h' (Game.board g').
Proof.
  intros HI Hrun.
  destruct (select_cases _ _ _ _ _ _ _ _ HI Hrun)
    as [(-> & -> & _)|(-> & sel & skipped & Hsel & Hk & Hmove)]; [apply keeps_refl|].
  destruct (game_move_ok h g sel row col skipped HI Hsel Hk)
    as (id & p & b' & -> & Hp & Hcol & _ & _ & _ & Hhere & _ & Hrun'
        & _ & _ & _ & _ & _ & _ & Hred' & Hwhite').
  apply game_move_inv in Hmove as Hinv.
  destruct Hinv as (sel' & skipped' & s & pm & b1 & b2 & Hsel' & Hk' & Hs & Hpm
                    & Hbm & Hrem & Hg).
  rewrite Hsel in Hsel'. injection Hsel' as <-. rewrite Hk in Hk'. injection Hk' as <-.
  simpl in Hs. rewrite Hp in Hs. injection Hs as <-.
  unfold Board.get_piece in Hpm. rewrite Hhere in Hpm. injection Hpm as <-.
  rewrite Hmove in Hrun'. injection Hrun' as -> Hg'.
  destruct (board_move_kings _ _ _ _ _ _ _ _ Hp Hbm) as [Hk1 Hk2].
  destruct (remove_inv _ _ _ _ Hrem) as (_ & _ & Hrk' & Hwk' & _).
  assert (b' = b2) as -> by (rewrite Hg in Hg'; by injection Hg').
  subst g'. cbn [Game.board].
  destruct (moved_fields p row col) as (_ & _ & Hco & Hki).
  pose proof (count_color_nonneg h RED skipped).
  pose proof (count_color_nonneg h WHITE skipped).
  split_and!; try lia.
  - intros id' p' Hp'. destruct (decide (id' = id)) as [->|Hne].
    + rewrite Hp in Hp'. injection Hp' as <-. exists (moved p row col).
      rewrite list_lookup_insert_eq by (by eapply lookup_lt_Some).
      split_and!; try done. rewrite Hki. by intros ->.
    + exists p'. by rewrite list_lookup_insert_ne.
  - rewrite Hrk', Hk1, Hco, Hki.
    destruct (color_eqb (Piece.color p) RED), (Piece.king p); simpl;
      destruct ((row =? ROWS - 1) || (row =? 0)); lia.
  - rewrite Hwk', Hk2, Hco, Hki.
    destruct (color_eqb (Piece.color p) WHITE), (Piece.king p); simpl;
      destruct ((row =? ROWS - 1) || (row =? 0)); lia.
Qed.

(** X13: a game undoes nothing.  In every state that follows a state of a
    game, each piece of the store is still there with the color it had, a
    king is still a king, [red_left] and [white_left] are not larger and
    [red_kings] and [white_kings] are not smaller. *)
Theorem a_game_undoes_nothing h g h' g' :
  reachable h g → later h g h' g' →
  (∀ id p, h !! id = Some p →
     ∃ p', h' !! id = Some p' ∧ Piece.color p' = Piece.color p
           ∧ (Piece.king p = true → Piece.king p' = true))
  ∧ Board.red_left (Game.board g') ≤ Board.red_left (Game.board g)
  ∧ Board.white_left (Game.board g') ≤ Board.white_left (Game.board g)
  ∧ Board.red_kings (Game.board g) ≤ Board.red_kings (Game.board g')
  ∧ Board.white_kings (Game.board g) ≤ Board.white_kings (Game.board g').
Proof.
  intros Hreach Hl. change (keeps h (Game.board g) h' (Game.board g')).
  induction Hl as [|fuel h1 g1 row col h2 g2 b Hl IH Hrun]; [apply keeps_refl|].
  eapply keeps_trans; [exact IH|]. eapply select_keeps; [|exact Hrun].
  apply reachable_inv. by eapply later_reachable.
Qed.

Lemma a_game_undoes_nothing_witness :
  reachable initial.1 initial.2 ∧ later initial.1 initial.2 crowned.1 crowned.2
  ∧ Board.white_left (Game.board crowned.2) ≤ Board.white_left (Game.board initial.2)
  ∧ Board.red_kings (Game.board initial.2) ≤ Board.red_kings (Game.board crowned.2).
Proof.
  assert (reachable initial.1 initial.2) as Hreach.
  { apply reach_init. vm_compute. reflexivity. }
  assert (later initial.1 initial.2 crowned.1 crowned.2) as Hl.
  { assert (crowned = foldl click initial crowning_clicks) as ->
      by (vm_compute; reflexivity).
    apply later_clicks. constructor. }
  split; [exact Hreach|]. split; [exact Hl|].
  destruct (a_game_undoes_nothing _ _ _ _ Hreach Hl) as (_ & _ & H1 & H2 & _).
  split; [exact H1|exact H2].
Defined.

(** ** The mouse *)

Lemma mouse_in_square r c x y :
  SQUARE_SIZE * c ≤ x < SQUARE_SIZE * (c + 1) →
  SQUARE_SIZE * r ≤ y < SQUARE_SIZE * (r + 1) →
  get_row_col_from_mouse (x, y) = (r, c).
Proof.
  unfold get_row_col_from_mouse. change SQUARE_SIZE with 100. intros Hx Hy.
  f_equal; zmod.
Qed.

Lemma in_disc_bounds dx dy : in_disc dx dy → -37 ≤ dx ≤ 37 ∧ -37 ≤ dy ≤ 37.
Proof. unfold in_disc. change (SQUARE_SIZE / 2 - Piece.PADDING + Piece.OUTLINE) with 37. nia. Qed.

Lemma centred_disc p dx dy :
  centred p → in_disc dx dy →
  get_row_col_from_mouse (Piece.x p + dx, Piece.y p + dy) = (Piece.row p, Piece.col p).
Proof.
  intros [Hx Hy] Hd%in_disc_bounds. rewrite Hx, Hy. change SQUARE_SIZE with 100.
  change (100 / 2) with 50. apply mouse_in_square; change SQUARE_SIZE with 100; lia.
Qed.

(** X14: a pixel of the window is mapped to a square of the board, the
    square whose 100 by 100 box holds the pixel. *)
Theorem mouse_gives_the_square_under_it x y :
  0 ≤ x < WIDTH → 0 ≤ y < HEIGHT →
  ∃ row col, get_row_col_from_mouse (x, y) = (row, col) ∧ in_board row col
    ∧ SQUARE_SIZE * col ≤ x < SQUARE_SIZE * (col + 1)
    ∧ SQUARE_SIZE * row ≤ y < SQUARE_SIZE * (row + 1).
Proof.
  unfold WIDTH, HEIGHT, get_row_col_from_mouse, in_board, ROWS, COLS.
  change SQUARE_SIZE with 100. intros Hx Hy.
  exists (y / 100), (x / 100). split; [done|]. zmod.
Qed.

Lemma mouse_gives_the_square_under_it_witness :
  ∃ row col, get_row_col_from_mouse (250, 799) = (row, col) ∧ in_board row col
    ∧ SQUARE_SIZE * col ≤ 250 < SQUARE_SIZE * (col + 1)
    ∧ SQUARE_SIZE * row ≤ 799 < SQUARE_SIZE * (row + 1).
Proof.
  apply (mouse_gives_the_square_under_it 250 799); unfold WIDTH, HEIGHT; lia.
Defined.

(** X15: in every state of a game a click anywhere on the disc painted
    for a piece of the grid is mapped to the square that holds the piece. *)
Theorem a_click_on_a_piece_gives_its_square h g r c id p dx dy :
  reachable h g → in_board r c →
  Board.item (Board.board (Game.board g)) r c = Ok (Ref id) → h !! id = Some p →
  in_disc dx dy →
  get_row_col_from_mouse (Piece.x p + dx, Piece.y p + dy) = (r, c).
Proof.
  intros Hreach Hrc Hitem Hp Hd.
  destruct (reachable_inv h g Hreach) as [_ Hcons _ _].
  destruct (reachable_inv2 h g Hreach) as [_ _ _ Hstore _ _ _].
  destruct (Hcons _ _ _ Hrc Hitem) as (p' & Hp' & <- & <-).
  rewrite Hp in Hp'. injection Hp' as <-.
  destruct (Hstore id p Hp) as (_ & Hcen & _). by apply centred_disc.
Qed.

Lemma a_click_on_a_piece_gives_its_square_witness :
  get_row_col_from_mouse (750 + 30, 50 + -20) = (0, 7).
Proof.
  apply (a_click_on_a_piece_gives_its_square crowned.1 crowned.2 0 7 14%nat
           {| Piece.row := 0; Piece.col := 7; Piece.color := RED; Piece.king := true;
              Piece.x := 750; Piece.y := 50 |} 30 (-20)).
  - exact (later_reachable _ _ _ _ reachable_initial later_crowned).
  - unfold in_board, ROWS, COLS. lia.
  - vm_compute. reflexivity.
  - vm_compute. reflexivity.
  - vm_compute. discriminate.
Defined.

(** ** The squares *)

Lemma draw_squares_red x y :
  0 ≤ x < WIDTH → 0 ≤ y < HEIGHT →
  ∃ rects, Board.draw_squares = Ok (Fill BLACK :: rects) ∧ length rects = 32%nat
    ∧ (painted_red (Fill BLACK :: rects) x y
       ↔ (x / SQUARE_SIZE + y / SQUARE_SIZE) `mod` 2 = 0).
Proof.
  intros Hx Hy. unfold WIDTH, HEIGHT in *.
  destruct Board.draw_squares as [calls| |] eqn:Hsq; vm_compute in Hsq; try discriminate Hsq.
  injection Hsq as <-. eexists. split; [reflexivity|]. split; [reflexivity|].
  change SQUARE_SIZE with 100. unfold painted_red. split.
  - intros (x0 & y0 & w & h & Hin & Hbx & Hby).
    repeat (apply elem_of_cons in Hin as [Hin|Hin];
            [try discriminate Hin; injection Hin as -> -> -> ->; zmod|]).
    by apply elem_of_nil in Hin.
  - intros Hpar. exists (100 * (x / 100)), (100 * (y / 100)), 100, 100.
    split; [|zmod].
    assert (x / 100 = 0 ∨ x / 100 = 1 ∨ x / 100 = 2 ∨ x / 100 = 3 ∨ x / 100 = 4
            ∨ x / 100 = 5 ∨ x / 100 = 6 ∨ x / 100 = 7) as Hi by zmod.
    assert (y / 100 = 0 ∨ y / 100 = 1 ∨ y / 100 = 2 ∨ y / 100 = 3 ∨ y / 100 = 4
            ∨ y / 100 = 5 ∨ y / 100 = 6 ∨ y / 100 = 7) as Hj by zmod.
    repeat (destruct Hi as [Hi|Hi]); repeat (destruct Hj as [Hj|Hj]);
      rewrite Hi, Hj in *; try (exfalso; vm_compute in Hpar; discriminate Hpar);
      clear; vm_compute; repeat first [by apply list_elem_of_here | apply list_elem_of_further].
Qed.

(** X16: [draw_squares] paints the window black, then thirty-two red
    squares: a pixel of the window ends up red exactly when the row and the
    column of its square add up to an even number. *)
Theorem squares_are_red_on_even_sums x y :
  0 ≤ x < WIDTH → 0 ≤ y < HEIGHT →
  ∃ rects, Board.draw_squares = Ok (Fill BLACK :: rects) ∧ length rects = 32%nat
    ∧ (painted_red (Fill BLACK :: rects) x y
       ↔ (x / SQUARE_SIZE + y / SQUARE_SIZE) `mod` 2 = 0).
Proof. apply draw_squares_red. Qed.

Lemma squares_are_red_on_even_sums_witness :
  ∃ rects, Board.draw_squares = Ok (Fill BLACK :: rects) ∧ length rects = 32%nat
    ∧ (painted_red (Fill BLACK :: rects) 250 799
       ↔ (250 / SQUARE_SIZE + 799 / SQUARE_SIZE) `mod` 2 = 0).
Proof.
  apply (squares_are_red_on_even_sums 250 799); unfold WIDTH, HEIGHT; lia.
Defined.

(** X17: in every state of a game no pixel of the disc painted for a piece
    of the grid is a pixel that [draw_squares] paints red: the pieces are
    on the black squares. *)
Theorem pieces_are_painted_on_black_squares h g r c id p dx dy calls :
  reachable h g → in_board r c →
  Board.item (Board.board (Game.board g)) r c = Ok (Ref id) → h !! id = Some p →
  in_disc dx dy → Board.draw_squares = Ok calls →
  ¬ painted_red calls (Piece.x p + dx) (Piece.y p + dy).
Proof.
  intros Hreach Hrc Hitem Hp Hd Hsq.
  destruct (reachable_inv h g Hreach) as [_ Hcons Hdark _].
  destruct (reachable_inv2 h g Hreach) as [_ _ _ Hstore _ _ _].
  specialize (Hdark _ _ _ Hrc Hitem).
  destruct (Hcons _ _ _ Hrc Hitem) as (p' & Hp' & Hr & Hc).
  rewrite Hp in Hp'. injection Hp' as <-.
  destruct (Hstore id p Hp) as (_ & Hcen & _).
  pose proof (centred_disc p dx dy Hcen Hd) as Hmouse.
  destruct Hcen as [Hx Hy]. apply in_disc_bounds in Hd.
  unfold in_board, ROWS, COLS in Hrc. change SQUARE_SIZE with 100 in *.
  change (100 / 2) with 50 in *.
  destruct (draw_squares_red (Piece.x p + dx) (Piece.y p + dy)) as (rects & Hsq' & _ & Hiff);
    [unfold WIDTH; lia|unfold HEIGHT; lia|].
  rewrite Hsq in Hsq'. injection Hsq' as ->. rewrite Hiff.
  unfold get_row_col_from_mouse in Hmouse. change SQUARE_SIZE with 100 in *.
  injection Hmouse as -> ->. unfold dark in Hdark. rewrite Hr, Hc. zmod.
Qed.

Lemma pieces_are_painted_on_black_squares_witness :
  ∃ calls, Board.draw_squares = Ok calls ∧ ¬ painted_red calls (750 + 30) (50 + -20).
Proof.
  destruct Board.draw_squares as [calls| |] eqn:Hsq;
    [|vm_compute in Hsq; discriminate Hsq..].
  exists calls. split; [reflexivity|].
  apply (pieces_are_painted_on_black_squares crowned.1 crowned.2 0 7 14%nat
           {| Piece.row := 0; Piece.col := 7; Piece.color := RED; Piece.king := true;
              Piece.x := 750; Piece.y := 50 |} 30 (-20) calls).
  - exact (later_reachable _ _ _ _ reachable_initial later_crowned).
  - unfold in_board, ROWS, COLS. lia.
  - vm_compute. reflexivity.
  - vm_compute. reflexivity.
  - vm_compute. discriminate.
  - exact Hsq.
Defined.

(** ** The offered squares *)

Lemma dots_select fuel h g row col h' g' ok :
  Inv h g → Inv2 h g → dots_ok g →
  Game.select fuel h g row col = Ok (h', g', ok) → dots_ok g'.
Proof.
  intros HI HI2 Hdots Hrun.
  destruct (select_cases _ _ _ _ _ _ _ _ HI Hrun)
    as [(-> & Hb & Ht & Hc)|(-> & sel & skipped & Hsel & Hk & Hmove)].
  - destruct Hc as [(-> & Hvm & _)|(-> & id & p & n & Hpiece & Hp & Hcol & Hs & Hm)].
    + intros k v Hv. rewrite Hvm in Hv. rewrite Hb. by eapply Hdots.
    + destruct HI as [Hshape Hcons Hdark _]. destruct HI2 as [_ _ _ Hstore _ _ _].
      destruct (item_normalise _ _ _ _ Hshape Hpiece) as (r & c & Hrc & Hitem).
      destruct (Hcons r c id Hrc Hitem) as (p' & Hp' & Hr & Hc).
      rewrite Hp in Hp'. injection Hp' as <-. subst r c.
      intros k v Hv. rewrite Hb.
      destruct (valid_moves_of_spec _ _ _ _ _ _ Hp Hrc Hm k v Hv) as (Hk & Hz & Hpar & _).
      split_and!; try done.
      specialize (Hdark _ _ _ Hrc Hitem). unfold dark in *. congruence.
  - apply game_move_inv in Hmove as (? & ? & ? & ? & ? & ? & _ & _ & _ & _ & _ & _ & ->).
    intros k v Hv. simpl in Hv. by rewrite lookup_empty in Hv.
Qed.

Lemma reachable_dots h g : reachable h g → dots_ok g.
Proof.
  induction 1 as [h g Hinit|fuel h g row col h' g' ok Hreach IH Hrun].
  - rewrite init_initial in Hinit. injection Hinit as <- <-.
    intros k v Hv. vm_compute in Hv. discriminate Hv.
  - eapply dots_select; [by apply reachable_inv|by apply reachable_inv2|exact IH|exact Hrun].
Qed.

Lemma draw_valid_moves_calls moves call :
  call ∈ Game.draw_valid_moves moves →
  ∃ r c, (r, c) ∈ moves
    ∧ call = DrawCircle BLUE (c * SQUARE_SIZE + SQUARE_SIZE / 2)
                             (r * SQUARE_SIZE + SQUARE_SIZE / 2) 15.
Proof.
  unfold Game.draw_valid_moves. intros Hin. apply list_elem_of_In, in_flat_map in Hin.
  destruct Hin as ([r c] & Hin & Hcall). exists r, c. split; [by apply list_elem_of_In|].
  destruct Hcall as [<-|[]]. done.
Qed.

(** X18: in every state of a game, with or without a selection, each call
    of [draw_valid_moves] on keys of [valid_moves] is a blue circle of
    radius 15 whose centre is a pixel of an empty dark square of the board,
    the square of one of the keys. *)
Theorem blue_dots_are_on_empty_dark_squares h g moves call :
  reachable h g → (∀ k, k ∈ moves → is_Some (Game.valid_moves g !! k)) →
  call ∈ Game.draw_valid_moves moves →
  ∃ r c cx cy, (r, c) ∈ moves ∧ call = DrawCircle BLUE cx cy 15
    ∧ get_row_col_from_mouse (cx, cy) = (r, c)
    ∧ in_board r c ∧ dark r c
    ∧ Board.item (Board.board (Game.board g)) r c = Ok Zero.
Proof.
  intros Hreach Hkeys Hcall.
  destruct (draw_valid_moves_calls _ _ Hcall) as (r & c & Hin & ->).
  destruct (Hkeys _ Hin) as [v Hv].
  destruct (reachable_dots h g Hreach (r, c) v Hv) as (Hrc & Hdark & Hz). simpl in *.
  exists r, c, (c * SQUARE_SIZE + SQUARE_SIZE / 2), (r * SQUARE_SIZE + SQUARE_SIZE / 2).
  split_and!; try done.
  apply mouse_in_square; change SQUARE_SIZE with 100; change (100 / 2) with 50; lia.
Qed.

Lemma blue_dots_are_on_empty_dark_squares_witness :
  ∃ r c cx cy, (r, c) ∈ [(4, 1)] ∧ DrawCircle BLUE 150 450 15 = DrawCircle BLUE cx cy 15
    ∧ get_row_col_from_mouse (cx, cy) = (r, c)
    ∧ in_board r c ∧ dark r c
    ∧ Board.item (Board.board (Game.board first_click.2)) r c = Ok Zero.
Proof.
  apply (blue_dots_are_on_empty_dark_squares first_click.1 first_click.2 [(4, 1)]
           (DrawCircle BLUE 150 450 15)).
  - apply (reach_select 10 initial.1 initial.2 5 0 _ _ true).
    + apply reach_init. vm_compute. reflexivity.
    + vm_compute. reflexivity.
  - intros k Hk. apply list_elem_of_singleton in Hk as ->. vm_compute. eexists. reflexivity.
  - vm_compute. apply list_elem_of_here.
Defined.

(** ** [Board.draw] *)

Lemma item_of_line (grid : list (list obj)) row line col :
  getitem grid row = Ok line → Board.item grid row col = getitem line col.
Proof. intros Hline. unfold Board.item. by rewrite Hline. Qed.

(** A loop over [range(start, start + len(xs))] that appends, in round
    [i], what [f] gives for the element [i] of [xs]. *)
Lemma for_each_range_flat {X C} (f : X → list C) (body : Z → list C → res (list C)) :
  ∀ (xs : list X) (start : Z) (calls : list C),
    (∀ (i : nat) x calls, xs !! i = Some x →
       body (start + Z.of_nat i) calls = Ok (calls ++ f x)) →
    for_each (range_from (length xs) start 1) body calls = Ok (calls ++ flat_map f xs).
Proof.
  induction xs as [|x xs IH]; intros start calls Hbody.
  { simpl. by rewrite app_nil_r. }
  cbn [length range_from for_each flat_map].
  pose proof (Hbody 0%nat x calls eq_refl) as H0. rewrite Z.add_0_r in H0.
  rewrite H0. cbn [mbind res_bind].
  rewrite IH; [by rewrite app_assoc|].
  intros i y calls' Hi. rewrite <- (Hbody (S i) y calls' Hi). f_equal. lia.
Qed.

Lemma flat_map_flat_map {X Y C} (f : Y → list C) (g : X → list Y) (xs : list X) :
  flat_map f (flat_map g xs) = flat_map (λ x, flat_map f (g x)) xs.
Proof.
  induction xs as [|x xs IH]; [done|]. simpl. by rewrite flat_map_app, IH.
Qed.

Lemma draw_line crown h (grid : list (list obj)) row line calls :
  getitem grid row = Ok line →
  Forall (λ o, ∀ id, o = Ref id → is_Some (h !! id)) line →
  for_each (range_from (length line) 0 1)
    (λ col calls,
       piece ← Board.item grid row col;
       if bool_decide (piece ≠ Zero) then
         p ← deref h piece; Ok (calls ++ Piece.draw crown p)
       else Ok calls) calls
  = Ok (calls ++ flat_map (Piece.draw crown) (pieces_of h line)).
Proof.
  intros Hline Hall. unfold pieces_of. rewrite flat_map_flat_map.
  apply for_each_range_flat. intros i o calls' Hi.
  pose proof (lookup_lt_Some _ _ _ Hi).
  rewrite (item_of_line _ _ _ _ Hline). rewrite getitem_in_range by lia.
  rewrite Z.add_0_l, Nat2Z.id, Hi. cbn [mbind res_bind].
  destruct o as [|id].
  - rewrite bool_decide_eq_false_2 by (by intros []). simpl. by rewrite app_nil_r.
  - rewrite bool_decide_eq_true_2 by done.
    rewrite Forall_forall in Hall.
    destruct (Hall (Ref id) (list_elem_of_lookup_2 _ _ _ Hi) id eq_refl) as [p Hp].
    simpl. rewrite Hp. simpl. by rewrite app_nil_r.
Qed.

Lemma draw_rows crown h (grid : list (list obj)) calls :
  shape grid → no_dangling h grid →
  for_each (range_from (length grid) 0 1)
    (λ row calls,
       for_each (range_from 8 0 1)
         (λ col calls,
            piece ← Board.item grid row col;
            if bool_decide (piece ≠ Zero) then
              p ← deref h piece; Ok (calls ++ Piece.draw crown p)
            else Ok calls) calls) calls
  = Ok (calls ++ flat_map (Piece.draw crown) (grid_pieces h grid)).
Proof.
  intros [Hlen Hall] Hnd. unfold grid_pieces. rewrite flat_map_flat_map.
  apply for_each_range_flat. intros i line calls' Hi.
  pose proof (lookup_lt_Some _ _ _ Hi).
  assert (length line = 8%nat) as Hl.
  { rewrite Forall_forall in Hall. apply Hall. by eapply list_elem_of_lookup_2. }
  assert (getitem grid (0 + Z.of_nat i) = Ok line) as Hline.
  { rewrite getitem_in_range by lia. by rewrite Z.add_0_l, Nat2Z.id, Hi. }
  rewrite <- Hl. apply draw_line; [done|].
  apply Forall_forall. intros o Ho id ->.
  apply list_elem_of_lookup in Ho as [j Hj]. pose proof (lookup_lt_Some _ _ _ Hj).
  apply (Hnd (0 + Z.of_nat i) (Z.of_nat j)).
  - unfold in_board, ROWS, COLS. lia.
  - rewrite (item_of_line _ _ _ _ Hline). rewrite getitem_in_range by lia.
    by rewrite Nat2Z.id, Hj.
Qed.

Lemma board_draw_calls crown h b :
  valid_board h b →
  ∃ squares, Board.draw_squares = Ok squares
    ∧ Board.draw crown h b
      = Ok (squares ++ flat_map (Piece.draw crown) (grid_pieces h (Board.board b))).
Proof.
  intros [Hs Hnd].
  destruct Board.draw_squares as [squares| |] eqn:Hsq;
    [|vm_compute in Hsq; discriminate Hsq..].
  exists squares. split; [done|]. unfold Board.draw. rewrite Hsq. simpl.
  change (range 0 ROWS 1) with (Ok (range_from 8 0 1)).
  change (range 0 COLS 1) with (Ok (range_from 8 0 1)). simpl mbind.
  pose proof (draw_rows crown h (Board.board b) squares Hs Hnd) as Hrows.
  destruct Hs as [Hlen _]. rewrite Hlen in Hrows. exact Hrows.
Qed.

Lemma pieces_of_elem h line p :
  p ∈ pieces_of h line ↔ ∃ id, Ref id ∈ line ∧ h !! id = Some p.
Proof.
  unfold pieces_of. rewrite list_elem_of_In, in_flat_map. split.
  - intros (o & Ho & Hp). destruct o as [|id]; [done|].
    destruct (h !! id) as [q|] eqn:Hq; [|done]. destruct Hp as [->|[]].
    exists id. split; [by apply list_elem_of_In|done].
  - intros (id & Hin & Hp). exists (Ref id). split; [by apply list_elem_of_In|].
    rewrite Hp. by left.
Qed.

Lemma grid_pieces_elem h grid p :
  shape grid →
  (p ∈ grid_pieces h grid
   ↔ ∃ r c id, in_board r c ∧ Board.item grid r c = Ok (Ref id) ∧ h !! id = Some p).
Proof.
  intros Hs. unfold grid_pieces. rewrite list_elem_of_In, in_flat_map. split.
  - intros (line & Hline & Hp). apply list_elem_of_In in Hline, Hp.
    apply pieces_of_elem in Hp as (id & Hin & Hp).
    apply list_elem_of_lookup in Hline as [i Hi]. apply list_elem_of_lookup in Hin as [j Hj].
    destruct Hs as [Hlen Hall].
    assert (length line = 8%nat) as Hl.
    { rewrite Forall_forall in Hall. apply Hall. by eapply list_elem_of_lookup_2. }
    pose proof (lookup_lt_Some _ _ _ Hi). pose proof (lookup_lt_Some _ _ _ Hj).
    exists (Z.of_nat i), (Z.of_nat j), id. split_and!; try done.
    + unfold in_board, ROWS, COLS. lia.
    + unfold Board.item. rewrite getitem_in_range by lia. rewrite Nat2Z.id, Hi. simpl.
      rewrite getitem_in_range by lia. by rewrite Nat2Z.id, Hj.
  - intros (r & c & id & Hrc & Hitem & Hp).
    destruct (item_in_board grid r c Hs Hrc) as (line & o & Hline & Ho & _ & Hitem').
    rewrite Hitem in Hitem'. injection Hitem' as <-.
    exists line. split; apply list_elem_of_In.
    + by eapply list_elem_of_lookup_2.
    + apply pieces_of_elem. exists id. split; [by eapply list_elem_of_lookup_2|done].
Qed.

(** X19: on a board whose grid is eight by eight and holds no reference
    outside the store, [Board.draw] returns: its calls are those of
    [draw_squares], then those of [Piece.draw] for the pieces of the grid,
    row by row and column by column, and for nothing else. *)
Theorem draw_paints_the_squares_then_the_pieces crown h b :
  valid_board h b →
  ∃ squares, Board.draw_squares = Ok squares
    ∧ Board.draw crown h b
      = Ok (squares ++ flat_map (Piece.draw crown) (grid_pieces h (Board.board b)))
    ∧ ∀ p, p ∈ grid_pieces h (Board.board b)
           ↔ ∃ r c id, in_board r c ∧ Board.item (Board.board b) r c = Ok (Ref id)
                       ∧ h !! id = Some p.
Proof.
  intros Hv. destruct (board_draw_calls crown h b Hv) as (squares & Hsq & Hdraw).
  exists squares. split_and!; try done. intros p. apply grid_pieces_elem, Hv.
Qed.

Lemma draw_paints_the_squares_then_the_pieces_witness :
  valid_board crowned.1 (Game.board crowned.2)
  ∧ ∃ squares, Board.draw_squares = Ok squares
      ∧ Board.draw None crowned.1 (Game.board crowned.2)
        = Ok (squares ++ flat_map (Piece.draw None)
                           (grid_pieces crowned.1 (Board.board (Game.board crowned.2)))).
Proof.
  assert (valid_board crowned.1 (Game.board crowned.2)) as Hv.
  { apply inv_valid_board, reachable_inv.
    exact (later_reachable _ _ _ _ reachable_initial later_crowned). }
  split; [exact Hv|].
  destruct (draw_paints_the_squares_then_the_pieces None _ _ Hv) as (squares & Hsq & Hd & _).
  exists squares. split; [exact Hsq|exact Hd].
Defined.

(** ** [Board.__init__] on any store *)

Lemma foldl_snoc {A} (l : list A) : ∀ h0, foldl (λ h p, h ++ [p]) h0 l = h0 ++ l.
Proof.
  induction l as [|a l IH]; intros h0; simpl; [by rewrite app_nil_r|].
  rewrite IH. by rewrite <- app_assoc.
Qed.

Lemma board_init_any (h0 : Heap) :
  Board.__init__ h0
  = Ok (h0 ++ initial.1,
        {| Board.board := fmap (M := list) (shift (length h0)) <$> Board.board (Game.board initial.2);
           Board.red_left := 12; Board.white_left := 12;
           Board.red_kings := 0; Board.white_kings := 0 |}).
Proof.
  transitivity
    (Ok (foldl (λ h p, h ++ [p]) h0 initial.1,
         {| Board.board :=
              fmap (M := list) (λ o, match o with
                         | Zero => Zero
                         | Ref id => Ref (length (foldl (λ h p, h ++ [p]) h0
                                                    (take id initial.1)))
                         end) <$> Board.board (Game.board initial.2);
            Board.red_left := 12; Board.white_left := 12;
            Board.red_kings := 0; Board.white_kings := 0 |})).
  - vm_compute. reflexivity.
  - rewrite foldl_snoc. f_equal. f_equal. f_equal.
    cbv [initial snd fst Game.board Board.board fmap list_fmap shift take].
    rewrite !foldl_snoc, !length_app. cbn [length]. rewrite ?Nat.add_0_r. reflexivity.
Qed.

(** ** A click never fails *)

Lemma select_here_total n h g0 g row col :
  Inv h g → Game.board g0 = Game.board g → Game.turn g0 = Game.turn g →
  (8 ≤ n)%nat → in_board row col →
  ∃ g' ok, Game.select_here n h g0 row col = Ok (h, g', ok)
    ∧ Game.board g' = Game.board g ∧ Game.turn g' = Game.turn g.
Proof.
  intros HI Hb Ht Hn Hrc. pose proof (inv_valid_board _ _ HI) as Hv.
  destruct HI as [Hs Hcons _ _].
  destruct (item_total _ _ _ Hs Hrc) as [o Ho].
  unfold Game.select_here, Board.get_piece. rewrite Hb, Ho. simpl.
  destruct o as [|id]; [by eexists _, _|].
  destruct (Hcons _ _ _ Hrc Ho) as (p & Hp & Hr & Hc). simpl. rewrite Hp. simpl.
  destruct (color_eqb (Piece.color p) (Game.turn g0)); [|by eexists _, _].
  destruct (get_valid_moves_total h (Game.board g) id p Hv Hp) as [m Hm].
  { by rewrite Hr, Hc. }
  rewrite (proj1 (Hm n Hn)). simpl. by eexists _, _.
Qed.

Lemma select_total fuel h g row col :
  Inv h g → (10 ≤ fuel)%nat → in_board row col →
  ∃ h' g' ok, Game.select fuel h g row col = Ok (h', g', ok).
Proof.
  intros HI Hfuel Hrc. destruct fuel as [|[|fuel]]; [lia..|].
  destruct (Game.selected g) as [sel|] eqn:Hsel; cycle 1.
  { cbn [Game.select]. rewrite Hsel. cbn [mbind res_bind].
    destruct (select_here_total (S fuel) h g g row col HI eq_refl eq_refl) as (g' & ok & H & _);
      [lia|done|]. by eexists _, _, _. }
  destruct (Game.valid_moves g !! (row, col)) as [skipped|] eqn:Hk.
  { destruct (select_after_move h g sel row col skipped (S fuel) HI Hsel Hk)
      as (h' & g' & _ & H & _). by eexists _, _, _. }
  change (Game.select (S (S fuel)) h g row col)
    with ('(h, g) ←
            match Game.selected g with
            | Some _ =>
              '(h, g, result) ← Game._move h g row col;
              if negb result then
                let g := {| Game.selected := None; Game.board := Game.board g;
                            Game.turn := Game.turn g;
                            Game.valid_moves := Game.valid_moves g |} in
                '(h, g, _) ← Game.select (S fuel) h g row col;
                Ok (h, g)
              else Ok (h, g)
            | None => Ok (h, g)
            end;
          Game.select_here (S fuel) h g row col).
  rewrite Hsel. rewrite game_move_fail by auto. cbn [mbind res_bind negb].
  cbn [Game.select Game.selected Game.board Game.turn Game.valid_moves mbind res_bind].
  destruct (select_here_total fuel h
              {| Game.selected := None; Game.board := Game.board g;
                 Game.turn := Game.turn g; Game.valid_moves := Game.valid_moves g |}
              g row col HI eq_refl eq_refl) as (g3 & ok3 & H3 & Hb3 & Ht3); [lia|done|].
  rewrite H3. cbn [mbind res_bind].
  destruct (select_here_total (S fuel) h g3 g row col HI Hb3 Ht3) as (g' & ok & H & _);
    [lia|done|].
  by eexists _, _, _.
Qed.

(** X20: a click on the window is always handled.  In every state of a
    game, for every pixel of the window, [select] on the square that
    [get_row_col_from_mouse] gives for the pixel returns, with any fuel from 10
    on, and the state it leaves is a state of the game. *)
Theorem a_click_on_the_window_is_handled h g x y fuel :
  reachable h g → 0 ≤ x < WIDTH → 0 ≤ y < HEIGHT → (10 ≤ fuel)%nat →
  ∃ h' g' ok,
    Game.select fuel h g (get_row_col_from_mouse (x, y)).1
                         (get_row_col_from_mouse (x, y)).2 = Ok (h', g', ok)
    ∧ reachable h' g'.
Proof.
  intros Hreach Hx Hy Hfuel.
  destruct (select_total fuel h g (get_row_col_from_mouse (x, y)).1
              (get_row_col_from_mouse (x, y)).2) as (h' & g' & ok & Hrun);
    [by apply reachable_inv|done| |].
  - unfold WIDTH, HEIGHT, get_row_col_from_mouse, in_board, ROWS, COLS in *.
    change SQUARE_SIZE with 100. simpl. zmod.
  - exists h', g', ok. split; [done|]. by eapply reach_select.
Qed.

Lemma a_click_on_the_window_is_handled_witness :
  ∃ h' g' ok,
    Game.select 10 initial.1 initial.2 (get_row_col_from_mouse (50, 550)).1
                                       (get_row_col_from_mouse (50, 550)).2
    = Ok (h', g', ok)
    ∧ reachable h' g'.
Proof.
  apply (a_click_on_the_window_is_handled initial.1 initial.2 50 550 10).
  - apply reach_init. vm_compute. reflexivity.
  - unfold WIDTH. lia.
  - unfold HEIGHT. lia.
  - lia.
Defined.

(** ** A new board at any time *)

Lemma item_fmap (f : obj → obj) grid r c o :
  Board.item grid r c = Ok o → Board.item (fmap (M := list) f <$> grid) r c = Ok (f o).
Proof.
  unfold Board.item. intros (line & Hline & Ho)%bind_Ok.
  apply getitem_Ok in Hline as (n & Hn & Hline). apply getitem_Ok in Ho as (k & Hk & Ho).
  unfold getitem. rewrite length_fmap, Hn, list_lookup_fmap, Hline. simpl.
  by rewrite length_fmap, Hk, list_lookup_fmap, Ho.
Qed.

Lemma initial_layout r c :
  in_board r c →
  (dark r c ∧ (r < 3 ∨ 4 < r) →
   ∃ id, Board.item (Board.board (Game.board initial.2)) r c = Ok (Ref id)
     ∧ initial.1 !! id = Some (Piece.__init__ r c (if r <? 3 then WHITE else RED)))
  ∧ (¬ (dark r c ∧ (r < 3 ∨ 4 < r)) →
     Board.item (Board.board (Game.board initial.2)) r c = Ok Zero).
Proof.
  intros Hrc. each_square r c Hrc;
    (split;
     [intros [Hd Hr];
      first [by (vm_compute in Hd; discriminate Hd) | lia
            | (eexists; split; vm_compute; reflexivity)]
     |intros Hn;
      first [by (vm_compute; reflexivity)
            | (exfalso; apply Hn; split; [reflexivity|lia])]]).
Qed.

Lemma reset_any (h0 : Heap) :
  Game.reset h0
  = Ok (h0 ++ initial.1,
        {| Game.selected := None;
           Game.board :=
             {| Board.board := fmap (M := list) (shift (length h0)) <$> Board.board (Game.board initial.2);
                Board.red_left := 12; Board.white_left := 12;
                Board.red_kings := 0; Board.white_kings := 0 |};
           Game.turn := RED; Game.valid_moves := ∅ |}).
Proof. unfold Game.reset, Game._init. by rewrite board_init_any. Qed.

(** X21: [reset] at any time.  Whatever the store holds, [reset] returns:
    the objects of the store are as they were, twenty-four pieces are new,
    nothing is selected, no move is offered, [RED] is to move, the counts
    are twelve, twelve and no kings, and a square of the board holds a new
    piece when it is dark and in rows 0-2 or 5-7, [WHITE] in rows 0-2 and
    [RED] in rows 5-7, not a king and centred on its square, and is empty
    otherwise. *)
Theorem reset_sets_up_a_new_game h0 r c :
  in_board r c →
  ∃ h g, Game.reset h0 = Ok (h, g)
    ∧ take (length h0) h = h0 ∧ length h = (length h0 + 24)%nat
    ∧ Game.selected g = None ∧ Game.valid_moves g = ∅ ∧ Game.turn g = RED
    ∧ Board.red_left (Game.board g) = 12 ∧ Board.white_left (Game.board g) = 12
    ∧ Board.red_kings (Game.board g) = 0 ∧ Board.white_kings (Game.board g) = 0
    ∧ shape (Board.board (Game.board g))
    ∧ (dark r c ∧ (r < 3 ∨ 4 < r) →
       ∃ id, Board.item (Board.board (Game.board g)) r c = Ok (Ref id)
         ∧ (length h0 ≤ id)%nat
         ∧ h !! id = Some {| Piece.row := r; Piece.col := c;
                             Piece.color := if r <? 3 then WHITE else RED;
                             Piece.king := false;
                             Piece.x := SQUARE_SIZE * c + SQUARE_SIZE / 2;
                             Piece.y := SQUARE_SIZE * r + SQUARE_SIZE / 2 |})
    ∧ (¬ (dark r c ∧ (r < 3 ∨ 4 < r)) →
       Board.item (Board.board (Game.board g)) r c = Ok Zero).
Proof.
  intros Hrc. eexists _, _. split; [apply reset_any|]. cbn [Game.selected Game.valid_moves
    Game.turn Game.board Board.red_left Board.white_left Board.red_kings Board.white_kings
    Board.board].
  destruct (initial_layout r c Hrc) as [Hyes Hno].
  split_and!; try done.
  - by rewrite take_app_length.
  - by rewrite length_app.
  - split; [by rewrite length_fmap|]. apply Forall_fmap, Forall_forall.
    intros line Hline. simpl. rewrite length_fmap.
    destruct (reachable_inv _ _ reachable_initial) as [[_ Hall] _ _ _].
    rewrite Forall_forall in Hall. by apply Hall.
  - intros Hd. destruct (Hyes Hd) as (id & Hitem & Hp). exists (length h0 + id)%nat.
    split_and!; [|lia|].
    + by apply (item_fmap (shift (length h0))) in Hitem.
    + rewrite lookup_app_r by lia. by replace (length h0 + id - length h0)%nat with id by lia.
  - intros Hn. by apply (item_fmap (shift (length h0))) in Hno; [|done].
Qed.

Lemma reset_sets_up_a_new_game_witness :
  ∃ h g, Game.reset crowned.1 = Ok (h, g)
    ∧ take (length crowned.1) h = crowned.1 ∧ length h = (length crowned.1 + 24)%nat
    ∧ Game.selected g = None ∧ Game.valid_moves g = ∅ ∧ Game.turn g = RED
    ∧ Board.red_left (Game.board g) = 12 ∧ Board.white_left (Game.board g) = 12
    ∧ Board.red_kings (Game.board g) = 0 ∧ Board.white_kings (Game.board g) = 0
    ∧ shape (Board.board (Game.board g))
    ∧ (dark 7 0 ∧ (7 < 3 ∨ 4 < 7) →
       ∃ id, Board.item (Board.board (Game.board g)) 7 0 = Ok (Ref id)
         ∧ (length crowned.1 ≤ id)%nat
         ∧ h !! id = Some {| Piece.row := 7; Piece.col := 0;
                             Piece.color := if 7 <? 3 then WHITE else RED;
                             Piece.king := false;
                             Piece.x := SQUARE_SIZE * 0 + SQUARE_SIZE / 2;
                             Piece.y := SQUARE_SIZE * 7 + SQUARE_SIZE / 2 |})
    ∧ (¬ (dark 7 0 ∧ (7 < 3 ∨ 4 < 7)) →
       Board.item (Board.board (Game.board g)) 7 0 = Ok Zero).
Proof.
  apply (reset_sets_up_a_new_game crowned.1 7 0). unfold in_board, ROWS, COLS. lia.
Defined.

(** ** [Board.get_piece] *)

Lemma norm_index_cases len i :
  (- Z.of_nat len ≤ i < 0 → norm_index len i = Some (Z.to_nat (Z.of_nat len + i)))
  ∧ (¬ (- Z.of_nat len ≤ i < Z.of_nat len) → norm_index len i = None).
Proof.
  unfold norm_index.
  destruct (Z.leb_spec 0 i), (Z.ltb_spec i (Z.of_nat len)),
    (Z.leb_spec (- Z.of_nat len) i), (Z.ltb_spec i 0); simpl; split; intros; try done; lia.
Qed.

Lemma getitem_wraps {A} (l : list A) i :
  length l = 8%nat →
  (-8 ≤ i < 8 → ∃ a, getitem l i = Ok a ∧ getitem l (i `mod` 8) = Ok a)
  ∧ (¬ (-8 ≤ i < 8) → getitem l i = Raise IndexError).
Proof.
  intros Hl. split.
  - intros Hi. destruct (decide (0 ≤ i)) as [Hpos|Hneg].
    + rewrite Z.mod_small by lia. rewrite getitem_in_range by lia.
      destruct (lookup_lt_is_Some_2 l (Z.to_nat i)) as [a Ha]; [lia|]. rewrite Ha. eauto.
    + replace (i `mod` 8) with (8 + i) by zmod.
      rewrite (getitem_in_range l (8 + i)) by lia.
      unfold getitem. rewrite (proj1 (norm_index_cases (length l) i)) by lia.
      rewrite Hl. change (Z.of_nat 8) with 8.
      destruct (lookup_lt_is_Some_2 l (Z.to_nat (8 + i))) as [a Ha]; [lia|].
      rewrite Ha. eauto.
  - intros Hn. unfold getitem. by rewrite (proj2 (norm_index_cases (length l) i)) by lia.
Qed.

(** X22: on a grid of eight rows of eight squares [get_piece] returns
    for a row and a column from -8 to 7, a negative one counting from the
    other end of the board, and raises [IndexError] for any other. *)
Theorem get_piece_wraps_negative_indices b row col :
  shape (Board.board b) →
  (-8 ≤ row < 8 ∧ -8 ≤ col < 8 →
   ∃ o, Board.get_piece b row col = Ok o
     ∧ in_board (row `mod` 8) (col `mod` 8)
     ∧ Board.get_piece b (row `mod` 8) (col `mod` 8) = Ok o)
  ∧ (¬ (-8 ≤ row < 8 ∧ -8 ≤ col < 8) →
     Board.get_piece b row col = Raise IndexError).
Proof.
  intros [Hlen Hall]. unfold Board.get_piece, Board.item.
  destruct (getitem_wraps (Board.board b) row Hlen) as [Hin Hout].
  assert (∀ line, getitem (Board.board b) row = Ok line → length line = 8%nat) as Hline.
  { intros line (n & _ & Hn)%getitem_Ok. rewrite Forall_forall in Hall. apply Hall.
    by eapply list_elem_of_lookup_2. }
  split.
  - intros [Hr Hc]. destruct (Hin Hr) as (line & H1 & H2). rewrite H1, H2. simpl.
    destruct (getitem_wraps line col (Hline _ H1)) as [Hin' _].
    destruct (Hin' Hc) as (o & H3 & H4). exists o. split_and!; try done.
    unfold in_board, ROWS, COLS. zmod.
  - intros Hn. destruct (decide (-8 ≤ row < 8)) as [Hr|Hr].
    + destruct (Hin Hr) as (line & H1 & _). rewrite H1. simpl.
      destruct (getitem_wraps line col (Hline _ H1)) as [_ Hout'].
      apply Hout'. lia.
    + by rewrite (Hout Hr).
Qed.

Lemma get_piece_wraps_negative_indices_witness :
  ∃ o, Board.get_piece (Game.board initial.2) (-1) (-8) = Ok o
    ∧ in_board ((-1) `mod` 8) ((-8) `mod` 8)
    ∧ Board.get_piece (Game.board initial.2) ((-1) `mod` 8) ((-8) `mod` 8) = Ok o.
Proof.
  assert (shape (Board.board (Game.board initial.2))) as Hs.
  { split; [reflexivity|]. simpl. repeat constructor. }
  apply (proj1 (get_piece_wraps_negative_indices (Game.board initial.2) (-1) (-8) Hs)).
  lia.
Defined.
